(** * ProjectPlanning: a shallow embedding of [ProjectPlanning.py]

    The development follows the Python module top down: the Python and
    NumPy idioms the module relies on ([Py], [Np]), the calendar of
    [matplotlib.dates] ([Mdates]), the metrics class [Projects], and the
    scheduler [Projects_Planner] with its selection policies, the
    deterministic ordering and the day-by-day simulation.

    Conventions of the embedding.
    - Python integers are [Z]; positions produced by NumPy ([argsort],
      [where], [enumerate]) are [nat]; a subscript expression that may be
      negative is a [Z] and goes through [Py.getitem].
    - Production quantities (NumPy floats in the source) are rationals [Q]:
      the code only adds, subtracts, divides and compares them.
    - Date numbers are whole days ([Z]), counted from 1970-01-01,
      matplotlib's default epoch. [Mdates.num2date] raises ValueError for a
      day number outside the years 1 to 9999, as matplotlib does, and gives
      the date of the proleptic Gregorian calendar inside.
    - A raised exception is a value of [Py.exn]; methods of the planner are
      computations in the monad [M], which threads the mutable attributes of
      [self] and keeps the state reached when an exception is raised.
    - [while] loops take fuel: running out is the outcome [OutOfFuel], which
      is distinct from returning and from raising.
    - The pseudo-random source is an oracle [nat -> nat] held in the state;
      every draw consumes one value. *)

From Stdlib Require Import String ZArith QArith Qabs Bool Lia Arith List
  Permutation Sorted.
Import ListNotations.

Open Scope Z_scope.

(* ================================================================== *)
(** ** Python values, exceptions and subscripts *)

Module Py.

Inductive exn : Type :=
| IndexError
| KeyError
| ValueError
| AssertionError
| AttributeError
| NameError
| UnboundLocalError
| ZeroDivisionError.

Inductive outcome (A : Type) : Type :=
| Ret (a : A)
| Raise (e : exn)
| OutOfFuel.

Arguments Ret {A} a.
Arguments Raise {A} e.
Arguments OutOfFuel {A}.

Definition bind {A B} (m : outcome A) (k : A -> outcome B) : outcome B :=
  match m with
  | Ret a => k a
  | Raise e => Raise e
  | OutOfFuel => OutOfFuel
  end.

Definition is_raise {A} (o : outcome A) : Prop :=
  match o with Raise _ => True | _ => False end.

(** [l[i]] with Python's negative subscripts. *)
Definition getitem {A} (l : list A) (i : Z) : outcome A :=
  let n := Z.of_nat (length l) in
  let j := if i <? 0 then i + n else i in
  if (0 <=? j) && (j <? n) then
    match nth_error l (Z.to_nat j) with
    | Some x => Ret x
    | None => Raise IndexError
    end
  else Raise IndexError.

(** [[f(x) for x in l]] where [f] may raise. *)
Fixpoint mapM {A B} (f : A -> outcome B) (l : list A) : outcome (list B) :=
  match l with
  | [] => Ret []
  | x :: l' =>
      bind (f x) (fun y => bind (mapM f l') (fun ys => Ret (y :: ys)))
  end.

(** The builtin [max] over a sequence of integers. *)
Definition max (l : list Z) : outcome Z :=
  match l with
  | [] => Raise ValueError
  | x :: l' => Ret (fold_left Z.max l' x)
  end.

(** [range(n)] *)
Definition range (n : Z) : list Z :=
  map Z.of_nat (seq 0 (Z.to_nat n)).

(** [dict[key]] on a dictionary kept as an association list in
    insertion order. *)
Fixpoint lookup {V} (d : list (string * V)) (key : string) : outcome V :=
  match d with
  | [] => Raise KeyError
  | (k, v) :: d' => if String.eqb k key then Ret v else lookup d' key
  end.

End Py.

Import Py.

Declare Scope py_scope.
Delimit Scope py_scope with py.
Notation "x <- m ;; k" := (Py.bind m (fun x => k))
  (at level 61, m at next level, right associativity) : py_scope.
Notation "' pat <- m ;; k" := (Py.bind m (fun x => match x with pat => k end))
  (at level 61, pat pattern, m at next level, right associativity) : py_scope.

(* ================================================================== *)
(** ** NumPy array operations used by the module *)

Module Np.

(** Insertion of index [i] in a list of indices ordered by [key]. *)
Fixpoint insert_by (key : nat -> Q) (i : nat) (l : list nat) : list nat :=
  match l with
  | [] => [i]
  | j :: l' =>
      if Qle_bool (key i) (key j) then i :: l else j :: insert_by key i l'
  end.

(** [a.argsort()]: the positions of [a] in ascending order of value.
    Equal values keep their relative order; for arrays with pairwise
    distinct values the result does not depend on that choice. *)
Definition argsort (a : list Q) : list nat :=
  fold_right (insert_by (fun i => nth i a 0%Q)) [] (seq 0 (length a)).

Fixpoint insertZ (x : Z) (l : list Z) : list Z :=
  match l with
  | [] => [x]
  | y :: l' =>
      if x <? y then x :: l
      else if x =? y then l
      else y :: insertZ x l'
  end.

(** [np.unique(a)]: the sorted distinct values of [a]. *)
Definition unique (a : list Z) : list Z := fold_right insertZ [] a.

(** [np.sort] on an integer array. *)
Fixpoint insert_sorted (x : Z) (l : list Z) : list Z :=
  match l with
  | [] => [x]
  | y :: l' => if x <=? y then x :: l else y :: insert_sorted x l'
  end.

Definition sort (a : list Z) : list Z := fold_right insert_sorted [] a.

Fixpoint where_from {A} (c : A -> bool) (i : nat) (a : list A) : list nat :=
  match a with
  | [] => []
  | x :: a' => if c x then i :: where_from c (S i) a' else where_from c (S i) a'
  end.

(** [np.where(cond)[0]] for an elementwise condition [c] on [a]. *)
Definition where_ {A} (c : A -> bool) (a : list A) : list nat :=
  where_from c 0 a.

(** [a[idx]] for an array of positions [idx]. *)
Definition take {A} (a : list A) (idx : list nat) : outcome (list A) :=
  mapM (fun i => getitem a (Z.of_nat i)) idx.

(** [a[mask]] for a boolean mask of the same length. *)
Fixpoint compress {A} (mask : list bool) (a : list A) : list A :=
  match mask, a with
  | b :: mask', x :: a' => if b then x :: compress mask' a' else compress mask' a'
  | _, _ => []
  end.

(** [np.in1d(a, b)] *)
Definition in1d (a b : list string) : list bool :=
  map (fun x => existsb (String.eqb x) b) a.

(** [x in a] for an array of names. *)
Definition contains (a : list string) (x : string) : bool :=
  existsb (String.eqb x) a.

(** A subscript of [np.delete], wrapped like any subscript. *)
Definition normalize (n : nat) (i : Z) : outcome nat :=
  let j := if i <? 0 then i + Z.of_nat n else i in
  if (0 <=? j) && (j <? Z.of_nat n) then Ret (Z.to_nat j) else Raise IndexError.

Fixpoint drop_at {A} (idx : list nat) (i : nat) (a : list A) : list A :=
  match a with
  | [] => []
  | x :: a' =>
      if existsb (Nat.eqb i) idx then drop_at idx (S i) a'
      else x :: drop_at idx (S i) a'
  end.

(** [np.delete(a, idx)] for a list of subscripts: all the positions are
    removed at once, so no position shifts while deleting. *)
Definition delete {A} (a : list A) (idx : list Z) : outcome (list A) :=
  (pos <- mapM (normalize (length a)) idx ;;
   Ret (drop_at pos 0 a))%py.

(** [np.arange(lo, hi)] with unit step. *)
Definition arange (lo hi : Z) : list Z :=
  map (fun k => lo + Z.of_nat k) (seq 0 (Z.to_nat (hi - lo))).

(** [np.hstack(arrays)] *)
Definition hstack {A} (arrays : list (list A)) : outcome (list A) :=
  match arrays with
  | [] => Raise ValueError
  | _ => Ret (concat arrays)
  end.

Definition sum (a : list Q) : Q := fold_left Qplus a 0%Q.

End Np.

(* ================================================================== *)
(** ** matplotlib.dates *)

Module Mdates.

Record date := mkdate { year : Z; month : Z; day_of_month : Z }.

(** The civil date of day number [x] in the proleptic Gregorian calendar. *)
Definition civil (x : Z) : date :=
  let z := x + 719468 in
  let era := z / 146097 in
  let doe := z - era * 146097 in
  let yoe := (doe - doe / 1460 + doe / 36524 - doe / 146096) / 365 in
  let y := yoe + era * 400 in
  let doy := doe - (365 * yoe + yoe / 4 - yoe / 100) in
  let mp := (5 * doy + 2) / 153 in
  let d := doy - (153 * mp + 2) / 5 + 1 in
  let m := if mp <? 10 then mp + 3 else mp - 9 in
  mkdate (if m <=? 2 then y + 1 else y) m d.

(** The day numbers matplotlib converts: from 0001-01-01, day -719162, to
    9999-12-31, day 2932896. *)
Definition in_calendar (x : Z) : bool :=
  (-719162 <=? x) && (x <? 2932897).

(** [num2date(x).date()]: "Matplotlib dates must be between year 0001 and
    9999", a ValueError otherwise. *)
Definition num2date (x : Z) : outcome date :=
  if in_calendar x then Ret (civil x) else Raise ValueError.

(** [date2num(date(y, 1, 1))], used to write start dates in examples. *)
Definition january_first (y : Z) : Z :=
  let y' := y - 1 in
  365 * (y - 1970) + (y' / 4 - 1969 / 4) - (y' / 100 - 1969 / 100)
  + (y' / 400 - 1969 / 400).

End Mdates.

(* ================================================================== *)
(** ** The project catalog *)

(** A project as [dataframe_to_dictionary] hands it over: the keys
    ['spud'], ['drill'], ['profile'], ['years'] and ['curve']. *)
Module Raw.
Record project := mkproject {
  spud : Z;
  drill : Z;
  profile : list Q;
  years : list Z;
  curve : Q -> Q
}.
End Raw.

(** A project once [Projects.__init__] has written the keys ['max'],
    ['total'] and ['effective'] into its dictionary. *)
Record project := mkproject {
  raw : Raw.project;
  max_prod : Q;
  total : Q;
  effective : list Q
}.

Definition spud (p : project) : Z := Raw.spud (raw p).
Definition drill (p : project) : Z := Raw.drill (raw p).

(** The values the code tests the options [first_project] and
    [next_project] against: ['mean'], ['minmax'], anything else. *)
Inductive policy : Type := Mean | Minmax | Other.

Record kwargs := mkkwargs {
  kw_min_year : option Z;
  kw_max_year : option Z;
  kw_first_project : option policy;
  kw_next_project : option policy;
  kw_initial_iters : option Z
}.

Definition no_kwargs : kwargs := mkkwargs None None None None None.

Definition get_default {A} (o : option A) (d : A) : A :=
  match o with Some v => v | None => d end.

(** The attributes [Projects.__init__] sets. *)
Record Projects := mkProjects {
  period : Z;
  projects : list (string * project);
  projects_names : list string;
  min_year : Z;
  max_year : Z;
  first_project : policy;
  next_project : policy;
  initial_iters : Z;
  max_project_prod : list Q;
  total_prod : Q;
  global_mean : Q;
  order_projects_names_rel : list string;
  order_projects_names_abs : list string
}.

Section Metrics.

(** [scipy.integrate.quad(f, a, b)[0]]: the integrator is a parameter of
    the development. *)
Variable quad : (Q -> Q) -> Q -> Q -> Q.

Open Scope py_scope.

Definition projects_max_prod (ps : list (string * Raw.project))
  : outcome (list Q) :=
  mapM (fun np => getitem (Raw.profile (snd np)) 0) ps.

(** The bounds [years[min_year]] and [years[max_year]] of the operation
    period of one project. *)
Definition operation_period (lo hi : Z) (p : Raw.project) : outcome (Z * Z) :=
  iyear <- getitem (Raw.years p) lo ;;
  fyear <- getitem (Raw.years p) hi ;;
  Ret (iyear, fyear).

Definition project_total_prod (lo hi : Z) (p : Raw.project) : outcome Q :=
  '(iyear, fyear) <- operation_period lo hi p ;;
  Ret (quad (Raw.curve p) (inject_Z iyear) (inject_Z fyear)).

(** The totals written to each project, and the portfolio total [T]. *)
Definition projects_total_prod (lo hi : Z) (ps : list (string * Raw.project))
  : outcome (list Q * Q) :=
  totals <- mapM (fun np => project_total_prod lo hi (snd np)) ps ;;
  Ret (totals, fold_left Qplus totals 0%Q).

Definition project_effective_prod (lo hi : Z) (p : Raw.project)
  : outcome (list Q) :=
  '(iyear, fyear) <- operation_period lo hi p ;;
  Ret (map (fun y => Raw.curve p (inject_Z y)) (Np.arange iyear fyear)).

Definition projects_effective_prod (lo hi : Z) (ps : list (string * Raw.project))
  : outcome (list (list Q)) :=
  mapM (fun np => project_effective_prod lo hi (snd np)) ps.

(** The two orderings of the project names. *)
Definition projects_prod_diff (names : list string) (maxs : list Q) (gm : Q)
  : outcome (list string * list string) :=
  rel <- Np.take names (Np.argsort (map (fun m => Qabs (m - gm)) maxs)) ;;
  abs <- Np.take names (Np.argsort maxs) ;;
  Ret (rel, abs).

Fixpoint enrich (ps : list (string * Raw.project))
    (maxs totals : list Q) (effs : list (list Q)) : list (string * project) :=
  match ps, maxs, totals, effs with
  | (name, p) :: ps', m :: maxs', t :: totals', e :: effs' =>
      (name, mkproject p m t e) :: enrich ps' maxs' totals' effs'
  | _, _, _, _ => []
  end.

(** [Projects.__init__(period, projects, **kwargs)] *)
Definition Projects_init (period : Z) (ps : list (string * Raw.project))
    (kw : kwargs) : outcome Projects :=
  let names := map fst ps in
  let lo := get_default (kw_min_year kw) 0 in
  let hi := get_default (kw_max_year kw) (-1) in
  let first := get_default (kw_first_project kw) Mean in
  let next := get_default (kw_next_project kw) Mean in
  let iters := get_default (kw_initial_iters kw) 1000 in
  maxs <- projects_max_prod ps ;;
  '(totals, T) <- projects_total_prod lo hi ps ;;
  effs <- projects_effective_prod lo hi ps ;;
  gm <- (if period =? 0 then Raise ZeroDivisionError
         else Ret (T / inject_Z period)%Q) ;;
  '(rel, abs) <- projects_prod_diff names maxs gm ;;
  Ret (mkProjects period (enrich ps maxs totals effs) names lo hi
         first next iters maxs T gm rel abs).

End Metrics.

(* ================================================================== *)
(** ** The planner: attributes and the monad of its methods *)

(** The attributes [Projects_Planner.__init__] adds and never reassigns. *)
Record Projects_Planner := mkPlanner {
  super :> Projects;
  projects_length : nat;
  first_day : Z;
  first_year : Z
}.

(** The attributes the methods reassign, and the random source. *)
Record State := mkState {
  call : Z;
  used_projects : list string;
  projects_time_sequence : list (Mdates.date * string);
  active_projects : list string;
  projects_first_day : list Z;
  projects_sequence : option (list (Z * nat));
  rng : nat -> nat
}.

Definition initial_state (random : nat -> nat) : State :=
  mkState 0 [] [] [] [] None random.

Definition Projects_Planner_init (quad : (Q -> Q) -> Q -> Q -> Q)
    (first_day period : Z) (ps : list (string * Raw.project)) (kw : kwargs)
  : outcome Projects_Planner :=
  (base <- Projects_init quad period ps kw ;;
   date <- Mdates.num2date first_day ;;
   Ret (mkPlanner base (length ps) first_day (Mdates.year date)))%py.

Definition M (A : Type) : Type := State -> outcome A * State.

Definition ret {A} (a : A) : M A := fun s => (Ret a, s).

Definition raise {A} (e : exn) : M A := fun s => (Raise e, s).

Definition out_of_fuel {A} : M A := fun s => (OutOfFuel, s).

Definition bindM {A B} (m : M A) (k : A -> M B) : M B :=
  fun s =>
    match m s with
    | (Ret a, s') => k a s'
    | (Raise e, s') => (Raise e, s')
    | (OutOfFuel, s') => (OutOfFuel, s')
    end.

Definition lift {A} (o : outcome A) : M A := fun s => (o, s).

Definition gets {A} (f : State -> A) : M A := fun s => (Ret (f s), s).

Definition modify (f : State -> State) : M unit := fun s => (Ret tt, f s).

Declare Scope plan_scope.
Delimit Scope plan_scope with plan.
Notation "x <- m ;; k" := (bindM m (fun x => k))
  (at level 61, m at next level, right associativity) : plan_scope.
Notation "' pat <- m ;; k" := (bindM m (fun x => match x with pat => k end))
  (at level 61, pat pattern, m at next level, right associativity) : plan_scope.
Notation "m ;; k" := (bindM m (fun _ => k))
  (at level 61, right associativity) : plan_scope.

(** [for x in l: body(x)] with local variables [acc]. *)
Fixpoint for_each {A L} (l : list A) (body : A -> L -> M L) (acc : L) : M L :=
  match l with
  | [] => ret acc
  | x :: l' => bindM (body x acc) (for_each l' body)
  end.

(** [while not found: body], the body returning [found] and the locals. *)
Fixpoint while_not_found {L} (fuel : nat) (body : L -> M (bool * L)) (l : L)
  : M L :=
  match fuel with
  | O => out_of_fuel
  | S fuel' =>
      bindM (body l)
        (fun r => if fst r then ret (snd r) else while_not_found fuel' body (snd r))
  end.

(** [enumerate(l)] *)
Definition enumerate {A} (l : list A) : list (nat * A) :=
  combine (seq 0 (length l)) l.

(* State updates, one per reassigned attribute. *)

Definition set_call (v : Z) (s : State) : State :=
  mkState v (used_projects s) (projects_time_sequence s) (active_projects s)
    (projects_first_day s) (projects_sequence s) (rng s).

Definition set_used_projects (v : list string) (s : State) : State :=
  mkState (call s) v (projects_time_sequence s) (active_projects s)
    (projects_first_day s) (projects_sequence s) (rng s).

Definition set_projects_time_sequence (v : list (Mdates.date * string))
    (s : State) : State :=
  mkState (call s) (used_projects s) v (active_projects s)
    (projects_first_day s) (projects_sequence s) (rng s).

Definition set_active_projects (v : list string) (s : State) : State :=
  mkState (call s) (used_projects s) (projects_time_sequence s) v
    (projects_first_day s) (projects_sequence s) (rng s).

Definition set_projects_first_day (v : list Z) (s : State) : State :=
  mkState (call s) (used_projects s) (projects_time_sequence s)
    (active_projects s) v (projects_sequence s) (rng s).

Definition set_projects_sequence (v : list (Z * nat)) (s : State) : State :=
  mkState (call s) (used_projects s) (projects_time_sequence s)
    (active_projects s) (projects_first_day s) (Some v) (rng s).

Definition set_rng (v : nat -> nat) (s : State) : State :=
  mkState (call s) (used_projects s) (projects_time_sequence s)
    (active_projects s) (projects_first_day s) (projects_sequence s) v.

(** ** The random source *)

(** [np.random.choice(n)]: a value below [n], taken from the oracle. *)
Definition random_choice (n : nat) : M nat :=
  fun s =>
    match n with
    | O => (Raise ValueError, s)
    | _ => (Ret (rng s 0%nat mod n)%nat, set_rng (fun i => rng s (S i)) s)
    end.

Fixpoint remove_nth {A} (k : nat) (l : list A) : list A :=
  match l, k with
  | [], _ => []
  | _ :: l', O => l'
  | x :: l', S k' => x :: remove_nth k' l'
  end.

(** [random.sample(pool, k)]: [k] draws without replacement. *)
Fixpoint random_sample (k : nat) (pool : list nat) : M (list nat) :=
  match k with
  | O => ret []
  | S k' =>
      (j <- random_choice (length pool) ;;
       rest <- random_sample k' (remove_nth j pool) ;;
       ret (nth j pool 0%nat :: rest))%plan
  end.

Fixpoint insert_nat (x : nat) (l : list nat) : list nat :=
  match l with
  | [] => [x]
  | y :: l' => if (x <=? y)%nat then x :: l else y :: insert_nat x l'
  end.

(** The builtin [sorted] on positions. *)
Definition sorted (l : list nat) : list nat := fold_right insert_nat [] l.

(** [more_itertools.random_combination(range(n), r)] *)
Definition random_combination (n r : nat) : M (list nat) :=
  (picked <- random_sample r (seq 0 n) ;; ret (sorted picked))%plan.

(* ================================================================== *)
(** ** Projects_Planner: the execution lists *)

Section Planner.

Variable self : Projects_Planner.

Open Scope plan_scope.

(** [self.projects[name]] *)
Definition project_of (name : string) : M project :=
  lift (lookup (projects self) name).

Definition add_project_sequence (name : string) (day : Z) : M unit :=
  p <- project_of name ;;
  let exec_date_num := first_day self + day - drill p in
  exec_date <- lift (Mdates.num2date exec_date_num) ;;
  modify (fun s =>
    set_projects_time_sequence (projects_time_sequence s ++ [(exec_date, name)]) s).

(** One turn of the loop of [add_projects]. *)
Definition add_project (day : Z) (name : string) : M unit :=
  used <- gets used_projects ;;
  if Np.contains used name then raise AssertionError
  else
    add_project_sequence name day ;;
    modify (fun s => set_used_projects (used_projects s ++ [name]) s) ;;
    modify (fun s => set_active_projects (active_projects s ++ [name]) s) ;;
    modify (fun s => set_projects_first_day (projects_first_day s ++ [day]) s).

(** [add_projects(projects, first_day)]; a caller holding one name passes
    the one-element list the method would wrap it in. *)
Definition add_projects (names : list string) (day : Z) : M unit :=
  for_each names (fun name _ => add_project day name) tt.

Definition clear_projects : M unit :=
  modify (set_used_projects []) ;;
  modify (set_active_projects []) ;;
  modify (set_projects_first_day []).

Definition remove_projects (indxs : list Z) : M unit :=
  days <- gets projects_first_day ;;
  days' <- lift (Np.delete days indxs) ;;
  modify (set_projects_first_day days') ;;
  act <- gets active_projects ;;
  act' <- lift (Np.delete act indxs) ;;
  modify (set_active_projects act').

(** One turn of the loop of [update_simulatenous_projects]. *)
Definition update_step (day : Z) (pn : nat * string) (removed : list Z)
  : M (list Z) :=
  days <- gets projects_first_day ;;
  first <- lift (getitem days (Z.of_nat (fst pn))) ;;
  p <- project_of (snd pn) ;;
  if day - first =? Z.of_nat (length (effective p))
  then ret (removed ++ [Z.of_nat (fst pn)])
  else ret removed.

Definition update_simulatenous_projects (day : Z) : M unit :=
  act <- gets active_projects ;;
  removed <- for_each (enumerate act) (update_step day) [] ;;
  remove_projects removed.

(** One turn of the summing loop of [project_production]. *)
Definition production_step (day : Z) (pn : nat * string) (temp : Q) : M Q :=
  days <- gets projects_first_day ;;
  first <- lift (getitem days (Z.of_nat (fst pn))) ;;
  p <- project_of (snd pn) ;;
  v <- lift (getitem (effective p) (day - first)) ;;
  ret (temp + v)%Q.

Definition project_production (day : Z) : M Q :=
  update_simulatenous_projects day ;;
  act <- gets active_projects ;;
  for_each (enumerate act) (production_step day) 0%Q.

(* ---------------------------------------------------------------- *)
(** ** Candidate selection *)

(** One random combination and the sum of its peaks. *)
Definition draw_combination (acc : list (list nat) * list Q)
  : M (list (list nat) * list Q) :=
  random_length <- random_choice (projects_length self) ;;
  indxs <- random_combination (projects_length self) random_length ;;
  peaks <- lift (Np.take (max_project_prod self) indxs) ;;
  ret (fst acc ++ [indxs], snd acc ++ [Np.sum peaks]).

Definition first_mean_body (combs_ind : list (list nat)) (sort_indxs : list nat)
    (loc : Z * list string) : M (bool * (Z * list string)) :=
  let n := fst loc in
  i <- lift (getitem sort_indxs n) ;;
  projects_indxs <- lift (getitem combs_ind (Z.of_nat i)) ;;
  names <- lift (mapM (fun ind => getitem (projects_names self) (Z.of_nat ind))
                   projects_indxs) ;;
  spud_years <- lift (mapM (fun name =>
                   Py.bind (lookup (projects self) name) (fun p => Ret (spud p)))
                   names) ;;
  ret (forallb (fun y => y <? first_year self) spud_years, (n + 1, names)).

Definition first_minmax_body (max_project_prod_sort : list nat)
    (loc : Z * string) : M (bool * (Z * string)) :=
  let n := fst loc in
  ind <- lift (getitem max_project_prod_sort n) ;;
  name <- lift (getitem (order_projects_names_abs self) (Z.of_nat ind)) ;;
  p <- project_of name ;;
  ret (spud p <=? first_year self, (n - 1, name)).

Definition first_random_body (loc : string) : M (bool * string) :=
  n <- random_choice (projects_length self) ;;
  name <- lift (getitem (projects_names self) (Z.of_nat n)) ;;
  p <- project_of name ;;
  ret (spud p <? first_year self, name).

Definition search_first_project (fuel : nat) : M unit :=
  match first_project self with
  | Mean =>
      '(combs_ind, combs_sum) <-
         for_each (Py.range (initial_iters self))
           (fun _ => draw_combination) ([], []) ;;
      let combs_mean_diff :=
        map (fun s => Qabs (s - global_mean self)) combs_sum in
      let sort_indxs := Np.argsort combs_mean_diff in
      loc <- while_not_found fuel (first_mean_body combs_ind sort_indxs) (0, []) ;;
      add_projects (snd loc) 0
  | Minmax =>
      let max_project_prod_sort := Np.argsort (max_project_prod self) in
      loc <- while_not_found fuel (first_minmax_body max_project_prod_sort)
               (-1, EmptyString) ;;
      add_projects [snd loc] 0
  | Other =>
      name <- while_not_found fuel first_random_body EmptyString ;;
      add_projects [name] 0
  end.

(** [mdates.num2date(current_day - drill).date().year] *)
Definition spud_date_of (current_day : Z) (p : project) : M Z :=
  date <- lift (Mdates.num2date (current_day - drill p)) ;;
  ret (Mdates.year date).

Definition next_mean_body (current_day current_year : Z)
    (new_project_name_ord : list string) (loc : Z * string)
  : M (bool * (Z * string)) :=
  let n := fst loc in
  name <- lift (getitem new_project_name_ord n) ;;
  p <- project_of name ;;
  let spud_year := spud p in
  spud_date <- spud_date_of current_day p ;;
  ret ((spud_year <=? current_year) && (current_year <=? spud_date),
       (n + 1, name)).

(** The two loops of the ['minmax'] branch read [spud_year], a local name
    that only the ['mean'] branch assigns; [step] is the update of [n]. *)
Definition next_minmax_body (step : Z) (current_day current_year : Z)
    (new_project_name_ord : list string) (loc : Z * string)
  : M (bool * (Z * string)) :=
  let n := fst loc in
  name <- lift (getitem new_project_name_ord n) ;;
  p <- project_of name ;;
  spud_date <- spud_date_of current_day p ;;
  spud_year <- raise UnboundLocalError ;;
  ret ((spud_year <=? current_year) && (current_year <=? spud_date),
       (n + step, name)).

(** The loop of the last branch compares with [year], a name bound
    nowhere in the module. *)
Definition next_random_body (left_projects_name : list string) (loc : string)
  : M (bool * string) :=
  n <- random_choice (length left_projects_name) ;;
  name <- lift (getitem left_projects_name (Z.of_nat n)) ;;
  p <- project_of name ;;
  year <- raise NameError ;;
  ret (spud p <=? year, name).

Definition search_next_project (fuel : nat) (day : Z) (last_prod : Q) : M unit :=
  let current_day := first_day self + day in
  today <- lift (Mdates.num2date current_day) ;;
  let current_year := Mdates.year today in
  used <- gets used_projects ;;
  let left_projects_ind := map negb (Np.in1d (projects_names self) used) in
  let left_projects_name := Np.compress left_projects_ind (projects_names self) in
  match next_project self with
  | Mean =>
      let last_mean_diff := (last_prod - global_mean self)%Q in
      let last_prod_diffs :=
        map (fun m => (m + last_mean_diff)%Q) (max_project_prod self) in
      let new_project_prod := Np.compress left_projects_ind last_prod_diffs in
      let new_project_prod_ind := rev (Np.argsort new_project_prod) in
      new_project_name_ord <- lift (Np.take left_projects_name new_project_prod_ind) ;;
      loc <- while_not_found fuel
               (next_mean_body current_day current_year new_project_name_ord)
               (0, EmptyString) ;;
      add_projects [snd loc] day
  | Minmax =>
      modify (fun s => set_call (call s + 1) s) ;;
      let new_project_prod := Np.compress left_projects_ind (max_project_prod self) in
      let new_project_prod_ind := Np.argsort new_project_prod in
      new_project_name_ord <- lift (Np.take left_projects_name new_project_prod_ind) ;;
      c <- gets call ;;
      loc <- (if c mod 2 =? 0
              then while_not_found fuel
                     (next_minmax_body (-1) current_day current_year new_project_name_ord)
                     (-1, EmptyString)
              else while_not_found fuel
                     (next_minmax_body 1 current_day current_year new_project_name_ord)
                     (0, EmptyString)) ;;
      add_projects [snd loc] day
  | Other =>
      name <- while_not_found fuel (next_random_body left_projects_name)
                EmptyString ;;
      add_projects [name] day
  end.

(* ---------------------------------------------------------------- *)
(** ** The deterministic ordering *)

(** The projects of one drilling duration, in the order of [indxs_order]:
    [indxs_order[np.where(drill_order == dr)[0]]]. *)
Definition drill_group (indxs_order : list nat) (drill_order : list Z) (dr : Z)
  : outcome (list nat) :=
  Np.take indxs_order (Np.where_ (fun d => d =? dr) drill_order).

(** The innermost loops of the early sequence, for one value of [day]
    and one group [ind]. *)
Definition place_group (drills : list Z) (days_before day : Z) (ind : list nat)
    (acc : list (Z * nat)) : outcome (list (Z * nat)) :=
  (i0 <- getitem ind 0 ;;
   d0 <- getitem drills (Z.of_nat i0) ;;
   if days_before - day =? d0
   then Ret (acc ++ map (fun di =>
               (- (days_before - day - Z.of_nat (fst di)), snd di))
               (enumerate ind))
   else Ret acc)%py.

Fixpoint foldM {A L} (l : list A) (body : A -> L -> outcome L) (acc : L)
  : outcome L :=
  match l with
  | [] => Ret acc
  | x :: l' => Py.bind (body x acc) (foldM l' body)
  end.

(** [proj_sequence_before] *)
Definition sequence_before (spuds drills : list Z) (totals : list Q)
  : outcome (list (Z * nat)) :=
  (let indxs := seq 0 (projects_length self) in
   let before := Np.where_ (fun y => y <? first_year self) spuds in
   indxs_before <- Np.take indxs before ;;
   drill_before <- Np.take drills before ;;
   totals_before <- Np.take totals before ;;
   let order := rev (Np.argsort totals_before) in
   indxs_order <- Np.take indxs_before order ;;
   drill_order <- Np.take drill_before order ;;
   let unique_drills := Np.unique drill_order in
   days_before <- Py.max unique_drills ;;
   ind_sequence_before <-
     mapM (drill_group indxs_order drill_order) (rev (Np.sort unique_drills)) ;;
   foldM (Py.range days_before)
     (fun day => foldM ind_sequence_before (place_group drills days_before day))
     [])%py.

(** [proj_sequence_after] *)
Definition sequence_after (spuds drills : list Z) (totals : list Q)
  : outcome (list (Z * nat)) :=
  (let indxs := seq 0 (projects_length self) in
   let after := Np.where_ (fun y => y >=? first_year self) spuds in
   indxs_after <- Np.take indxs after ;;
   drill_after <- Np.take drills after ;;
   totals_after <- Np.take totals after ;;
   let new_order := rev (Np.argsort totals_after) in
   indxs_new_order <- Np.take indxs_after new_order ;;
   drill_new_order <- Np.take drill_after new_order ;;
   let unique_drills := Np.unique drill_new_order in
   let days_after := Z.of_nat (length drill_new_order) in
   groups <-
     mapM (drill_group indxs_new_order drill_new_order) (rev (Np.sort unique_drills)) ;;
   ind_sequence_after <- Np.hstack groups ;;
   r <- foldM (Py.range days_after)
          (fun day (acc : Z * list (Z * nat)) =>
             ii <- getitem ind_sequence_after (fst acc) ;;
             Ret (fst acc + 1, snd acc ++ [(day, ii)]))
          (0, []) ;;
   Ret (snd r))%py.

Definition ordering : outcome (list (Z * nat)) :=
  (let spuds := map (fun np => spud (snd np)) (projects self) in
   let drills := map (fun np => drill (snd np)) (projects self) in
   let totals := map (fun np => total (snd np)) (projects self) in
   proj_sequence_before <- sequence_before spuds drills totals ;;
   proj_sequence_after <- sequence_after spuds drills totals ;;
   Ret (proj_sequence_before ++ proj_sequence_after))%py.

Definition projects_ordering : M unit :=
  sequence <- lift ordering ;;
  modify (set_projects_sequence sequence).

(* ---------------------------------------------------------------- *)
(** ** The full run *)

(** [self.projects_sequence] *)
Definition read_projects_sequence : M (list (Z * nat)) :=
  o <- gets projects_sequence ;;
  match o with
  | Some sequence => ret sequence
  | None => raise AttributeError
  end.

(** The loop that starts the projects with a negative offset. *)
Definition start_early (entry : Z * nat) (n : Z) : M Z :=
  if fst entry <? 0 then
    name <- lift (getitem (projects_names self) (Z.of_nat (snd entry))) ;;
    add_projects [name] 0 ;;
    ret (n + 1)
  else ret n.

(** One simulated day of the main loop; the locals are [n] and
    [production]. *)
Definition simulate_day (day : Z) (loc : Z * list Q) : M (Z * list Q) :=
  n <- (if fst loc <? Z.of_nat (projects_length self) then
          sequence <- read_projects_sequence ;;
          entry <- lift (getitem sequence (fst loc)) ;;
          name <- lift (getitem (projects_names self) (Z.of_nat (snd entry))) ;;
          add_projects [name] day ;;
          ret (fst loc + 1)
        else ret (fst loc)) ;;
  P <- project_production day ;;
  ret (n, snd loc ++ [P]).

(** [__call__] *)
Definition Projects_Planner_call : M (list Q) :=
  projects_ordering ;;
  let execution := Np.arange 0 (period self) in
  sequence <- read_projects_sequence ;;
  n <- for_each sequence start_early 0 ;;
  P <- project_production 0 ;;
  loc <- for_each (tl execution) simulate_day (n, [P]) ;;
  ret (snd loc).

End Planner.

(* ================================================================== *)
(** * Vocabulary of the properties *)

(** [preserves P m]: the state [m] leaves satisfies [P] whenever the state
    it starts from does, whether [m] returns, raises or runs out of fuel. *)
Definition preserves {A} (P : State -> Prop) (m : M A) : Prop :=
  forall s, P s -> P (snd (m s)).

(** The entry [add_project_sequence] appends to the execution log. *)
Definition log_entry (self : Projects_Planner) (day : Z) (name : string)
    (p : project) : Mdates.date * string :=
  (Mdates.civil (first_day self + day - drill p), name).

(** The state after one successful turn of the loop of [add_projects]. *)
Definition added (self : Projects_Planner) (day : Z) (name : string)
    (p : project) (s : State) : State :=
  mkState (call s) (used_projects s ++ [name])
    (projects_time_sequence s ++ [log_entry self day name p])
    (active_projects s ++ [name]) (projects_first_day s ++ [day])
    (projects_sequence s) (rng s).

(** The state after the names [pre] were added one by one on [day]. *)
Fixpoint added_all (self : Projects_Planner) (day : Z) (pre : list string)
    (s : State) : State :=
  match pre with
  | [] => s
  | name :: pre' =>
      match lookup (projects self) name with
      | Ret p => added_all self day pre' (added self day name p s)
      | _ => s
      end
  end.

Definition in_catalog (self : Projects_Planner) (name : string) : Prop :=
  exists p, lookup (projects self) name = Ret p.

(** The execution date of the catalog project [name] added on [day],
    [first_day + day - drill], is a date of the calendar. *)
Definition dated (self : Projects_Planner) (day : Z) (name : string) : bool :=
  match lookup (projects self) name with
  | Ret p => Mdates.in_calendar (first_day self + day - drill p)
  | _ => false
  end.

(** The names of [pre] before the first one whose execution date is outside
    the calendar; all of [pre] when there is none. *)
Fixpoint before_undated (self : Projects_Planner) (day : Z) (pre : list string)
  : list string :=
  match pre with
  | [] => []
  | name :: pre' =>
      if dated self day name then name :: before_undated self day pre' else []
  end.

(* ================================================================== *)
(** * Concrete catalogs *)

Module Example.

(** An integrator to run the constructor on concrete catalogs: the
    trapezoid on the two end points. It vanishes on an interval of zero
    length, like any quadrature rule. *)
Definition trapz (f : Q -> Q) (a b : Q) : Q :=
  ((b - a) * (f a + f b) / 2)%Q.

(** A project whose curve is the constant [c]. *)
Definition flat (spud drill : Z) (profile : list Q) (years : list Z) (c : Q)
  : Raw.project :=
  Raw.mkproject spud drill profile years (fun _ => c).

(** 2000-01-01 as a date number. *)
Definition start : Z := Mdates.january_first 2000.

Definition no_planner : Projects_Planner :=
  mkPlanner (mkProjects 0 [] [] 0 0 Mean Mean 0 [] 0%Q 0%Q [] []) 0 0 0.

Definition built (o : outcome Projects_Planner) : Projects_Planner :=
  match o with Ret p => p | _ => no_planner end.

Definition zeros : nat -> nat := fun _ => 0%nat.

(** Two projects that may both start before 2000; A has the higher peak. *)
Definition both_early : list (string * Raw.project) :=
  [("A"%string, flat 1999 1 [10#1; 8#1]%Q [start; start + 4] (10#1));
   ("B"%string, flat 1999 1 [5#1; 4#1]%Q [start; start + 4] (5#1))].

(** The catalog of the ordering scenario: A drills 2 days and totals 100,
    B drills 1 day and totals 50, both with spud year 1998. *)
Definition ordering_scenario : list (string * Raw.project) :=
  [("A"%string, flat 1998 2 [25#1; 25#1]%Q [start; start + 4] (25#1));
   ("B"%string, flat 1998 1 [25#2; 25#2]%Q [start; start + 4] (25#2))].

(** No project may start by 2000. *)
Definition all_late : list (string * Raw.project) :=
  [("A"%string, flat 2005 1 [10#1; 8#1]%Q [start; start + 4] (10#1));
   ("B"%string, flat 2006 1 [5#1; 4#1]%Q [start; start + 4] (5#1))].

(** One early project and two late ones, with short curves. *)
Definition mixed : list (string * Raw.project) :=
  [("A"%string, flat 2000 2 [10#1; 8#1; 6#1; 4#1]%Q [start; start + 4] (10#1));
   ("B"%string, flat 2001 1 [5#1; 5#1; 5#1]%Q [start; start + 4] (5#1));
   ("C"%string, flat 1998 1 [7#1; 7#1]%Q [start; start + 2] (7#1))].

Definition policies (first next : policy) : kwargs :=
  mkkwargs None None (Some first) (Some next) None.

Definition planner (ps : list (string * Raw.project)) (period : Z) (kw : kwargs)
  : Projects_Planner :=
  built (Projects_Planner_init trapz start period ps kw).

End Example.

(** The used list holds no project twice. *)
Definition no_dup (s : State) : Prop := NoDup (used_projects s).

(** The active (project id, start day) pairs. *)
Definition active_pairs (s : State) : list (string * Z) :=
  combine (active_projects s) (projects_first_day s).

(** [len(self.projects[name]['effective'])] *)
Definition curve_length (self : Projects_Planner) (name : string) : Z :=
  match lookup (projects self) name with
  | Ret p => Z.of_nat (length (effective p))
  | _ => 0
  end.

(** The test of [update_simulatenous_projects] on one pair. *)
Definition exhausted (self : Projects_Planner) (day : Z) (ns : string * Z)
  : bool :=
  day - snd ns =? curve_length self (fst ns).

(** The two parallel lists have one start day per active project, and the
    active projects are projects of the catalog. *)
Definition consistent (self : Projects_Planner) (s : State) : Prop :=
  length (active_projects s) = length (projects_first_day s)
  /\ Forall (in_catalog self) (active_projects s).

(** Every active pair is within its curve on [day], its last day being
    the day it is due for removal. *)
Definition due (self : Projects_Planner) (day : Z) (s : State) : Prop :=
  consistent self s
  /\ Forall (fun ns => snd ns <= day <= snd ns + curve_length self (fst ns))
       (active_pairs s).

(** Every active pair has a sample for [day]. *)
Definition producing (self : Projects_Planner) (day : Z) (s : State) : Prop :=
  consistent self s
  /\ Forall (fun ns => snd ns <= day < snd ns + curve_length self (fst ns))
       (active_pairs s).

(** The states of the day-by-day simulation, with the day they belong to.
    As in [__call__], the simulation starts on day 0 with no active project;
    on each day projects are added with that day as their start day (by
    [add_projects] or by one of the search methods), then
    [project_production] closes the day. *)
Inductive reachable (self : Projects_Planner) : Z -> State -> Prop :=
| reach_start s :
    active_projects s = [] -> projects_first_day s = [] ->
    reachable self 0 s
| reach_ordering day s s' :
    reachable self day s ->
    projects_ordering self s = (Ret tt, s') ->
    reachable self day s'
| reach_add day s names s' :
    reachable self day s ->
    add_projects self names day s = (Ret tt, s') ->
    reachable self day s'
| reach_first fuel s s' :
    reachable self 0 s ->
    search_first_project self fuel s = (Ret tt, s') ->
    reachable self 0 s'
| reach_next fuel day last_prod s s' :
    reachable self day s ->
    search_next_project self fuel day last_prod s = (Ret tt, s') ->
    reachable self day s'
| reach_production day s P s' :
    reachable self day s ->
    project_production self day s = (Ret P, s') ->
    reachable self (day + 1) s'.

(** The state [update_simulatenous_projects] leaves: the pairs that are
    not exhausted, in their order. *)
Definition updated (self : Projects_Planner) (day : Z) (s : State) : State :=
  let kept := filter (fun ns => negb (exhausted self day ns)) (active_pairs s) in
  set_active_projects (map fst kept) (set_projects_first_day (map snd kept) s).

(** A run of the simulation on [Example.mixed]: C is started on day 0 and
    two days are simulated. *)
Module Trace.

Definition self : Projects_Planner := Example.planner Example.mixed 5 no_kwargs.

Definition day0 : State :=
  snd (add_projects self ["C"%string] 0 (initial_state Example.zeros)).

Definition day1 : State := snd (project_production self 0 day0).

Definition day2 : State := snd (project_production self 1 day1).

End Trace.

(** The whole of a run: the planner is built from the catalog, then
    called, with a fresh state. *)
Definition simulate (quad : (Q -> Q) -> Q -> Q -> Q) (first_day period : Z)
    (ps : list (string * Raw.project)) (kw : kwargs) (random : nat -> nat)
  : outcome (list Q) :=
  Py.bind (Projects_Planner_init quad first_day period ps kw)
    (fun self => fst (Projects_Planner_call self (initial_state random))).

(** The planners of the scenarios. *)
Module Scenario.

(** First-project policy ['minmax'] on two projects that may both start. *)
Definition minmax_first : Projects_Planner :=
  Example.planner Example.both_early 3 (Example.policies Minmax Mean).

(** The ordering scenario, with the default policies. *)
Definition ordering_ab : Projects_Planner :=
  Example.planner Example.ordering_scenario 3 no_kwargs.

(** Next-project policy other than ['mean'] and ['minmax']. *)
Definition random_next : Projects_Planner :=
  Example.planner Example.both_early 3 (Example.policies Mean Other).

(** No project may start: first-project policies ['minmax'] and random. *)
Definition late_minmax : Projects_Planner :=
  Example.planner Example.all_late 3 (Example.policies Minmax Mean).

Definition late_random : Projects_Planner :=
  Example.planner Example.all_late 3 (Example.policies Other Mean).

End Scenario.

(** What a computation without state may do: return a value in [Q] or
    raise an exception in [E]; it does not run out of fuel. *)
Definition yields {A} (E : exn -> Prop) (Q : A -> Prop) (o : outcome A) : Prop :=
  match o with
  | Ret a => Q a
  | Raise e => E e
  | OutOfFuel => False
  end.

(** The attributes of a planner agree as [__init__] sets them: the names
    are the keys of the catalog, there is one peak per project, and the
    sorted names are names of the catalog. *)
Definition well_formed (self : Projects_Planner) : Prop :=
  projects_names self = map fst (projects self)
  /\ length (max_project_prod self) = length (projects self)
  /\ projects_length self = length (projects self)
  /\ incl (order_projects_names_abs self) (projects_names self).

(** No project of the catalog passes the spud-year test of the first-project
    policies, in its weaker form [spud <= first_year]. *)
Definition none_may_start (self : Projects_Planner) : Prop :=
  Forall (fun np => first_year self < spud (snd np)) (projects self).

(** The test [spud_year <= current_year <= spud_date] of the ranked
    next-project policies, on dates of the calendar. *)
Definition within_drilling (current_day current_year spud_year : Z)
    (p : project) : bool :=
  let spud_date := Mdates.year (Mdates.civil (current_day - drill p)) in
  (spud_year <=? current_year) && (current_year <=? spud_date).

(** No unused project passes the test of the next-project policy ['mean']
    on [day]: each project is used, or its drilling date cannot be
    converted, or it fails the test. *)
Definition none_within_drilling (self : Projects_Planner) (day : Z) (s : State)
  : Prop :=
  let current_day := first_day self + day in
  let current_year := Mdates.year (Mdates.civil current_day) in
  Forall (fun np =>
            In (fst np) (used_projects s)
            \/ Mdates.in_calendar (current_day - drill (snd np)) = false
            \/ within_drilling current_day current_year (spud (snd np)) (snd np)
               = false)
    (projects self).

(** No project passes the spud-year test of the first-project policy
    ['mean'], [spud < first_year]. *)
Definition no_early_project (self : Projects_Planner) : Prop :=
  Forall (fun np => first_year self <= spud (snd np)) (projects self).

(** The day numbers the next-project search converts on [day] are dates of
    the calendar: the current day and, for every unused project, the
    current day less its drilling duration. *)
Definition search_dated (self : Projects_Planner) (day : Z) (s : State)
  : Prop :=
  Mdates.in_calendar (first_day self + day) = true
  /\ Forall (fun np =>
               In (fst np) (used_projects s)
               \/ Mdates.in_calendar (first_day self + day - drill (snd np))
                  = true)
       (projects self).

(** Two states that differ at most in the random source. *)
Definition same_lists (s0 s : State) : Prop :=
  call s = call s0
  /\ used_projects s = used_projects s0
  /\ projects_time_sequence s = projects_time_sequence s0
  /\ active_projects s = active_projects s0
  /\ projects_first_day s = projects_first_day s0
  /\ projects_sequence s = projects_sequence s0.

(** What a method may do from any state: return a value in [Q] or raise an
    exception in [E]. *)
Definition yieldsM {A} (E : exn -> Prop) (Q : A -> Prop) (m : M A) : Prop :=
  forall s, yields E Q (fst (m s)).

(** The exceptions the drawing of combinations can raise. *)
Definition index_or_value (e : exn) : Prop :=
  e = IndexError \/ e = ValueError.

(** What the loops of the early sequence append for one value of [day]
    and one group [ind]. *)
Definition placed (drills : list Z) (days_before day : Z) (ind : list nat)
  : list (Z * nat) :=
  match ind with
  | [] => []
  | i0 :: _ =>
      if days_before - day =? nth i0 drills 0
      then map (fun di => (- (days_before - day - Z.of_nat (fst di)), snd di))
             (enumerate ind)
      else []
  end.

(** The early projects, as positions of the catalog, and the drilling
    duration at a position. *)
Definition early_positions (self : Projects_Planner) (spuds : list Z) : list nat :=
  Np.where_ (fun y => y <? first_year self) spuds.

Definition drill_at (drills : list Z) (i : nat) : Z := nth i drills 0.

(** The groups of the early sequence: for each drilling duration, longest
    first, the projects of [indxs_order] with that duration. *)
Definition drill_groups (drills : list Z) (indxs_order : list nat)
  : list (list nat) :=
  map (fun dr => filter (fun i => drill_at drills i =? dr) indxs_order)
    (rev (Np.sort (Np.unique (map (drill_at drills) indxs_order)))).

(** [P] is kept by the methods that plan and simulate: from a state where
    [P] holds, each of them leaves a state where [P] holds, whether it
    returns or raises. *)
Definition kept_by_planning (self : Projects_Planner) (P : State -> Prop)
  : Prop :=
  (forall names day, preserves P (add_projects self names day))
  /\ preserves P clear_projects
  /\ (forall indxs, preserves P (remove_projects indxs))
  /\ (forall day, preserves P (update_simulatenous_projects self day))
  /\ (forall day, preserves P (project_production self day))
  /\ (forall fuel, preserves P (search_first_project self fuel))
  /\ (forall fuel day last_prod,
        preserves P (search_next_project self fuel day last_prod))
  /\ preserves P (projects_ordering self)
  /\ preserves P (Projects_Planner_call self).

(** [P] is kept by every method of the planner: by the methods that plan
    and simulate, and by [add_project_sequence] called on its own. *)
Definition kept_by_methods (self : Projects_Planner) (P : State -> Prop) : Prop :=
  (forall name day, preserves P (add_project_sequence self name day))
  /\ kept_by_planning self P.

(** Every used project is a key of the catalog. *)
Definition used_in_catalog (self : Projects_Planner) (s : State) : Prop :=
  Forall (in_catalog self) (used_projects s).

(** Every active project is a used project. *)
Definition active_are_used (s : State) : Prop :=
  incl (active_projects s) (used_projects s).

(** The names of the execution log end with the used list: the log keeps
    what [clear_projects] drops from the used list. *)
Definition log_ends_with_used (s : State) : Prop :=
  exists cleared,
    map snd (projects_time_sequence s) = cleared ++ used_projects s.

(** Every used project has an entry in the execution log. *)
Definition used_are_logged (s : State) : Prop :=
  incl (used_projects s) (map snd (projects_time_sequence s)).

(** A subscript [i] is valid for a list of [n] entries: [-n <= i < n]. *)
Definition valid_subscript (n : nat) (i : Z) : bool :=
  (- Z.of_nat n <=? i) && (i <? Z.of_nat n).

(** The position a valid subscript names. *)
Definition wrap (n : nat) (i : Z) : nat :=
  Z.to_nat (if i <? 0 then i + Z.of_nat n else i).

(** The entries of [l] whose position is not in [pos], in their order. *)
Definition without_positions {A} (pos : list nat) (l : list A) : list A :=
  map snd
    (filter (fun kp => negb (existsb (Nat.eqb (fst kp)) pos)) (enumerate l)).

(** [self.projects[name]['effective'][day - start]] for an active pair. *)
Definition sample (self : Projects_Planner) (day : Z) (ns : string * Z) : Q :=
  match lookup (projects self) (fst ns) with
  | Ret p => nth (Z.to_nat (day - snd ns)) (effective p) 0%Q
  | _ => 0%Q
  end.

(** The spud-year test of the first-project policy of the planner:
    [spud <= first_year] for ['minmax'], [spud < first_year] otherwise. *)
Definition may_start_first (self : Projects_Planner) (p : project) : Prop :=
  match first_project self with
  | Minmax => spud p <= first_year self
  | _ => spud p < first_year self
  end.

(** Further planners for the properties below. *)
Module Cases.

(** Next-project policy ['minmax'] on [Example.both_early]. *)
Definition minmax_next : Projects_Planner :=
  Example.planner Example.both_early 3 (Example.policies Mean Minmax).

(** An early project and two late ones, the default policies. *)
Definition mixed : Projects_Planner := Example.planner Example.mixed 5 no_kwargs.

End Cases.

(** The late projects, as positions of the catalog. *)
Definition late_positions (self : Projects_Planner) (spuds : list Z) : list nat :=
  Np.where_ (fun y => y >=? first_year self) spuds.

(** Project [i] is ranked before project [j] by the ordering: a longer
    drilling duration first and, for equal durations, the larger total
    first. *)
Definition ranked_before (drills : list Z) (totals : list Q) (i j : nat)
  : Prop :=
  drill_at drills i > drill_at drills j
  \/ (drill_at drills i = drill_at drills j
      /\ (nth j totals 0 <= nth i totals 0)%Q).

(** The arrays [projects_ordering] reads off the catalog. *)
Definition spuds_of (self : Projects_Planner) : list Z :=
  map (fun np => spud (snd np)) (projects self).

Definition drills_of (self : Projects_Planner) : list Z :=
  map (fun np => drill (snd np)) (projects self).

Definition totals_of (self : Projects_Planner) : list Q :=
  map (fun np => total (snd np)) (projects self).

(** The window [(lo, hi)] can be read on a project: its profile has a
    first value, and both subscripts are valid on its time axis. *)
Definition readable (lo hi : Z) (np : string * Raw.project) : bool :=
  negb (Nat.eqb (length (Raw.profile (snd np))) 0)
  && valid_subscript (length (Raw.years (snd np))) lo
  && valid_subscript (length (Raw.years (snd np))) hi.

(** The window the options select, with the defaults of [__init__]. *)
Definition window (kw : kwargs) : Z * Z :=
  (get_default (kw_min_year kw) 0, get_default (kw_max_year kw) (-1)).

(** What [Projects.__init__] writes into the dictionary of the project
    [np], read on the window [years[lo], years[hi]]: the catalog entry [q]
    keeps the name and the raw keys, ['max'] is the first value of the
    profile, ['total'] the integral of the curve over the window and
    ['effective'] the curve sampled at the unit steps of the window. *)
Definition enriched (quad : (Q -> Q) -> Q -> Q -> Q) (lo hi : Z)
    (np : string * Raw.project) (q : string * project) : Prop :=
  fst q = fst np
  /\ raw (snd q) = snd np
  /\ hd_error (Raw.profile (snd np)) = Some (max_prod (snd q))
  /\ exists iyear fyear,
       getitem (Raw.years (snd np)) lo = Ret iyear
       /\ getitem (Raw.years (snd np)) hi = Ret fyear
       /\ total (snd q)
          = quad (Raw.curve (snd np)) (inject_Z iyear) (inject_Z fyear)
       /\ length (effective (snd q)) = Z.to_nat (fyear - iyear)
       /\ forall k, (k < Z.to_nat (fyear - iyear))%nat ->
            nth k (effective (snd q)) 0%Q
            = Raw.curve (snd np) (inject_Z (iyear + Z.of_nat k)).

(** [order] lists every name of [names] once per position, by positions
    taken in ascending order of [key]. *)
Definition arranged_by (key : list Q) (names order : list string) : Prop :=
  exists idx,
    Permutation idx (seq 0 (length names))
    /\ StronglySorted (fun i j => (nth i key 0 <= nth j key 0)%Q) idx
    /\ order = map (fun i => nth i names EmptyString) idx.

(** [0 <= day - start < len] up to Python's negative subscripts: the
    subscript [day - start] is valid on the effective production of the
    project of the pair. *)
Definition in_curve (self : Projects_Planner) (day : Z) (ns : string * Z)
  : bool :=
  match lookup (projects self) (fst ns) with
  | Ret p => valid_subscript (length (effective p)) (day - snd ns)
  | _ => false
  end.

(** [effective[day - start]] as Python reads it: from the end of the curve
    when [day] is before the start day. *)
Definition read_curve (self : Projects_Planner) (day : Z) (ns : string * Z)
  : Q :=
  match lookup (projects self) (fst ns) with
  | Ret p =>
      nth (wrap (length (effective p)) (day - snd ns)) (effective p) 0%Q
  | _ => 0%Q
  end.

(** Dates that leave the calendar: B is to be drilled for 800000 days, so
    that its execution date on any day of a run from 2000 is before year 1. *)
Module Calendar.

Definition long_drill : list (string * Raw.project) :=
  [("A"%string,
    Example.flat 1999 1 [10#1; 8#1]%Q [Example.start; Example.start + 4] (10#1));
   ("B"%string,
    Example.flat 1999 800000 [5#1; 4#1]%Q [Example.start; Example.start + 4]
      (5#1));
   ("C"%string,
    Example.flat 1999 1 [7#1; 7#1]%Q [Example.start; Example.start + 2] (7#1))].

Definition planner : Projects_Planner :=
  Example.planner long_drill 5 no_kwargs.

End Calendar.

(* ================================================================== *)
(** * Reasoning about computations in [M] *)

Lemma bindM_ret_inv {A B} (m : M A) (k : A -> M B) s b s' :
  bindM m k s = (Ret b, s') ->
  exists a s1, m s = (Ret a, s1) /\ k a s1 = (Ret b, s').
Proof.
  unfold bindM. destruct (m s) as [[a| e |] s1]; intros H; try discriminate.
  exists a, s1. split; [reflexivity | exact H].
Qed.

Lemma bindM_ret {A B} (m : M A) (k : A -> M B) s a s1 :
  m s = (Ret a, s1) -> bindM m k s = k a s1.
Proof. unfold bindM. intros ->. reflexivity. Qed.

Lemma bindM_raise {A B} (m : M A) (k : A -> M B) s e s1 :
  m s = (Raise e, s1) -> bindM m k s = (Raise e, s1).
Proof. unfold bindM. intros ->. reflexivity. Qed.

Section Preservation.

Variable P : State -> Prop.

Lemma preserves_ret {A} (a : A) : preserves P (ret a).
Proof. intros s H. exact H. Qed.

Lemma preserves_raise {A} e : preserves P (@raise A e).
Proof. intros s H. exact H. Qed.

Lemma preserves_lift {A} (o : outcome A) : preserves P (lift o).
Proof. intros s H. exact H. Qed.

Lemma preserves_gets {A} (f : State -> A) : preserves P (gets f).
Proof. intros s H. exact H. Qed.

Lemma preserves_out_of_fuel {A} : preserves P (@out_of_fuel A).
Proof. intros s H. exact H. Qed.

Lemma preserves_modify f :
  (forall s, P s -> P (f s)) -> preserves P (modify f).
Proof. intros Hf s H. apply Hf, H. Qed.

Lemma preserves_bind {A B} (m : M A) (k : A -> M B) :
  preserves P m -> (forall a, preserves P (k a)) -> preserves P (bindM m k).
Proof.
  intros Hm Hk s H. unfold bindM.
  specialize (Hm s H). destruct (m s) as [[a| e |] s1]; simpl in *; auto.
  apply Hk, Hm.
Qed.

Lemma preserves_if {A} (b : bool) (m1 m2 : M A) :
  preserves P m1 -> preserves P m2 -> preserves P (if b then m1 else m2).
Proof. destruct b; auto. Qed.

Lemma preserves_for_each {A L} (l : list A) (body : A -> L -> M L) :
  (forall x acc, preserves P (body x acc)) ->
  forall acc, preserves P (for_each l body acc).
Proof.
  intros Hb. induction l as [| x l IH]; intros acc; simpl.
  - apply preserves_ret.
  - apply preserves_bind; auto.
Qed.

Lemma preserves_while {L} (body : L -> M (bool * L)) :
  (forall l, preserves P (body l)) ->
  forall fuel l, preserves P (while_not_found fuel body l).
Proof.
  intros Hb. induction fuel as [| fuel IH]; intros l; simpl.
  - apply preserves_out_of_fuel.
  - apply preserves_bind; auto.
    intros [found l']; simpl. destruct found; auto using preserves_ret.
Qed.

(** Drawing from the random source preserves a property that does not
    read the source. *)
Hypothesis P_rng : forall v s, P s -> P (set_rng v s).

Lemma preserves_random_choice n : preserves P (random_choice n).
Proof.
  intros s H. unfold random_choice. destruct n; simpl; auto.
Qed.

Lemma preserves_random_sample k :
  forall pool, preserves P (random_sample k pool).
Proof.
  induction k as [| k IH]; intros pool; simpl.
  - apply preserves_ret.
  - apply preserves_bind; [apply preserves_random_choice |].
    intros j. apply preserves_bind; [apply IH |].
    intros rest. apply preserves_ret.
Qed.

Lemma preserves_random_combination n r :
  preserves P (random_combination n r).
Proof.
  unfold random_combination.
  apply preserves_bind; [apply preserves_random_sample |].
  intros picked. apply preserves_ret.
Qed.

End Preservation.

Create HintDb preserve.

#[local] Hint Resolve preserves_ret preserves_raise preserves_lift
  preserves_gets preserves_out_of_fuel preserves_bind preserves_if
  preserves_for_each preserves_while preserves_random_choice
  preserves_random_sample preserves_random_combination : preserve.

(** Splits a goal [preserves P m] along the structure of [m]; what is left
    are the state updates and the calls of other methods. *)
Ltac preserve_step :=
  first
    [ apply preserves_ret | apply preserves_raise | apply preserves_lift
    | apply preserves_gets | apply preserves_out_of_fuel
    | apply preserves_random_choice
    | apply preserves_random_combination
    | apply preserves_bind; [| intros ?]
    | apply preserves_for_each; intros ? ?
    | apply preserves_while; intros ?
    | match goal with
      | |- preserves _ (if ?b then _ else _) => destruct b
      | |- preserves _ (match ?x with _ => _ end) => destruct x
      end ].

Ltac preserve := repeat preserve_step.

(** The same, trying [known] first: the lemmas on the methods called. *)
Ltac preserve_with known := repeat first [ known | preserve_step ].

(* ================================================================== *)
(** * The calendar *)

(** The first and the last day number [num2date] converts are the first
    day of year 1 and the last day of year 9999; day 0 is the epoch. *)
Lemma calendar_bounds :
  Mdates.num2date (-719162) = Ret (Mdates.mkdate 1 1 1)
  /\ Mdates.num2date 2932896 = Ret (Mdates.mkdate 9999 12 31)
  /\ Mdates.num2date (-719163) = Raise ValueError
  /\ Mdates.num2date 2932897 = Raise ValueError
  /\ Mdates.num2date 0 = Ret (Mdates.mkdate 1970 1 1).
Proof. vm_compute. repeat split. Qed.

(** A first day after year 9999 is refused by the constructor, in its last
    statement. *)
Lemma constructor_outside_calendar :
  Projects_Planner_init Example.trapz 2932897 5 Example.mixed no_kwargs
  = Raise ValueError.
Proof. vm_compute. reflexivity. Qed.

(** [add_projects] on three fresh catalog names, the second with an
    execution date before year 1: the call fails there with ValueError, and
    the first name stays added. *)
Lemma add_projects_outside_calendar :
  add_projects Calendar.planner ["A"; "B"; "C"]%string 0
    (initial_state Example.zeros)
  = (Raise ValueError,
     added_all Calendar.planner 0 ["A"%string] (initial_state Example.zeros))
  /\ before_undated Calendar.planner 0 ["A"; "B"; "C"]%string = ["A"%string].
Proof. vm_compute. split; reflexivity. Qed.

(* ================================================================== *)
(** * The execution lists *)

Lemma contains_In (a : list string) (x : string) :
  Np.contains a x = true <-> In x a.
Proof.
  unfold Np.contains. rewrite existsb_exists. split.
  - intros [y [Hy Heq]]. apply String.eqb_eq in Heq. subst. exact Hy.
  - intros H. exists x. split; [exact H | apply String.eqb_refl].
Qed.

Lemma contains_not_In (a : list string) (x : string) :
  Np.contains a x = false <-> ~ In x a.
Proof.
  rewrite <- contains_In. destruct (Np.contains a x); split; congruence.
Qed.

Lemma add_project_eq self day name s :
  add_project self day name s =
    if Np.contains (used_projects s) name then (Raise AssertionError, s)
    else match lookup (projects self) name with
         | Ret p =>
             if Mdates.in_calendar (first_day self + day - drill p)
             then (Ret tt, added self day name p s)
             else (Raise ValueError, s)
         | Raise e => (Raise e, s)
         | OutOfFuel => (OutOfFuel, s)
         end.
Proof.
  unfold add_project, add_project_sequence, project_of, bindM, gets, lift,
    modify, raise, Mdates.num2date. simpl.
  destruct (Np.contains (used_projects s) name); [reflexivity |].
  destruct (lookup (projects self) name) as [p | e |]; try reflexivity.
  destruct (Mdates.in_calendar (first_day self + day - drill p)); reflexivity.
Qed.

Lemma add_projects_nil self day s : add_projects self [] day s = (Ret tt, s).
Proof. reflexivity. Qed.

Lemma add_projects_cons self day name names s :
  add_projects self (name :: names) day s =
    match add_project self day name s with
    | (Ret _, s1) => add_projects self names day s1
    | (Raise e, s1) => (Raise e, s1)
    | (OutOfFuel, s1) => (OutOfFuel, s1)
    end.
Proof.
  unfold add_projects. simpl. unfold bindM.
  destruct (add_project self day name s) as [[[]| e |] s1]; reflexivity.
Qed.

(** ** C9: what [clear_projects] resets and what it leaves *)

(** C9. [clear_projects] always returns, and the state it leaves has the
    used set, the active collection and the recorded start days empty, while
    the execution log, the minmax call counter (and the planned sequence and
    the random source) are those of the state it started from. *)
Theorem clear_projects_frame (s : State) :
  clear_projects s =
    (Ret tt,
     mkState (call s) [] (projects_time_sequence s) [] []
       (projects_sequence s) (rng s))
  /\ used_projects (snd (clear_projects s)) = []
  /\ active_projects (snd (clear_projects s)) = []
  /\ projects_first_day (snd (clear_projects s)) = []
  /\ projects_time_sequence (snd (clear_projects s)) = projects_time_sequence s
  /\ call (snd (clear_projects s)) = call s.
Proof.
  repeat split.
Qed.

(** ** C10: [add_projects] stops at the first used project and keeps what
    it added before *)

Lemma used_added_all self day pre : forall s,
  Forall (in_catalog self) pre ->
  used_projects (added_all self day pre s) = used_projects s ++ pre
  /\ active_projects (added_all self day pre s) = active_projects s ++ pre
  /\ projects_first_day (added_all self day pre s) =
       projects_first_day s ++ repeat day (length pre)
  /\ length (projects_time_sequence (added_all self day pre s)) =
       (length (projects_time_sequence s) + length pre)%nat
  /\ map snd (projects_time_sequence (added_all self day pre s)) =
       map snd (projects_time_sequence s) ++ pre
  /\ (exists entries,
        projects_time_sequence (added_all self day pre s) =
          projects_time_sequence s ++ entries)
  /\ call (added_all self day pre s) = call s.
Proof.
  induction pre as [| name pre IH]; intros s Hcat; simpl.
  - rewrite !app_nil_r, Nat.add_0_r. repeat split; try reflexivity.
    exists []. rewrite app_nil_r. reflexivity.
  - inversion Hcat as [| ? ? [p Hp] Hcat']; subst. rewrite Hp.
    destruct (IH (added self day name p s) Hcat')
      as (Hu & Ha & Hd & Hl & Hn & [entries He] & Hc).
    rewrite Hu, Ha, Hd, Hl, Hn, He, Hc. simpl.
    rewrite <- !app_assoc, !length_app, !map_app. simpl.
    repeat split; try reflexivity; try lia.
    + rewrite <- app_assoc. reflexivity.
    + eexists. reflexivity.
Qed.

Lemma lookup_returns_or_raises {V} (d : list (string * V)) key :
  lookup d key <> OutOfFuel.
Proof.
  induction d as [| [k v] d IH]; simpl; [discriminate |].
  destruct (String.eqb k key); [discriminate | exact IH].
Qed.

Lemma before_undated_all self day pre :
  forallb (dated self day) pre = true -> before_undated self day pre = pre.
Proof.
  induction pre as [| name pre IH]; simpl; [reflexivity |].
  destruct (dated self day name); simpl; [| discriminate].
  intros H. rewrite (IH H). reflexivity.
Qed.

Lemma before_undated_Forall self day (P : string -> Prop) pre :
  Forall P pre -> Forall P (before_undated self day pre).
Proof.
  induction 1 as [| name pre Hn _ IH]; simpl; [constructor |].
  destruct (dated self day name); constructor; assumption.
Qed.

(** The names of a list that [add_projects] can add are added one by one,
    up to the first whose execution date is outside the calendar. *)
Lemma add_projects_prefix self day pre : forall l s,
  Forall (in_catalog self) pre ->
  NoDup pre ->
  (forall q, In q pre -> ~ In q (used_projects s)) ->
  add_projects self (pre ++ l) day s =
    if forallb (dated self day) pre
    then add_projects self l day (added_all self day pre s)
    else (Raise ValueError,
          added_all self day (before_undated self day pre) s).
Proof.
  induction pre as [| name pre IH]; intros l s Hcat Hnd Hfresh; [reflexivity |].
  inversion Hcat as [| ? ? [p Hp] Hcat']; subst.
  inversion Hnd as [| ? ? Hnotin Hnd']; subst.
  simpl app. rewrite add_projects_cons, add_project_eq.
  assert (Hc : Np.contains (used_projects s) name = false)
    by (apply contains_not_In, Hfresh; left; reflexivity).
  rewrite Hc, Hp. simpl forallb. simpl before_undated.
  unfold dated at 1 3. rewrite Hp.
  destruct (Mdates.in_calendar (first_day self + day - drill p));
    [| reflexivity].
  simpl added_all. rewrite Hp. simpl andb.
  apply IH; auto.
  intros q Hq. simpl. rewrite in_app_iff. intros [Hin | [Heq | []]].
  - apply (Hfresh q); [right; exact Hq | exact Hin].
  - subst. contradiction.
Qed.

(** C10. When the names before [p] in the list are catalog projects, all
    different and none of them used, and [p] is used by the time its turn
    comes, [add_projects] raises and leaves a changed state. When the
    execution dates of the names before [p] are dates of the calendar, it
    raises the assertion at [p], and the names before [p] have been appended
    to the used and active lists with their start day, and one log entry per
    name, in order, to the execution log. When one of them has its execution
    date outside the calendar, the call stops earlier, at the first such
    name, with ValueError, and what has been appended are the names before
    that one. *)
Theorem add_projects_not_atomic self day pre p rest s :
  Forall (in_catalog self) pre ->
  NoDup pre ->
  (forall q, In q pre -> ~ In q (used_projects s)) ->
  In p (used_projects s ++ pre) ->
  exists s',
    add_projects self (pre ++ p :: rest) day s
      = (Raise (if forallb (dated self day) pre
                then AssertionError else ValueError), s')
    /\ used_projects s' = used_projects s ++ before_undated self day pre
    /\ active_projects s' = active_projects s ++ before_undated self day pre
    /\ projects_first_day s' =
         projects_first_day s
         ++ repeat day (length (before_undated self day pre))
    /\ (exists entries,
          projects_time_sequence s' = projects_time_sequence s ++ entries
          /\ map snd entries = before_undated self day pre)
    /\ (forallb (dated self day) pre = true ->
        before_undated self day pre = pre).
Proof.
  intros Hcat Hnd Hfresh Hused.
  destruct (used_added_all self day (before_undated self day pre) s
              (before_undated_Forall self day _ pre Hcat))
    as (Hu & Ha & Hd & _ & Hn & [entries He] & _).
  exists (added_all self day (before_undated self day pre) s).
  split; [| split; [exact Hu | split; [exact Ha | split; [exact Hd | split]]]].
  - rewrite add_projects_prefix by assumption.
    destruct (forallb (dated self day) pre) eqn:Hdated; [| reflexivity].
    rewrite (before_undated_all self day pre Hdated) in *.
    rewrite add_projects_cons, add_project_eq.
    assert (Hc : Np.contains (used_projects (added_all self day pre s)) p = true)
      by (apply contains_In; rewrite Hu; exact Hused).
    rewrite Hc. reflexivity.
  - exists entries. split; [exact He |].
    rewrite He, map_app in Hn. eapply app_inv_head, Hn.
  - apply before_undated_all.
Qed.

(** A run of C10 on the catalog [Example.mixed]: adding [A; C; A; B] on day 0
    fails at the second A and keeps A and C. *)
Lemma add_projects_not_atomic_witness :
  exists s',
    add_projects (Example.planner Example.mixed 5 no_kwargs)
      (["A"%string; "C"%string] ++ "A"%string :: ["B"%string]) 0
      (initial_state Example.zeros)
      = (Raise AssertionError, s')
    /\ used_projects s' = [] ++ ["A"; "C"]%string
    /\ active_projects s' = [] ++ ["A"; "C"]%string
    /\ projects_first_day s' = [] ++ repeat 0 2
    /\ exists entries,
         projects_time_sequence s' = [] ++ entries
         /\ map snd entries = ["A"; "C"]%string.
Proof.
  destruct (add_projects_not_atomic (Example.planner Example.mixed 5 no_kwargs)
              0 ["A"; "C"]%string "A"%string ["B"%string]
              (initial_state Example.zeros))
    as (s' & Hraise & Hu & Ha & Hd & He & _).
  - repeat constructor; eexists; vm_compute; reflexivity.
  - repeat constructor; simpl; intuition discriminate.
  - simpl. intros q _ [].
  - simpl. left. reflexivity.
  - exists s'.
    split; [exact Hraise |]. split; [exact Hu |]. split; [exact Ha |].
    split; [exact Hd | exact He].
Defined.

(** ** C8: the used list never holds a project twice *)

Lemma no_dup_add_project self day name :
  preserves no_dup (add_project self day name).
Proof.
  intros s H. rewrite add_project_eq.
  destruct (Np.contains (used_projects s) name) eqn:Hc; [exact H |].
  destruct (lookup (projects self) name) as [p | e |]; try exact H.
  destruct (Mdates.in_calendar (first_day self + day - drill p)); [| exact H].
  unfold no_dup. simpl.
  apply contains_not_In in Hc.
  apply NoDup_app; [exact H | repeat constructor; simpl; tauto |].
  intros q Hq [Heq | []]. subst. contradiction.
Qed.

Lemma no_dup_add_projects self names day :
  preserves no_dup (add_projects self names day).
Proof.
  unfold add_projects. apply preserves_for_each.
  intros name []. apply no_dup_add_project.
Qed.

(** Finishes the goals [preserve] leaves for a property of the used list
    alone: the updates of the other attributes. *)
Ltac frame_used :=
  try (apply preserves_modify; intros ? ?);
  try (intros ? ? ?);
  try assumption;
  try (unfold no_dup in *; simpl; assumption).

Lemma add_projects_used_raises self names day : forall s p,
  In p names -> In p (used_projects s) ->
  is_raise (fst (add_projects self names day s)).
Proof.
  induction names as [| name names IH]; intros s p Hin Hused; [destruct Hin |].
  rewrite add_projects_cons, add_project_eq.
  destruct (Np.contains (used_projects s) name) eqn:Hc; [exact I |].
  destruct (lookup (projects self) name) as [q | e |] eqn:Hl; [| exact I |].
  - destruct (Mdates.in_calendar (first_day self + day - drill q));
      [| exact I].
    apply (IH _ p).
    + destruct Hin as [Heq | Hin]; [| exact Hin].
      subst. apply contains_not_In in Hc. contradiction.
    + simpl. apply in_or_app. left. exact Hused.
  - exfalso. exact (lookup_returns_or_raises _ _ Hl).
Qed.

Ltac no_dup_known :=
  first [ apply no_dup_add_projects | apply no_dup_add_project ].

Lemma no_dup_remove_projects indxs : preserves no_dup (remove_projects indxs).
Proof. unfold remove_projects. preserve; frame_used. Qed.

Lemma no_dup_update self day :
  preserves no_dup (update_simulatenous_projects self day).
Proof. preserve; frame_used. Qed.

Lemma no_dup_project_production self day :
  preserves no_dup (project_production self day).
Proof. preserve; frame_used. Qed.

Lemma no_dup_search_first_project self fuel :
  preserves no_dup (search_first_project self fuel).
Proof.
  unfold search_first_project.
  preserve_with no_dup_known; frame_used.
Qed.

Lemma no_dup_search_next_project self fuel day last_prod :
  preserves no_dup (search_next_project self fuel day last_prod).
Proof.
  unfold search_next_project.
  preserve_with no_dup_known; frame_used.
Qed.

Lemma no_dup_projects_ordering self : preserves no_dup (projects_ordering self).
Proof. preserve; frame_used. Qed.

Lemma no_dup_call self : preserves no_dup (Projects_Planner_call self).
Proof.
  unfold Projects_Planner_call, start_early, simulate_day.
  preserve_with no_dup_known; frame_used.
Qed.

(** C8. The used list never holds a project id twice. [add_projects] raises
    whenever one of the names it is given is already used; the used list of
    a fresh planner has no duplicate, and every method of the planner leaves
    a used list without duplicates when it starts from one, whether it
    returns or raises: a project is given a start day at most once. *)
Theorem used_projects_no_duplicates (self : Projects_Planner) :
  (forall names day s p,
      In p names -> In p (used_projects s) ->
      is_raise (fst (add_projects self names day s)))
  /\ (forall random, no_dup (initial_state random))
  /\ (forall names day, preserves no_dup (add_projects self names day))
  /\ preserves no_dup clear_projects
  /\ (forall indxs, preserves no_dup (remove_projects indxs))
  /\ (forall day, preserves no_dup (update_simulatenous_projects self day))
  /\ (forall day, preserves no_dup (project_production self day))
  /\ (forall fuel, preserves no_dup (search_first_project self fuel))
  /\ (forall fuel day last_prod,
        preserves no_dup (search_next_project self fuel day last_prod))
  /\ preserves no_dup (projects_ordering self)
  /\ preserves no_dup (Projects_Planner_call self).
Proof.
  split; [intros names day s p; apply add_projects_used_raises |].
  split; [intros random; constructor |].
  split; [intros; apply no_dup_add_projects |].
  split; [intros s _; constructor |].
  split; [apply no_dup_remove_projects |].
  split; [apply no_dup_update |].
  split; [apply no_dup_project_production |].
  split; [apply no_dup_search_first_project |].
  split; [apply no_dup_search_next_project |].
  split; [apply no_dup_projects_ordering | apply no_dup_call].
Qed.

(* ================================================================== *)
(** * The active list and its update *)

Lemma getitem_middle {A} (pre : list A) x rest :
  getitem (pre ++ x :: rest) (Z.of_nat (length pre)) = Ret x.
Proof.
  unfold getitem. rewrite length_app. simpl length.
  replace (Z.of_nat (length pre) <? 0) with false by (symmetry; apply Z.ltb_ge; lia).
  replace (0 <=? Z.of_nat (length pre)) with true by (symmetry; apply Z.leb_le; lia).
  replace (Z.of_nat (length pre) <? Z.of_nat (length pre + S (length rest)))
    with true by (symmetry; apply Z.ltb_lt; lia).
  simpl. rewrite Nat2Z.id, nth_error_app2 by lia.
  rewrite Nat.sub_diag. reflexivity.
Qed.

Lemma combine_snoc {A B} (l : list A) (l' : list B) x y :
  length l = length l' ->
  combine (l ++ [x]) (l' ++ [y]) = combine l l' ++ [(x, y)].
Proof.
  revert l'. induction l as [| a l IH]; intros [| b l'] H; simpl in *;
    try discriminate; [reflexivity |].
  rewrite IH by congruence. reflexivity.
Qed.

Lemma map_fst_combine {A B} (l : list A) (l' : list B) :
  length l = length l' -> map fst (combine l l') = l.
Proof.
  revert l'. induction l as [| a l IH]; intros [| b l'] H; simpl in *;
    try discriminate; [reflexivity |].
  rewrite IH by congruence. reflexivity.
Qed.

Lemma map_snd_combine {A B} (l : list A) (l' : list B) :
  length l = length l' -> map snd (combine l l') = l'.
Proof.
  revert l'. induction l as [| a l IH]; intros [| b l'] H; simpl in *;
    try discriminate; [reflexivity |].
  rewrite IH by congruence. reflexivity.
Qed.

Lemma combine_map_fst_snd {A B} (l : list (A * B)) :
  combine (map fst l) (map snd l) = l.
Proof.
  induction l as [| [a b] l IH]; simpl; [reflexivity |].
  rewrite IH. reflexivity.
Qed.

(** The positions [np.where] reports start at the offset and stay within
    the array. *)
Lemma where_from_bounds {A} (c : A -> bool) (a : list A) : forall i,
  Forall (fun p => i <= p < i + length a)%nat (Np.where_from c i a).
Proof.
  induction a as [| x a IH]; intros i; simpl; [constructor |].
  assert (H : Forall (fun p => i <= p < i + S (length a))%nat
                (Np.where_from c (S i) a)).
  { eapply Forall_impl; [| apply IH]. simpl. intros p Hp. lia. }
  destruct (c x); [constructor; [lia | exact H] | exact H].
Qed.

Lemma existsb_eqb_above i idx :
  Forall (fun p => i < p)%nat idx -> existsb (Nat.eqb i) idx = false.
Proof.
  induction 1 as [| p idx Hp _ IH]; simpl; [reflexivity |].
  rewrite IH. replace (i =? p)%nat with false; [reflexivity |].
  symmetry. apply Nat.eqb_neq. lia.
Qed.

Lemma drop_at_below {A} (a : list A) : forall j idx i,
  (j < i)%nat -> Np.drop_at (j :: idx) i a = Np.drop_at idx i a.
Proof.
  induction a as [| x a IH]; intros j idx i Hj; simpl; [reflexivity |].
  replace (i =? j)%nat with false by (symmetry; apply Nat.eqb_neq; lia).
  simpl. rewrite IH by lia. reflexivity.
Qed.

(** Deleting the positions where [c] holds keeps, in order, the entries
    where it does not. *)
Lemma drop_at_where {A B} (c : A -> bool) (g : A -> B) (a : list A) : forall i,
  Np.drop_at (Np.where_from c i a) i (map g a) =
    map g (filter (fun x => negb (c x)) a).
Proof.
  induction a as [| x a IH]; intros i; simpl; [reflexivity |].
  destruct (c x) eqn:Hc; simpl.
  - rewrite Nat.eqb_refl. simpl. rewrite drop_at_below by lia. apply IH.
  - rewrite existsb_eqb_above.
    + rewrite IH. reflexivity.
    + eapply Forall_impl; [| apply where_from_bounds]. simpl. intros p Hp. lia.
Qed.

Lemma mapM_normalize n idx :
  Forall (fun p => p < n)%nat idx ->
  mapM (Np.normalize n) (map Z.of_nat idx) = Ret idx.
Proof.
  induction 1 as [| p idx Hp _ IH]; simpl; [reflexivity |].
  rewrite IH. unfold Np.normalize.
  replace (Z.of_nat p <? 0) with false by (symmetry; apply Z.ltb_ge; lia).
  replace (0 <=? Z.of_nat p) with true by (symmetry; apply Z.leb_le; lia).
  replace (Z.of_nat p <? Z.of_nat n) with true by (symmetry; apply Z.ltb_lt; lia).
  simpl. rewrite Nat2Z.id. reflexivity.
Qed.

(** [np.delete] at the positions [np.where] reports. *)
Lemma delete_where {A B} (c : A -> bool) (g : A -> B) (a : list A) :
  Np.delete (map g a) (map Z.of_nat (Np.where_ c a)) =
    Ret (map g (filter (fun x => negb (c x)) a)).
Proof.
  unfold Np.delete, Np.where_. rewrite mapM_normalize.
  - simpl. rewrite drop_at_where. reflexivity.
  - eapply Forall_impl; [| apply where_from_bounds].
    simpl. intros p Hp. rewrite length_map. lia.
Qed.

Lemma exhausted_eq (self : Projects_Planner) day name d p :
  lookup (projects self) name = Ret p ->
  exhausted self day (name, d) = (day - d =? Z.of_nat (length (effective p))).
Proof. unfold exhausted, curve_length. simpl. intros ->. reflexivity. Qed.

(** The loop of [update_simulatenous_projects] collects the positions of
    the exhausted pairs and leaves the state alone. *)
Lemma update_loop self day s : forall acts fs pre_f removed,
  projects_first_day s = pre_f ++ fs ->
  length acts = length fs ->
  Forall (in_catalog self) acts ->
  for_each (combine (seq (length pre_f) (length acts)) acts)
    (update_step self day) removed s =
  (Ret (removed ++
        map Z.of_nat
          (Np.where_from (exhausted self day) (length pre_f) (combine acts fs))),
   s).
Proof.
  induction acts as [| a acts IH]; intros fs pre_f removed Hf Hlen Hcat.
  - simpl. rewrite app_nil_r. reflexivity.
  - destruct fs as [| d fs]; [discriminate |].
    inversion Hcat as [| ? ? [p Hp] Hcat']; subst.
    simpl combine. simpl for_each.
    assert (Hstep : update_step self day (length pre_f, a) removed s =
              (Ret (if exhausted self day (a, d)
                    then removed ++ [Z.of_nat (length pre_f)] else removed), s)).
    { unfold update_step, bindM, gets, lift, project_of. simpl.
      rewrite Hf, getitem_middle, Hp, (exhausted_eq _ _ _ _ _ Hp).
      destruct (day - d =? Z.of_nat (length (effective p))); reflexivity. }
    rewrite (bindM_ret _ _ _ _ _ Hstep).
    replace (S (length pre_f)) with (length (pre_f ++ [d]))
      by (rewrite length_app; simpl; lia).
    rewrite (IH fs (pre_f ++ [d])).
    + simpl Np.where_from.
      replace (length (pre_f ++ [d])) with (S (length pre_f))
        by (rewrite length_app; simpl; lia).
      destruct (exhausted self day (a, d)); simpl; [| reflexivity].
      rewrite <- app_assoc. reflexivity.
    + rewrite <- app_assoc. exact Hf.
    + simpl in Hlen. congruence.
    + exact Hcat'.
Qed.

Lemma update_eq self day s :
  consistent self s ->
  update_simulatenous_projects self day s = (Ret tt, updated self day s).
Proof.
  intros [Hlen Hcat].
  unfold update_simulatenous_projects, enumerate.
  unfold bindM at 1. unfold gets at 1.
  rewrite (bindM_ret _ _ _ _ _
             (update_loop self day s (active_projects s) (projects_first_day s)
                [] [] eq_refl Hlen Hcat)).
  simpl app. change (length (@nil Z)) with 0%nat.
  fold (active_pairs s). fold (Np.where_ (exhausted self day) (active_pairs s)).
  unfold remove_projects, bindM, gets, lift, modify. simpl.
  rewrite <- (map_snd_combine (active_projects s) (projects_first_day s) Hlen)
    at 1.
  fold (active_pairs s). rewrite delete_where. simpl.
  rewrite <- (map_fst_combine (active_projects s) (projects_first_day s) Hlen)
    at 1.
  fold (active_pairs s). rewrite delete_where. reflexivity.
Qed.

Lemma active_pairs_updated self day s :
  active_pairs (updated self day s) =
    filter (fun ns => negb (exhausted self day ns)) (active_pairs s).
Proof.
  unfold updated, active_pairs at 1. simpl. apply combine_map_fst_snd.
Qed.

(** ** The pairs stay within their curves *)

Lemma due_add_project self day name :
  preserves (due self day) (add_project self day name).
Proof.
  intros s H. rewrite add_project_eq.
  destruct (Np.contains (used_projects s) name); [exact H |].
  destruct (lookup (projects self) name) as [p | e |] eqn:Hp; try exact H.
  destruct (Mdates.in_calendar (first_day self + day - drill p)); [| exact H].
  destruct H as [[Hlen Hcat] Hdue].
  unfold due, consistent, active_pairs. simpl.
  rewrite !length_app, combine_snoc by exact Hlen. simpl.
  repeat split.
  - lia.
  - apply Forall_app. split; [exact Hcat |].
    constructor; [exists p; exact Hp | constructor].
  - apply Forall_app. split; [exact Hdue |].
    constructor; [| constructor]. simpl.
    unfold curve_length. rewrite Hp. lia.
Qed.

Lemma due_add_projects self names day :
  preserves (due self day) (add_projects self names day).
Proof.
  unfold add_projects. apply preserves_for_each.
  intros name []. apply due_add_project.
Qed.

Ltac due_known :=
  first [ apply due_add_projects | apply due_add_project ].

(** Finishes the goals [preserve] leaves for a property of the active
    lists alone. *)
Ltac frame_active :=
  try (apply preserves_modify; intros ? ?);
  try (intros ? ? ?);
  try assumption;
  try (unfold due, producing, consistent, active_pairs in *; simpl; assumption).

Lemma due_projects_ordering self day :
  preserves (due self day) (projects_ordering self).
Proof. preserve; frame_active. Qed.

Lemma due_search_first_project self fuel :
  preserves (due self 0) (search_first_project self fuel).
Proof.
  unfold search_first_project. preserve_with due_known; frame_active.
Qed.

Lemma due_search_next_project self fuel day last_prod :
  preserves (due self day) (search_next_project self fuel day last_prod).
Proof.
  unfold search_next_project. preserve_with due_known; frame_active.
Qed.

Lemma producing_updated self day s :
  due self day s -> producing self day (updated self day s).
Proof.
  intros [[Hlen Hcat] Hdue]. split; [split |].
  - unfold updated. simpl. rewrite !length_map. reflexivity.
  - unfold updated. simpl. apply Forall_forall. intros name Hin.
    apply in_map_iff in Hin. destruct Hin as [[n d] [Heq Hin]].
    simpl in Heq. subst. apply filter_In in Hin. destruct Hin as [Hin _].
    apply in_combine_l in Hin.
    rewrite Forall_forall in Hcat. apply Hcat, Hin.
  - rewrite active_pairs_updated. apply Forall_forall. intros ns Hin.
    apply filter_In in Hin. destruct Hin as [Hin Hkeep].
    rewrite Forall_forall in Hdue. specialize (Hdue ns Hin).
    unfold exhausted in Hkeep. apply negb_true_iff, Z.eqb_neq in Hkeep. lia.
Qed.

Lemma due_next_day self day s :
  producing self day s -> due self (day + 1) s.
Proof.
  intros [Hc Hp]. split; [exact Hc |].
  eapply Forall_impl; [| exact Hp]. simpl. intros ns H. lia.
Qed.

(** The summing loop of [project_production] only reads the state. *)
Lemma production_loop_frame (P : State -> Prop) self day l acc :
  preserves P (for_each l (production_step self day) acc).
Proof. preserve. Qed.

Lemma project_production_state self day s P s' :
  consistent self s ->
  project_production self day s = (Ret P, s') ->
  s' = updated self day s.
Proof.
  intros Hc H. unfold project_production in H.
  rewrite (bindM_ret _ _ _ _ _ (update_eq self day s Hc)) in H.
  unfold bindM at 1 in H. unfold gets at 1 in H.
  pose proof (production_loop_frame (fun x => x = updated self day s) self day
                (enumerate (active_projects (updated self day s))) 0%Q
                (updated self day s) eq_refl) as Hs.
  rewrite H in Hs. exact Hs.
Qed.

(** Every state of the simulation has its active pairs within their
    curves on the day the state belongs to. *)
Lemma reachable_due self day s : reachable self day s -> due self day s.
Proof.
  induction 1 as [s Ha Hf | day s s' _ IH H | day s names s' _ IH H
                 | fuel s s' _ IH H | fuel day last_prod s s' _ IH H
                 | day s P s' _ IH H].
  - unfold due, consistent, active_pairs. rewrite Ha, Hf.
    repeat split; constructor.
  - pose proof (due_projects_ordering self day s IH) as R.
    rewrite H in R. exact R.
  - pose proof (due_add_projects self names day s IH) as R.
    rewrite H in R. exact R.
  - pose proof (due_search_first_project self fuel s IH) as R.
    rewrite H in R. exact R.
  - pose proof (due_search_next_project self fuel day last_prod s IH) as R.
    rewrite H in R. exact R.
  - rewrite (project_production_state self day s P s' (proj1 IH) H).
    apply due_next_day, producing_updated, IH.
Qed.

(** C3. In every state of the day-by-day simulation the update step of the
    current day returns, and it removes exactly the active pairs with
    [day - start_day == len(effective_production[id])]: the pairs it leaves
    are the others, in their order. No pair is removed on an earlier day,
    since every pair present satisfies [day <= start_day + len] and only
    those at equality go; none is present on a later day, since the pairs
    left satisfy [day < start_day + len]. *)
Theorem update_removes_exactly_the_exhausted self day s :
  reachable self day s ->
  exists s',
    update_simulatenous_projects self day s = (Ret tt, s')
    /\ active_pairs s' =
         filter (fun ns => negb (day - snd ns =? curve_length self (fst ns)))
           (active_pairs s)
    /\ Forall (fun ns => snd ns <= day <= snd ns + curve_length self (fst ns))
         (active_pairs s)
    /\ Forall (fun ns => snd ns <= day < snd ns + curve_length self (fst ns))
         (active_pairs s').
Proof.
  intros Hr. pose proof (reachable_due self day s Hr) as Hdue.
  exists (updated self day s). split; [apply update_eq, Hdue |].
  split; [apply active_pairs_updated |].
  split; [apply Hdue | apply (producing_updated self day s Hdue)].
Qed.

(** C3 on the run [Trace]: C, started on day 0 with a curve of two samples,
    is still active when day 2 begins and is removed by the update of day 2. *)
Lemma update_removes_exactly_the_exhausted_witness :
  exists s',
    update_simulatenous_projects Trace.self (0 + 1 + 1) Trace.day2 = (Ret tt, s')
    /\ active_pairs s' =
         filter (fun ns =>
                   negb (0 + 1 + 1 - snd ns =? curve_length Trace.self (fst ns)))
           (active_pairs Trace.day2)
    /\ Forall (fun ns =>
                 snd ns <= 0 + 1 + 1 <= snd ns + curve_length Trace.self (fst ns))
         (active_pairs Trace.day2)
    /\ Forall (fun ns =>
                 snd ns <= 0 + 1 + 1 < snd ns + curve_length Trace.self (fst ns))
         (active_pairs s').
Proof.
  apply (update_removes_exactly_the_exhausted Trace.self (0 + 1 + 1) Trace.day2).
  apply (reach_production Trace.self (0 + 1) Trace.day1 (7 # 1)%Q);
    [| vm_compute; reflexivity].
  apply (reach_production Trace.self 0 Trace.day0 (7 # 1)%Q);
    [| vm_compute; reflexivity].
  apply (reach_add Trace.self 0 (initial_state Example.zeros) ["C"%string]);
    [| vm_compute; reflexivity].
  apply reach_start; reflexivity.
Defined.

(* ================================================================== *)
(** * The full run *)

Lemma bind_ret_inv {A B} (m : outcome A) (k : A -> outcome B) b :
  Py.bind m k = Ret b -> exists a, m = Ret a /\ k a = Ret b.
Proof.
  destruct m as [a | e |]; simpl; intros H; try discriminate.
  exists a. split; [reflexivity | exact H].
Qed.

Lemma arange_length lo hi : length (Np.arange lo hi) = Z.to_nat (hi - lo).
Proof. unfold Np.arange. rewrite length_map, length_seq. reflexivity. Qed.

(** The main loop appends one total per simulated day. *)
Lemma simulate_days_length self days : forall n production s loc s',
  for_each days (simulate_day self) (n, production) s = (Ret loc, s') ->
  length (snd loc) = (length production + length days)%nat.
Proof.
  induction days as [| day days IH]; intros n production s loc s' H.
  - simpl in H. inversion H. simpl. lia.
  - simpl in H. apply bindM_ret_inv in H.
    destruct H as ([n1 production1] & s1 & Hday & Hrest).
    apply IH in Hrest. rewrite Hrest. simpl.
    unfold simulate_day in Hday.
    apply bindM_ret_inv in Hday. destruct Hday as (n2 & s2 & _ & Hday).
    apply bindM_ret_inv in Hday. destruct Hday as (P & s3 & _ & Hday).
    inversion Hday. subst. rewrite length_app. simpl. lia.
Qed.

(** [__call__] returns the total of day 0 and one total for each of the
    days [execution[1:]]. *)
Lemma call_length self s out s' :
  Projects_Planner_call self s = (Ret out, s') ->
  length out = S (length (tl (Np.arange 0 (period self)))).
Proof.
  intros H. unfold Projects_Planner_call in H.
  apply bindM_ret_inv in H. destruct H as (? & s1 & _ & H).
  apply bindM_ret_inv in H. destruct H as (sequence & s2 & _ & H).
  apply bindM_ret_inv in H. destruct H as (n & s3 & _ & H).
  apply bindM_ret_inv in H. destruct H as (P & s4 & _ & H).
  apply bindM_ret_inv in H. destruct H as (loc & s5 & Hloop & H).
  inversion H. subst. apply simulate_days_length in Hloop.
  rewrite Hloop. simpl. reflexivity.
Qed.

(** The planner the constructor returns: the metrics of [Projects], and the
    year of a first day that is a date of the calendar. *)
Lemma Projects_Planner_init_inv quad start days ps kw self :
  Projects_Planner_init quad start days ps kw = Ret self ->
  exists base,
    Projects_init quad days ps kw = Ret base
    /\ Mdates.in_calendar start = true
    /\ self = mkPlanner base (length ps) start
                (Mdates.year (Mdates.civil start)).
Proof.
  unfold Projects_Planner_init. intros H.
  apply bind_ret_inv in H. destruct H as (base & Hbase & H).
  unfold Mdates.num2date in H.
  destruct (Mdates.in_calendar start); [| discriminate].
  simpl in H. inversion H. exists base. auto.
Qed.

(** The constructor divides by the period: there is no planner of period 0,
    and the planner keeps the period it is given. *)
Lemma init_period quad first_day days ps kw self :
  Projects_Planner_init quad first_day days ps kw = Ret self ->
  period self = days /\ days <> 0.
Proof.
  intros H. apply Projects_Planner_init_inv in H.
  destruct H as (base & Hbase & _ & ->). simpl.
  unfold Projects_init in Hbase.
  apply bind_ret_inv in Hbase. destruct Hbase as (maxs & _ & Hbase).
  apply bind_ret_inv in Hbase. destruct Hbase as ([totals T] & _ & Hbase).
  apply bind_ret_inv in Hbase. destruct Hbase as (effs & _ & Hbase).
  apply bind_ret_inv in Hbase. destruct Hbase as (gm & Hgm & Hbase).
  apply bind_ret_inv in Hbase. destruct Hbase as ([rel abs] & _ & Hbase).
  inversion Hbase. subst. simpl. split; [reflexivity |].
  intros ->. simpl in Hgm. discriminate.
Qed.

(** Whatever the period, a run that completes returns the total of day 0
    and one total for each of the days [1 .. period - 1]. *)
Lemma simulate_length quad first_day days ps kw random out :
  simulate quad first_day days ps kw random = Ret out ->
  Z.of_nat (length out) = Z.max 1 days /\ days <> 0.
Proof.
  unfold simulate. intros H.
  apply bind_ret_inv in H. destruct H as (self & Hinit & H).
  apply init_period in Hinit. destruct Hinit as [Hp Hnz].
  destruct (Projects_Planner_call self (initial_state random)) as [o s'] eqn:Hc.
  simpl in H. subst o. apply call_length in Hc.
  rewrite Hc, Hp. split; [| exact Hnz].
  destruct (Np.arange 0 days) as [| d l] eqn:Ha;
    pose proof (arange_length 0 days) as Hl; rewrite Ha in Hl; simpl in *; lia.
Qed.

(** C6, as the code has it. Every run that completes without error returns
    the total of day 0 followed by one total for each day of
    [execution[1:]]: the length of the output is [max(1, period)]. It is the
    period when the period is positive; a run with a negative period
    completes with the total of day 0 alone; no run completes for period 0,
    since the constructor divides by it. *)
Theorem output_length_of_a_run quad first_day days ps kw random out :
  simulate quad first_day days ps kw random = Ret out ->
  Z.of_nat (length out) = Z.max 1 days
  /\ days <> 0
  /\ (0 < days -> Z.of_nat (length out) = days)
  /\ (days < 0 -> length out = 1%nat).
Proof.
  intros H. apply simulate_length in H. lia.
Qed.

(** C6 on the catalog [Example.mixed], simulated for 5 days. *)
Lemma output_length_of_a_run_witness :
  Z.of_nat (length [7 # 1; 17 # 1; 15 # 1; 15 # 1; 15 # 1]%Q) = Z.max 1 5
  /\ 5 <> 0
  /\ (0 < 5 -> Z.of_nat (length [7 # 1; 17 # 1; 15 # 1; 15 # 1; 15 # 1]%Q) = 5)
  /\ (5 < 0 -> length [7 # 1; 17 # 1; 15 # 1; 15 # 1; 15 # 1]%Q = 1%nat).
Proof.
  apply (output_length_of_a_run Example.trapz Example.start 5 Example.mixed
           no_kwargs Example.zeros).
  vm_compute. reflexivity.
Defined.

(** The claim of C6 as the specification words it fails for a negative
    period: on [Example.mixed] with period -2 the run completes, and the
    output holds one total, not -2. *)
Lemma negative_period_counterexample :
  simulate Example.trapz Example.start (-2) Example.mixed no_kwargs
    Example.zeros = Ret [7 # 1]%Q
  /\ Z.of_nat (length [7 # 1]%Q) <> -2.
Proof.
  split; [vm_compute; reflexivity | discriminate].
Qed.

(* ================================================================== *)
(** * Total production over a collapsed window *)

Lemma project_total_prod_collapsed quad i p y :
  getitem (Raw.years p) i = Ret y ->
  project_total_prod quad i i p =
    Ret (quad (Raw.curve p) (inject_Z y) (inject_Z y)).
Proof.
  intros H. unfold project_total_prod, operation_period.
  rewrite H. reflexivity.
Qed.

(** C5, as the code has it. When the operation window collapses to one
    valid index ([min_year == max_year]), [projects_total_prod] does not
    fail: it returns, and the total it writes to each project is what the
    integrator gives over the interval of zero length at that year; the
    portfolio total is their sum. The module raises no numerical error of
    its own. *)
Theorem total_prod_collapsed_window quad i ps :
  Forall (fun np => exists y, getitem (Raw.years (snd np)) i = Ret y) ps ->
  exists totals,
    projects_total_prod quad i i ps = Ret (totals, fold_left Qplus totals 0%Q)
    /\ Forall2 (fun np t =>
                  exists y, getitem (Raw.years (snd np)) i = Ret y
                            /\ t = quad (Raw.curve (snd np)) (inject_Z y) (inject_Z y))
         ps totals.
Proof.
  intros H. unfold projects_total_prod.
  assert (Hm : exists totals,
             mapM (fun np => project_total_prod quad i i (snd np)) ps = Ret totals
             /\ Forall2 (fun np t =>
                  exists y, getitem (Raw.years (snd np)) i = Ret y
                            /\ t = quad (Raw.curve (snd np)) (inject_Z y) (inject_Z y))
                  ps totals).
  { induction H as [| np ps [y Hy] _ [totals [IH1 IH2]]].
    - exists []. split; [reflexivity | constructor].
    - exists (quad (Raw.curve (snd np)) (inject_Z y) (inject_Z y) :: totals).
      simpl. rewrite (project_total_prod_collapsed quad i _ y Hy), IH1.
      split; [reflexivity |].
      constructor; [exists y; split; [exact Hy | reflexivity] | exact IH2]. }
  destruct Hm as [totals [Hm1 Hm2]]. exists totals.
  rewrite Hm1. split; [reflexivity | exact Hm2].
Qed.

(** C5 on [Example.mixed] with the window collapsed on index 0. *)
Lemma total_prod_collapsed_window_witness :
  exists totals,
    projects_total_prod Example.trapz 0 0 Example.mixed =
      Ret (totals, fold_left Qplus totals 0%Q)
    /\ Forall2 (fun np t =>
                  exists y, getitem (Raw.years (snd np)) 0 = Ret y
                            /\ t = Example.trapz (Raw.curve (snd np))
                                     (inject_Z y) (inject_Z y))
         Example.mixed totals.
Proof.
  apply (total_prod_collapsed_window Example.trapz 0 Example.mixed).
  repeat constructor; eexists; reflexivity.
Defined.

(** With the window collapsed on index 0, the totals of [Example.mixed]
    are computed, and are zero: nothing is raised. *)
Lemma total_prod_collapsed_returns :
  exists totals T,
    projects_total_prod Example.trapz 0 0 Example.mixed = Ret (totals, T)
    /\ Forall (fun t => t == 0)%Q totals
    /\ (T == 0)%Q.
Proof.
  eexists. eexists. split; [vm_compute; reflexivity |].
  split; [repeat constructor |]; reflexivity.
Qed.

(* ================================================================== *)
(** * The selection policies on concrete catalogs *)

(** C1 at its failing input. Both projects of [Example.both_early] have
    spud year 1999, before the start year 2000, and the peak of A (10) is
    above the peak of B (5); the ['minmax'] first-project search returns
    having added B. The subscript taken from [max_project_prod_sort] is
    applied to [order_projects_names_abs], which is already sorted. *)
Theorem first_minmax_adds_lower_peak :
  projects_names Scenario.minmax_first = ["A"%string; "B"%string]
  /\ max_project_prod Scenario.minmax_first = [10 # 1; 5 # 1]%Q
  /\ map (fun np => spud (snd np)) (projects Scenario.minmax_first) = [1999; 1999]
  /\ first_year Scenario.minmax_first = 2000
  /\ fst (search_first_project Scenario.minmax_first 3
            (initial_state Example.zeros)) = Ret tt
  /\ used_projects (snd (search_first_project Scenario.minmax_first 3
                           (initial_state Example.zeros))) = ["B"%string].
Proof. vm_compute. repeat split. Qed.

(** C2 at its failing input, the catalog of the ordering scenario: the
    early sequence is computed as [(-2, A); (-1, B)] (A and B being positions
    0 and 1 of the catalog), but no project is late, [np.hstack] is given an
    empty list and raises: [projects_ordering] fails with ValueError, sets no
    planned sequence, and so does the full run. *)
Theorem ordering_fails_without_late_project :
  map (fun np => total (snd np)) (projects Scenario.ordering_ab) = [200 # 2; 400 # 8]%Q
  /\ sequence_before Scenario.ordering_ab [1998; 1998] [2; 1] [200 # 2; 400 # 8]%Q
       = Ret [(-2, 0%nat); (-1, 1%nat)]
  /\ sequence_after Scenario.ordering_ab [1998; 1998] [2; 1] [200 # 2; 400 # 8]%Q
       = Raise ValueError
  /\ ordering Scenario.ordering_ab = Raise ValueError
  /\ fst (projects_ordering Scenario.ordering_ab (initial_state Example.zeros))
       = Raise ValueError
  /\ projects_sequence
       (snd (projects_ordering Scenario.ordering_ab (initial_state Example.zeros)))
       = None
  /\ fst (Projects_Planner_call Scenario.ordering_ab (initial_state Example.zeros))
       = Raise ValueError.
Proof. vm_compute. repeat split. Qed.

Lemma getitem_returns_or_raises {A} (l : list A) i : getitem l i <> OutOfFuel.
Proof.
  unfold getitem.
  destruct ((0 <=? _) && _); [| discriminate].
  destruct (nth_error _ _); discriminate.
Qed.

(** The last branch of [search_next_project] never selects: with fuel for
    one turn of its loop it raises, and the used list is unchanged. *)
Lemma next_random_raises (self : Projects_Planner) fuel day last_prod s :
  next_project self = Other ->
  is_raise (fst (search_next_project self (S fuel) day last_prod s))
  /\ used_projects (snd (search_next_project self (S fuel) day last_prod s))
     = used_projects s.
Proof.
  intros Hp. unfold search_next_project. rewrite Hp.
  simpl while_not_found. unfold next_random_body.
  unfold bindM, gets, random_choice, lift, project_of, raise, Mdates.num2date.
  destruct (Mdates.in_calendar (first_day self + day));
    [| split; [exact I | reflexivity]].
  destruct (length _) as [| n]; [split; [exact I | reflexivity] |].
  destruct (getitem _ _) as [name | e |] eqn:Hg; simpl.
  - destruct (lookup (projects self) name) eqn:Hl; simpl;
      try (split; [exact I | reflexivity]).
    exfalso. exact (lookup_returns_or_raises _ _ Hl).
  - split; [exact I | reflexivity].
  - exfalso. exact (getitem_returns_or_raises _ _ Hg).
Qed.

(** C7 at a failing input. On [Example.both_early], where both projects
    are unused and have spud year 1999, the random next-project search on
    day 1 accepts no project: its first comparison reads the name [year],
    which is bound nowhere, and the call fails with NameError, the used list
    still empty. *)
Theorem next_random_fails_with_name_error :
  next_project Scenario.random_next = Other
  /\ fst (search_next_project Scenario.random_next 1 1 0%Q
            (initial_state Example.zeros)) = Raise NameError
  /\ used_projects (snd (search_next_project Scenario.random_next 1 1 0%Q
                           (initial_state Example.zeros))) = [].
Proof. vm_compute. repeat split. Qed.

(* ================================================================== *)
(** * Bounded search *)

Lemma getitem_yields {A} (l : list A) i :
  yields (eq IndexError) (fun x => In x l) (getitem l i).
Proof.
  unfold getitem. destruct ((0 <=? _) && _); simpl; [| reflexivity].
  destruct (nth_error _ _) eqn:H; simpl; [| reflexivity].
  eapply nth_error_In, H.
Qed.

Lemma getitem_past_end {A} (l : list A) :
  getitem l (Z.of_nat (length l)) = Raise IndexError.
Proof.
  unfold getitem.
  replace (Z.of_nat (length l) <? 0) with false by (symmetry; apply Z.ltb_ge; lia).
  rewrite Z.ltb_irrefl, andb_false_r. reflexivity.
Qed.

Lemma getitem_before_start {A} (l : list A) :
  getitem l (-1 - Z.of_nat (length l)) = Raise IndexError.
Proof.
  unfold getitem.
  replace (-1 - Z.of_nat (length l) <? 0) with true by (symmetry; apply Z.ltb_lt; lia).
  replace (0 <=? -1 - Z.of_nat (length l) + Z.of_nat (length l)) with false
    by (symmetry; apply Z.leb_gt; lia).
  reflexivity.
Qed.

Lemma mapM_yields {A B} (E : exn -> Prop) (Q : B -> Prop) (f : A -> outcome B) l :
  (forall x, In x l -> yields E Q (f x)) ->
  yields E (fun ys => Forall Q ys /\ length ys = length l) (mapM f l).
Proof.
  induction l as [| x l IH]; intros H; simpl; [split; [constructor | reflexivity] |].
  pose proof (H x (or_introl eq_refl)) as Hx.
  destruct (f x) as [y | e |]; simpl in *; try assumption.
  assert (IH' := IH (fun z Hz => H z (or_intror Hz))).
  destruct (mapM f l) as [ys | e |]; simpl in *; try assumption.
  destruct IH' as [HQ Hlen]. split; [constructor; assumption | congruence].
Qed.

Lemma take_yields {A} (a : list A) idx :
  yields (eq IndexError)
    (fun l => Forall (fun x => In x a) l /\ length l = length idx)
    (Np.take a idx).
Proof.
  unfold Np.take. apply mapM_yields. intros i _. apply getitem_yields.
Qed.

Lemma lookup_yields {V} (d : list (string * V)) key :
  yields (eq KeyError) (fun v => In (key, v) d) (lookup d key).
Proof.
  induction d as [| [k v] d IH]; simpl; [reflexivity |].
  destruct (String.eqb k key) eqn:Hk; simpl.
  - apply String.eqb_eq in Hk. subst. left. reflexivity.
  - destruct (lookup d key); simpl in *; auto.
Qed.

Lemma lookup_name {V} (d : list (string * V)) key :
  In key (map fst d) -> exists v, lookup d key = Ret v /\ In (key, v) d.
Proof.
  intros Hin. pose proof (lookup_yields d key) as Hy.
  destruct (lookup d key) as [v | e |] eqn:Hl; simpl in Hy.
  - exists v. split; [reflexivity | exact Hy].
  - exfalso. clear Hy. induction d as [| [k v] d IH]; [destruct Hin |].
    simpl in Hl. destruct (String.eqb k key) eqn:Hk; [discriminate |].
    destruct Hin as [Heq | Hin]; [| exact (IH Hin Hl)].
    simpl in Heq. subst. rewrite String.eqb_refl in Hk. discriminate.
  - destruct Hy.
Qed.

(** ** Sorting keeps the number of entries *)

Lemma insert_by_length key i l :
  length (Np.insert_by key i l) = S (length l).
Proof.
  induction l as [| j l IH]; simpl; [reflexivity |].
  destruct (Qle_bool (key i) (key j)); simpl; [reflexivity | rewrite IH; reflexivity].
Qed.

Lemma argsort_length a : length (Np.argsort a) = length a.
Proof.
  unfold Np.argsort. generalize (fun i => nth i a 0%Q) as key.
  intros key. transitivity (length (seq 0 (length a))); [| apply length_seq].
  induction (seq 0 (length a)) as [| i l IH]; simpl; [reflexivity |].
  rewrite insert_by_length, IH. reflexivity.
Qed.

Lemma compress_length {A} mask (a : list A) :
  (length (Np.compress mask a) <= length a)%nat.
Proof.
  revert a. induction mask as [| b mask IH]; intros [| x a]; simpl; try lia.
  specialize (IH a). destruct b; simpl; lia.
Qed.

(** The unused names: names of the planner that are not in the used list. *)
Lemma compress_unused names used x :
  In x (Np.compress (map negb (Np.in1d names used)) names) ->
  In x names /\ ~ In x used.
Proof.
  unfold Np.in1d. induction names as [| n names IH]; simpl; [intros [] |].
  fold (Np.contains used n).
  destruct (Np.contains used n) eqn:Hc; simpl.
  - intros H. destruct (IH H). split; [right |]; assumption.
  - intros [Heq | H].
    + subst. split; [left; reflexivity | apply contains_not_In, Hc].
    + destruct (IH H). split; [right |]; assumption.
Qed.

(** ** A walk over a ranking *)

(** A search loop that visits the subscripts [idx 0], [idx 1], ... of a
    ranking of [len] entries without touching the state. Each visit raises
    an exception in [E], or rejects the candidate and moves on, or accepts a
    candidate in [Q]; the subscript after the last entry raises an
    exception in [E]. With more fuel than entries the loop ends: it raises
    in [E] or returns a candidate in [Q]. *)
Lemma bounded_walk {X} (body : Z * X -> M (bool * (Z * X))) (idx : nat -> Z)
    (len : nat) (E : exn -> Prop) (Q : X -> Prop) :
  (forall k x s, (k < len)%nat ->
      (exists e, E e /\ body (idx k, x) s = (Raise e, s))
      \/ (exists x', body (idx k, x) s = (Ret (false, (idx (S k), x')), s))
      \/ (exists x', Q x' /\ body (idx k, x) s = (Ret (true, (idx (S k), x')), s))) ->
  (forall x s, exists e, E e /\ body (idx len, x) s = (Raise e, s)) ->
  forall fuel, (len < fuel)%nat ->
  forall x s,
    (exists e, E e /\ while_not_found fuel body (idx 0%nat, x) s = (Raise e, s))
    \/ (exists n x', Q x' /\ while_not_found fuel body (idx 0%nat, x) s = (Ret (n, x'), s)).
Proof.
  intros Hstep Hend.
  assert (Hgen : forall m k, (k + m = len)%nat ->
            forall fuel, (m < fuel)%nat -> forall x s,
              (exists e, E e /\ while_not_found fuel body (idx k, x) s = (Raise e, s))
              \/ (exists n x', Q x' /\
                    while_not_found fuel body (idx k, x) s = (Ret (n, x'), s))).
  { induction m as [| m IH]; intros k Hk fuel Hfuel x s;
      (destruct fuel as [| fuel]; [lia |]); simpl.
    - replace k with len by lia.
      destruct (Hend x s) as [e [He Hb]]. left. exists e. split; [exact He |].
      apply bindM_raise, Hb.
    - destruct (Hstep k x s ltac:(lia)) as [[e [He Hb]] | [[x' Hb] | [x' [Hq Hb]]]].
      + left. exists e. split; [exact He | apply bindM_raise, Hb].
      + rewrite (bindM_ret _ _ _ _ _ Hb). simpl.
        apply IH; lia.
      + right. exists (idx (S k)), x'. split; [exact Hq |].
        rewrite (bindM_ret _ _ _ _ _ Hb). reflexivity. }
  intros fuel Hfuel x s. apply (Hgen len 0%nat); lia.
Qed.

(** ** First project, ['minmax'] *)

Lemma first_minmax_body_eq self sort n x s :
  first_minmax_body self sort (n, x) s =
    match getitem sort n with
    | Ret ind =>
        match getitem (order_projects_names_abs self) (Z.of_nat ind) with
        | Ret name =>
            match lookup (projects self) name with
            | Ret p => (Ret (spud p <=? first_year self, (n - 1, name)), s)
            | Raise e => (Raise e, s)
            | OutOfFuel => (OutOfFuel, s)
            end
        | Raise e => (Raise e, s)
        | OutOfFuel => (OutOfFuel, s)
        end
    | Raise e => (Raise e, s)
    | OutOfFuel => (OutOfFuel, s)
    end.
Proof.
  unfold first_minmax_body, bindM, lift, project_of, ret. simpl.
  destruct (getitem sort n); try reflexivity;
    destruct (getitem _ _); try reflexivity;
    destruct (lookup _ _); reflexivity.
Qed.

Lemma first_minmax_infeasible (self : Projects_Planner) fuel s :
  first_project self = Minmax ->
  well_formed self ->
  none_may_start self ->
  (length (max_project_prod self) < fuel)%nat ->
  search_first_project self fuel s = (Raise IndexError, s).
Proof.
  intros Hp (Hnames & _ & _ & Habs) Hlate Hfuel.
  unfold search_first_project. rewrite Hp.
  set (sort := Np.argsort (max_project_prod self)).
  assert (Hlen : length sort = length (max_project_prod self))
    by apply argsort_length.
  assert (Hstep : forall k x s0, (k < length sort)%nat ->
      (exists e, IndexError = e /\
         first_minmax_body self sort (-1 - Z.of_nat k, x) s0 = (Raise e, s0))
      \/ (exists x', first_minmax_body self sort (-1 - Z.of_nat k, x) s0 =
                       (Ret (false, (-1 - Z.of_nat (S k), x')), s0))
      \/ (exists x', False /\
            first_minmax_body self sort (-1 - Z.of_nat k, x) s0 =
              (Ret (true, (-1 - Z.of_nat (S k), x')), s0))).
  { intros k x s0 Hk. rewrite first_minmax_body_eq.
    pose proof (getitem_yields sort (-1 - Z.of_nat k)) as Hy.
    destruct (getitem sort _) as [ind | e |]; simpl in Hy;
      [| left; exists e; split; [exact Hy | reflexivity] | destruct Hy].
    clear Hy.
    pose proof (getitem_yields (order_projects_names_abs self) (Z.of_nat ind)) as Hy.
    destruct (getitem (order_projects_names_abs self) _) as [name | e |];
      simpl in Hy; [| left; exists e; split; [exact Hy | reflexivity] | destruct Hy].
    apply Habs in Hy. rewrite Hnames in Hy.
    destruct (lookup_name _ _ Hy) as [p [Hl Hin]]. rewrite Hl.
    unfold none_may_start in Hlate. rewrite Forall_forall in Hlate.
    specialize (Hlate _ Hin). simpl in Hlate.
    replace (spud p <=? first_year self) with false
      by (symmetry; apply Z.leb_gt; exact Hlate).
    right. left. exists name.
    replace (-1 - Z.of_nat k - 1) with (-1 - Z.of_nat (S k)) by lia.
    reflexivity. }
  assert (Hend : forall x s0, exists e, IndexError = e /\
            first_minmax_body self sort (-1 - Z.of_nat (length sort), x) s0 =
              (Raise e, s0)).
  { intros x s0. exists IndexError. split; [reflexivity |].
    rewrite first_minmax_body_eq, getitem_before_start. reflexivity. }
  destruct (bounded_walk (first_minmax_body self sort)
              (fun k => -1 - Z.of_nat k) (length sort)
              (eq IndexError) (fun _ => False) Hstep Hend fuel
              ltac:(lia) EmptyString s)
    as [[e [<- Hw]] | [n [x' [[] _]]]].
  apply bindM_raise, Hw.
Qed.

(** ** Next project, ['mean'] *)

Lemma next_mean_body_eq self cd cy ord n x s :
  next_mean_body self cd cy ord (n, x) s =
    match getitem ord n with
    | Ret name =>
        match lookup (projects self) name with
        | Ret p =>
            if Mdates.in_calendar (cd - drill p)
            then (Ret (within_drilling cd cy (spud p) p, (n + 1, name)), s)
            else (Raise ValueError, s)
        | Raise e => (Raise e, s)
        | OutOfFuel => (OutOfFuel, s)
        end
    | Raise e => (Raise e, s)
    | OutOfFuel => (OutOfFuel, s)
    end.
Proof.
  unfold next_mean_body, spud_date_of, bindM, lift, project_of, ret,
    Mdates.num2date. simpl.
  destruct (getitem ord n); try reflexivity.
  destruct (lookup _ _) as [p | e |]; try reflexivity.
  destruct (Mdates.in_calendar (cd - drill p)); reflexivity.
Qed.

(** The ['mean'] next-project search when no unused project is within its
    drilling window: the walk runs off the ranking, unless a date it
    converts is outside the calendar. *)
Lemma next_mean_infeasible (self : Projects_Planner) fuel day last_prod s :
  next_project self = Mean ->
  well_formed self ->
  none_within_drilling self day s ->
  (length (max_project_prod self) < fuel)%nat ->
  exists e,
    search_next_project self fuel day last_prod s = (Raise e, s)
    /\ (e = IndexError \/ (e = ValueError /\ ~ search_dated self day s)).
Proof.
  intros Hp (Hnames & _ & _ & _) Hnone Hfuel.
  unfold search_next_project. rewrite Hp.
  set (cd := first_day self + day).
  unfold bindM at 1. unfold lift at 1. unfold Mdates.num2date.
  destruct (Mdates.in_calendar cd) eqn:Hcal.
  2: { exists ValueError. split; [reflexivity |].
       right. split; [reflexivity |]. intros [H _]. fold cd in H. congruence. }
  cbv beta iota.
  unfold bindM at 1. unfold gets at 1.
  set (cy := Mdates.year (Mdates.civil cd)).
  set (mask := map negb (Np.in1d (projects_names self) (used_projects s))).
  set (left := Np.compress mask (projects_names self)).
  set (diffs := map (fun m => (m + (last_prod - global_mean self))%Q)
                  (max_project_prod self)).
  set (idx := rev (Np.argsort (Np.compress mask diffs))).
  set (E := fun e => e = IndexError
                     \/ (e = ValueError /\ ~ search_dated self day s)).
  assert (Hidx : (length idx <= length (max_project_prod self))%nat).
  { unfold idx. rewrite length_rev, argsort_length.
    etransitivity; [apply compress_length |].
    unfold diffs. rewrite length_map. lia. }
  pose proof (take_yields left idx) as Hy.
  destruct (Np.take left idx) as [ord | e |] eqn:Htake; simpl in Hy;
    [| subst e; exists IndexError; split; [reflexivity | left; reflexivity]
     | destruct Hy].
  destruct Hy as [Hord Hlen].
  unfold bindM at 1. unfold lift at 1.
  assert (Hstep : forall k x s0, (k < length ord)%nat ->
      (exists e, E e /\
         next_mean_body self cd cy ord (Z.of_nat k, x) s0 = (Raise e, s0))
      \/ (exists x', next_mean_body self cd cy ord (Z.of_nat k, x) s0 =
                       (Ret (false, (Z.of_nat (S k), x')), s0))
      \/ (exists x', False /\
            next_mean_body self cd cy ord (Z.of_nat k, x) s0 =
              (Ret (true, (Z.of_nat (S k), x')), s0))).
  { intros k x s0 Hk. rewrite next_mean_body_eq.
    pose proof (getitem_yields ord (Z.of_nat k)) as Hy.
    destruct (getitem ord _) as [name | e |]; simpl in Hy;
      [| left; exists e; split; [left; symmetry; exact Hy | reflexivity]
       | destruct Hy].
    rewrite Forall_forall in Hord. apply Hord in Hy.
    apply compress_unused in Hy. destruct Hy as [Hin Hunused].
    rewrite Hnames in Hin.
    destruct (lookup_name _ _ Hin) as [p [Hl Hp']]. rewrite Hl.
    destruct (Mdates.in_calendar (cd - drill p)) eqn:Hd.
    - unfold none_within_drilling in Hnone. cbv zeta in Hnone.
      rewrite Forall_forall in Hnone.
      destruct (Hnone _ Hp') as [Hused | [Hcal' | Hout]]; [contradiction | |].
      { cbn [fst snd] in Hcal'. fold cd in Hcal'. congruence. }
      cbn [fst snd] in Hout. fold cd cy in Hout. rewrite Hout.
      right. left. exists name.
      replace (Z.of_nat k + 1) with (Z.of_nat (S k)) by lia.
      reflexivity.
    - left. exists ValueError. split; [| reflexivity].
      right. split; [reflexivity |]. intros [_ Hall].
      rewrite Forall_forall in Hall.
      destruct (Hall _ Hp') as [Hused | Hin']; [contradiction |].
      cbn [fst snd] in Hin'. fold cd in Hin'. congruence. }
  assert (Hend : forall x s0, exists e, E e /\
            next_mean_body self cd cy ord (Z.of_nat (length ord), x) s0 =
              (Raise e, s0)).
  { intros x s0. exists IndexError. split; [left; reflexivity |].
    rewrite next_mean_body_eq, getitem_past_end. reflexivity. }
  destruct (bounded_walk (next_mean_body self cd cy ord) Z.of_nat (length ord)
              E (fun _ => False) Hstep Hend fuel
              ltac:(lia) EmptyString s)
    as [[e [He Hw]] | [n [x' [[] _]]]].
  exists e. split; [apply bindM_raise, Hw | exact He].
Qed.

(** ** First project, ['mean'] *)

Lemma yieldsM_ret {A} (E : exn -> Prop) (Q : A -> Prop) a :
  Q a -> yieldsM E Q (ret a).
Proof. intros H s. exact H. Qed.

Lemma yieldsM_lift {A} (E : exn -> Prop) (Q : A -> Prop) o :
  yields E Q o -> yieldsM E Q (lift o).
Proof. intros H s. exact H. Qed.

Lemma yieldsM_bind {A B} (E : exn -> Prop) (Q1 : A -> Prop) (Q : B -> Prop)
    (m : M A) (k : A -> M B) :
  yieldsM E Q1 m -> (forall a, Q1 a -> yieldsM E Q (k a)) ->
  yieldsM E Q (bindM m k).
Proof.
  intros Hm Hk s. specialize (Hm s). unfold bindM.
  destruct (m s) as [[a | e |] s1]; simpl in *; try assumption.
  apply Hk, Hm.
Qed.

Lemma yields_weaken {A} (E E' : exn -> Prop) (Q Q' : A -> Prop) o :
  (forall e, E e -> E' e) -> (forall a, Q a -> Q' a) ->
  yields E Q o -> yields E' Q' o.
Proof. intros HE HQ. destruct o; simpl; auto. Qed.

Lemma random_choice_yields n :
  yieldsM index_or_value (fun _ => True) (random_choice n).
Proof.
  intros s. unfold random_choice. destruct n; simpl; [right; reflexivity | exact I].
Qed.

Lemma random_sample_yields k : forall pool,
  yieldsM index_or_value (fun _ => True) (random_sample k pool).
Proof.
  induction k as [| k IH]; intros pool; simpl.
  - apply yieldsM_ret. exact I.
  - eapply yieldsM_bind; [apply random_choice_yields |]. intros j _.
    eapply yieldsM_bind; [apply IH |]. intros rest _.
    apply yieldsM_ret. exact I.
Qed.

Lemma draw_combination_yields self acc :
  yieldsM index_or_value
    (fun acc' => length (snd acc') = S (length (snd acc)))
    (draw_combination self acc).
Proof.
  unfold draw_combination.
  eapply yieldsM_bind; [apply random_choice_yields |]. intros r _.
  eapply yieldsM_bind.
  { unfold random_combination.
    eapply yieldsM_bind; [apply random_sample_yields |]. intros picked _.
    apply (yieldsM_ret _ (fun _ => True)). exact I. }
  intros indxs _.
  eapply yieldsM_bind.
  { apply yieldsM_lift.
    eapply yields_weaken; [| | apply take_yields].
    - intros e <-. left. reflexivity.
    - intros a H. exact H. }
  intros peaks _. apply yieldsM_ret. simpl.
  rewrite length_app. simpl. lia.
Qed.

Lemma draw_loop_yields self l : forall acc,
  yieldsM index_or_value
    (fun acc' => length (snd acc') = (length (snd acc) + length l)%nat)
    (for_each l (fun _ : Z => draw_combination self) acc).
Proof.
  induction l as [| x l IH]; intros acc; simpl.
  - apply yieldsM_ret. lia.
  - eapply yieldsM_bind; [apply draw_combination_yields |].
    intros acc1 H1. intros s. specialize (IH acc1 s).
    eapply yields_weaken; [| | exact IH]; [auto |].
    intros a Ha. simpl in *. lia.
Qed.

Lemma same_lists_refl s : same_lists s s.
Proof. repeat split. Qed.

Lemma draw_loop_frame s0 self l acc :
  preserves (same_lists s0) (for_each l (fun _ : Z => draw_combination self) acc).
Proof.
  unfold draw_combination. preserve.
  all: intros v s H; exact H.
Qed.

(** The spud years of catalog names, when no project is early. *)
Lemma spud_years_late (self : Projects_Planner) names :
  projects_names self = map fst (projects self) ->
  no_early_project self ->
  Forall (fun name => In name (projects_names self)) names ->
  exists spud_years,
    mapM (fun name =>
            Py.bind (lookup (projects self) name) (fun p => Ret (spud p))) names
      = Ret spud_years
    /\ Forall (fun y => first_year self <= y) spud_years
    /\ length spud_years = length names.
Proof.
  intros Hnames Hlate Hin.
  assert (Hf : forall name, In name names ->
            yields (fun _ => False) (fun y => first_year self <= y)
              (Py.bind (lookup (projects self) name) (fun p => Ret (spud p)))).
  { intros name Hn. rewrite Forall_forall in Hin. specialize (Hin name Hn).
    rewrite Hnames in Hin. destruct (lookup_name _ _ Hin) as [p [Hl Hp]].
    rewrite Hl. simpl. unfold no_early_project in Hlate.
    rewrite Forall_forall in Hlate. apply (Hlate _ Hp). }
  pose proof (mapM_yields _ _ _ names Hf) as Hy.
  destruct (mapM _ names) as [ys | e |]; simpl in Hy; try contradiction.
  exists ys. split; [reflexivity | exact Hy].
Qed.

Lemma first_mean_body_eq self combs_ind sort n x s :
  first_mean_body self combs_ind sort (n, x) s =
    match getitem sort n with
    | Ret i =>
        match getitem combs_ind (Z.of_nat i) with
        | Ret projects_indxs =>
            match mapM (fun ind => getitem (projects_names self) (Z.of_nat ind))
                    projects_indxs with
            | Ret names =>
                match mapM (fun name =>
                              Py.bind (lookup (projects self) name)
                                (fun p => Ret (spud p))) names with
                | Ret spud_years =>
                    (Ret (forallb (fun y => y <? first_year self) spud_years,
                          (n + 1, names)), s)
                | Raise e => (Raise e, s)
                | OutOfFuel => (OutOfFuel, s)
                end
            | Raise e => (Raise e, s)
            | OutOfFuel => (OutOfFuel, s)
            end
        | Raise e => (Raise e, s)
        | OutOfFuel => (OutOfFuel, s)
        end
    | Raise e => (Raise e, s)
    | OutOfFuel => (OutOfFuel, s)
    end.
Proof.
  unfold first_mean_body, bindM, lift, ret. simpl.
  destruct (getitem sort n); try reflexivity;
    destruct (getitem _ _); try reflexivity;
    destruct (mapM _ _); try reflexivity;
    destruct (mapM _ _); reflexivity.
Qed.

Lemma first_mean_step (self : Projects_Planner) combs_ind sort k x s :
  projects_names self = map fst (projects self) ->
  no_early_project self ->
  (exists e, IndexError = e /\
     first_mean_body self combs_ind sort (Z.of_nat k, x) s = (Raise e, s))
  \/ (exists x', first_mean_body self combs_ind sort (Z.of_nat k, x) s =
                   (Ret (false, (Z.of_nat (S k), x')), s))
  \/ (exists x', x' = [] /\
        first_mean_body self combs_ind sort (Z.of_nat k, x) s =
          (Ret (true, (Z.of_nat (S k), x')), s)).
Proof.
  intros Hnames Hlate. rewrite first_mean_body_eq.
  replace (Z.of_nat k + 1) with (Z.of_nat (S k)) by lia.
  pose proof (getitem_yields sort (Z.of_nat k)) as Hy.
  destruct (getitem sort _) as [i | e |]; simpl in Hy;
    [| left; exists e; split; [exact Hy | reflexivity] | destruct Hy].
  clear Hy.
  pose proof (getitem_yields combs_ind (Z.of_nat i)) as Hy.
  destruct (getitem combs_ind _) as [projects_indxs | e |]; simpl in Hy;
    [| left; exists e; split; [exact Hy | reflexivity] | destruct Hy].
  clear Hy.
  pose proof (mapM_yields (eq IndexError)
                (fun name => In name (projects_names self))
                (fun ind => getitem (projects_names self) (Z.of_nat ind))
                projects_indxs (fun ind _ => getitem_yields _ _)) as Hy.
  destruct (mapM _ projects_indxs) as [names | e |]; simpl in Hy;
    [| left; exists e; split; [exact Hy | reflexivity] | destruct Hy].
  destruct Hy as [Hin _].
  destruct (spud_years_late self names Hnames Hlate Hin)
    as (spud_years & Hs & Hyears & Hlen).
  rewrite Hs.
  destruct spud_years as [| y spud_years].
  - destruct names; [| discriminate]. right. right. exists []. auto.
  - right. left. exists names. simpl.
    inversion Hyears; subst.
    replace (y <? first_year self) with false
      by (symmetry; apply Z.ltb_ge; lia).
    reflexivity.
Qed.

(** With no early project, the ['mean'] first-project search ends within
    [initial_iters] attempts: it raises IndexError (ValueError on an empty
    catalog), or it accepts a combination that is empty and returns having
    added nothing. The state differs at most in the random source. *)
Lemma first_mean_infeasible (self : Projects_Planner) fuel s :
  first_project self = Mean ->
  well_formed self ->
  no_early_project self ->
  (Z.to_nat (initial_iters self) < fuel)%nat ->
  (fst (search_first_project self fuel s) = Ret tt
   \/ fst (search_first_project self fuel s) = Raise IndexError
   \/ fst (search_first_project self fuel s) = Raise ValueError)
  /\ same_lists s (snd (search_first_project self fuel s)).
Proof.
  intros Hp (Hnames & _ & _ & _) Hlate Hfuel.
  unfold search_first_project. rewrite Hp.
  set (draw := for_each (Py.range (initial_iters self))
                 (fun _ : Z => draw_combination self) ([], [])).
  pose proof (draw_loop_yields self (Py.range (initial_iters self)) ([], []) s)
    as Hy.
  pose proof (draw_loop_frame s self (Py.range (initial_iters self)) ([], []) s
                (same_lists_refl s)) as Hs1.
  fold draw in Hy, Hs1.
  destruct (draw s) as [[[combs_ind combs_sum] | e |] s1] eqn:Hd;
    simpl in Hy, Hs1; [| | destruct Hy].
  2: { rewrite (bindM_raise _ _ _ _ _ Hd).
       split; [destruct Hy as [-> | ->]; auto | exact Hs1]. }
  rewrite (bindM_ret _ _ _ _ _ Hd).
  set (sort := Np.argsort (map (fun x => Qabs (x - global_mean self)) combs_sum)).
  assert (Hlen : length sort = Z.to_nat (initial_iters self)).
  { unfold sort. rewrite argsort_length, length_map, Hy.
    unfold Py.range. rewrite length_map, length_seq. reflexivity. }
  destruct (bounded_walk (first_mean_body self combs_ind sort) Z.of_nat
              (length sort) (eq IndexError) (fun names => names = [])
              (fun k x s0 _ => first_mean_step self combs_ind sort k x s0
                                 Hnames Hlate)
              (fun x s0 => ex_intro _ IndexError
                 (conj eq_refl
                    (eq_trans (first_mean_body_eq self combs_ind sort _ x s0)
                       (f_equal (fun o => match o with
                                          | Ret _ => _ | Raise e => (Raise e, s0)
                                          | OutOfFuel => (OutOfFuel, s0) end)
                          (getitem_past_end sort)))))
              fuel ltac:(lia) [] s1)
    as [[e [<- Hw]] | [n [x' [-> Hw]]]].
  - rewrite (bindM_raise _ _ _ _ _ Hw). split; [auto | exact Hs1].
  - rewrite (bindM_ret _ _ _ _ _ Hw). simpl. split; [auto | exact Hs1].
Qed.

(** ** First project, random *)

Lemma getitem_in_range {A} (l : list A) i :
  (i < length l)%nat -> exists x, getitem l (Z.of_nat i) = Ret x /\ In x l.
Proof.
  intros Hi. unfold getitem.
  replace (Z.of_nat i <? 0) with false by (symmetry; apply Z.ltb_ge; lia).
  replace (0 <=? Z.of_nat i) with true by (symmetry; apply Z.leb_le; lia).
  replace (Z.of_nat i <? Z.of_nat (length l)) with true
    by (symmetry; apply Z.ltb_lt; lia).
  simpl. rewrite Nat2Z.id.
  destruct (nth_error l i) as [x |] eqn:Hn.
  - exists x. split; [reflexivity | eapply nth_error_In, Hn].
  - apply nth_error_None in Hn. lia.
Qed.

(** Every draw of the random first-project search is rejected when no
    project may start: the loop uses up any fuel. *)
Lemma first_random_loop_diverges (self : Projects_Planner) :
  well_formed self ->
  none_may_start self ->
  projects self <> [] ->
  forall fuel loc s,
    fst (while_not_found fuel (first_random_body self) loc s) = OutOfFuel.
Proof.
  intros (Hnames & _ & Hlen & _) Hlate Hne.
  induction fuel as [| fuel IH]; intros loc s; [reflexivity |].
  simpl. unfold first_random_body at 1.
  unfold bindM, random_choice, lift, project_of, ret.
  destruct (projects_length self) as [| n] eqn:HL.
  { destruct (projects self); [contradiction | simpl in Hlen; lia]. }
  destruct (getitem_in_range (projects_names self) (rng s 0 mod S n)%nat)
    as [name [Hg Hin]].
  { rewrite Hnames, length_map, <- Hlen. apply Nat.mod_upper_bound. lia. }
  rewrite Hg. rewrite Hnames in Hin.
  destruct (lookup_name _ _ Hin) as [p [Hl Hp]]. rewrite Hl.
  unfold none_may_start in Hlate. rewrite Forall_forall in Hlate.
  specialize (Hlate _ Hp). simpl in Hlate.
  simpl.
  destruct (spud p <? first_year self) eqn:Hlt; [apply Z.ltb_lt in Hlt; lia |].
  apply IH.
Qed.

Lemma first_random_never_returns (self : Projects_Planner) fuel s :
  first_project self = Other ->
  well_formed self ->
  none_may_start self ->
  projects self <> [] ->
  fst (search_first_project self fuel s) = OutOfFuel.
Proof.
  intros Hp Hwf Hlate Hne. unfold search_first_project. rewrite Hp.
  pose proof (first_random_loop_diverges self Hwf Hlate Hne fuel EmptyString s)
    as H.
  unfold bindM.
  destruct (while_not_found fuel (first_random_body self) EmptyString s)
    as [[name | e |] s1]; simpl in H; try discriminate.
  reflexivity.
Qed.

(** ** C4: what the searches do when nothing is feasible *)

Lemma well_formed_late_minmax : well_formed Scenario.late_minmax.
Proof.
  repeat split; try reflexivity.
  intros name H. vm_compute in H. vm_compute. tauto.
Qed.

Lemma well_formed_late_random : well_formed Scenario.late_random.
Proof.
  repeat split; try reflexivity.
  intros name H. vm_compute in H. vm_compute. tauto.
Qed.

Lemma none_may_start_late_minmax : none_may_start Scenario.late_minmax.
Proof. repeat constructor. Qed.

Lemma none_may_start_late_random : none_may_start Scenario.late_random.
Proof. repeat constructor. Qed.

(** C4 fails as stated. On the catalog [Example.all_late], where no project
    may start by the start year 2000, the ['minmax'] first-project search
    stops by running off its ranking, with Python's IndexError (the module
    has no error of its own for an exhausted search), and the random
    first-project search never stops: whatever the fuel and the random
    source, it has not returned or raised when the fuel is used up. *)
Lemma infeasible_search_counterexample :
  none_may_start Scenario.late_minmax
  /\ fst (search_first_project Scenario.late_minmax 3
            (initial_state Example.zeros)) = Raise IndexError
  /\ none_may_start Scenario.late_random
  /\ ~ (exists fuel random,
          fst (search_first_project Scenario.late_random fuel
                 (initial_state random)) <> OutOfFuel).
Proof.
  split; [apply none_may_start_late_minmax |].
  split; [vm_compute; reflexivity |].
  split; [apply none_may_start_late_random |].
  intros (fuel & random & H). apply H.
  apply first_random_never_returns.
  - reflexivity.
  - apply well_formed_late_random.
  - apply none_may_start_late_random.
  - discriminate.
Qed.

(** C4, as the code has it, for the policies that walk a ranking. Let the
    planner be as its constructor leaves it, and let the fuel exceed the
    number of projects and [initial_iters]. Each search is taken with its
    own feasibility test.
    - First project, ['minmax']: when no project has [spud <= first_year],
      the search raises IndexError and leaves the state as it was, after at
      most one attempt per project.
    - First project, ['mean']: when no project has [spud < first_year], so
      that no combination with a project in it passes, the search ends
      within [initial_iters] attempts, raising IndexError (ValueError on an
      empty catalog) or accepting a combination that is empty and adding
      nothing.
    - Next project, ['mean']: when no unused project is within its drilling
      window on [day], whatever the spud years, the search raises and
      leaves the state as it was; it raises IndexError, running off the
      ranking, or ValueError when a date it converts is outside the
      calendar.
    Nothing is stated for the random policies and for the ['minmax']
    next-project policy. *)
Theorem ranked_search_is_bounded (self : Projects_Planner) fuel day last_prod s :
  well_formed self ->
  (projects_length self < fuel)%nat ->
  (Z.to_nat (initial_iters self) < fuel)%nat ->
  (first_project self = Minmax ->
   none_may_start self ->
   search_first_project self fuel s = (Raise IndexError, s))
  /\ (first_project self = Mean ->
      no_early_project self ->
      (fst (search_first_project self fuel s) = Ret tt
       \/ fst (search_first_project self fuel s) = Raise IndexError
       \/ fst (search_first_project self fuel s) = Raise ValueError)
      /\ same_lists s (snd (search_first_project self fuel s)))
  /\ (next_project self = Mean ->
      none_within_drilling self day s ->
      exists e,
        search_next_project self fuel day last_prod s = (Raise e, s)
        /\ (e = IndexError
            \/ (e = ValueError /\ ~ search_dated self day s))).
Proof.
  intros Hwf Hfuel Hiters.
  assert (Hlen : (length (max_project_prod self) < fuel)%nat).
  { destruct Hwf as (_ & H1 & H2 & _). rewrite H1, <- H2. exact Hfuel. }
  split; [| split].
  - intros Hp Hlate. apply first_minmax_infeasible; assumption.
  - intros Hp Hlate. apply first_mean_infeasible; assumption.
  - intros Hp Hnone. apply next_mean_infeasible; assumption.
Qed.

Lemma well_formed_minmax_first : well_formed Scenario.minmax_first.
Proof.
  repeat split; try reflexivity.
  intros name H. vm_compute in H. vm_compute. tauto.
Qed.

(** C4 on two catalogs. On [Example.all_late] no project may start and the
    ['minmax'] first-project search runs off its ranking. On day 0 of a
    fresh run of [Example.both_early], where both projects are early and the
    first-project search is feasible, the ['mean'] next-project search is
    not: both projects were to be drilled in 1999, and it runs off its
    ranking. *)
Lemma ranked_search_is_bounded_witness :
  search_first_project Scenario.late_minmax 1001 (initial_state Example.zeros)
  = (Raise IndexError, initial_state Example.zeros)
  /\ exists e,
       search_next_project Scenario.minmax_first 1001 0 0%Q
         (initial_state Example.zeros)
       = (Raise e, initial_state Example.zeros)
       /\ (e = IndexError
           \/ (e = ValueError
               /\ ~ search_dated Scenario.minmax_first 0
                      (initial_state Example.zeros))).
Proof.
  split.
  - apply (ranked_search_is_bounded Scenario.late_minmax 1001 0 0%Q
             (initial_state Example.zeros)).
    + apply well_formed_late_minmax.
    + vm_compute. lia.
    + vm_compute. lia.
    + reflexivity.
    + apply none_may_start_late_minmax.
  - apply (ranked_search_is_bounded Scenario.minmax_first 1001 0 0%Q
             (initial_state Example.zeros)).
    + apply well_formed_minmax_first.
    + vm_compute. lia.
    + vm_compute. lia.
    + reflexivity.
    + repeat constructor; right; right; vm_compute; reflexivity.
Defined.

(* ================================================================== *)
(** * The planner the constructor builds *)

Lemma mapM_length {A B} (f : A -> outcome B) l ys :
  mapM f l = Ret ys -> length ys = length l.
Proof.
  revert ys. induction l as [| x l IH]; intros ys H; simpl in H.
  - inversion H. reflexivity.
  - apply bind_ret_inv in H. destruct H as (y & _ & H).
    apply bind_ret_inv in H. destruct H as (ys' & Hys & H).
    inversion H. simpl. rewrite (IH _ Hys). reflexivity.
Qed.

Lemma enrich_names ps : forall maxs totals effs,
  length maxs = length ps -> length totals = length ps ->
  length effs = length ps ->
  map fst (enrich ps maxs totals effs) = map fst ps.
Proof.
  induction ps as [| [name p] ps IH]; intros [| m maxs] [| t totals] [| e effs];
    simpl; intros H1 H2 H3; try discriminate; [reflexivity |].
  rewrite IH by congruence. reflexivity.
Qed.

(** The attributes of a planner that [__init__] has built agree. *)
Lemma init_well_formed quad first_day days ps kw self :
  Projects_Planner_init quad first_day days ps kw = Ret self ->
  well_formed self.
Proof.
  intros H. apply Projects_Planner_init_inv in H.
  destruct H as (base & Hbase & _ & ->).
  unfold Projects_init in Hbase.
  apply bind_ret_inv in Hbase. destruct Hbase as (maxs & Hmaxs & Hbase).
  apply bind_ret_inv in Hbase. destruct Hbase as ([totals T] & Htot & Hbase).
  apply bind_ret_inv in Hbase. destruct Hbase as (effs & Heffs & Hbase).
  apply bind_ret_inv in Hbase. destruct Hbase as (gm & _ & Hbase).
  apply bind_ret_inv in Hbase. destruct Hbase as ([rel abs] & Hord & Hbase).
  inversion Hbase. subst. clear Hbase.
  apply mapM_length in Hmaxs. apply mapM_length in Heffs.
  unfold projects_total_prod in Htot.
  apply bind_ret_inv in Htot. destruct Htot as (totals' & Htot & Heq).
  inversion Heq. subst. clear Heq. apply mapM_length in Htot.
  unfold projects_prod_diff in Hord.
  apply bind_ret_inv in Hord. destruct Hord as (rel' & _ & Hord).
  apply bind_ret_inv in Hord. destruct Hord as (abs' & Habs & Heq).
  inversion Heq. subst. clear Heq.
  assert (Hn : map fst (enrich ps maxs totals effs) = map fst ps)
    by (apply enrich_names; assumption).
  unfold well_formed. simpl. repeat split.
  - symmetry. exact Hn.
  - rewrite <- (length_map fst (enrich ps maxs totals effs)), Hn, length_map.
    exact Hmaxs.
  - rewrite <- (length_map fst (enrich ps maxs totals effs)), Hn, length_map.
    reflexivity.
  - pose proof (take_yields (map fst ps) (Np.argsort maxs)) as Hy.
    rewrite Habs in Hy. simpl in Hy. destruct Hy as [Hin _].
    intros name Hname. rewrite Forall_forall in Hin. apply Hin, Hname.
Qed.

(* ================================================================== *)
(** * The full run stays within the simulation states *)

Lemma read_projects_sequence_state s sequence s' :
  read_projects_sequence s = (Ret sequence, s') -> s' = s.
Proof.
  unfold read_projects_sequence, bindM, gets. simpl.
  destruct (projects_sequence s); simpl; intros H; inversion H; reflexivity.
Qed.

Lemma lift_state {A} (o : outcome A) s a s' :
  lift o s = (Ret a, s') -> s' = s.
Proof. unfold lift. intros H. inversion H. reflexivity. Qed.

Lemma start_early_reachable self sequence : forall n s n' s',
  reachable self 0 s ->
  for_each sequence (start_early self) n s = (Ret n', s') ->
  reachable self 0 s'.
Proof.
  induction sequence as [| entry sequence IH]; intros n s n' s' Hr H; simpl in H.
  - inversion H. subst. exact Hr.
  - apply bindM_ret_inv in H. destruct H as (n1 & s1 & Hstep & Hrest).
    apply (IH n1 s1 n' s'); [| exact Hrest].
    unfold start_early in Hstep.
    destruct (fst entry <? 0).
    + apply bindM_ret_inv in Hstep. destruct Hstep as (name & s2 & Hname & Hstep).
      apply lift_state in Hname. subst s2.
      apply bindM_ret_inv in Hstep. destruct Hstep as ([] & s3 & Hadd & Hstep).
      inversion Hstep. subst.
      eapply reach_add; [exact Hr | exact Hadd].
    + inversion Hstep. subst. exact Hr.
Qed.

Lemma simulate_day_reachable self day loc s loc' s' :
  reachable self day s ->
  simulate_day self day loc s = (Ret loc', s') ->
  reachable self (day + 1) s'.
Proof.
  intros Hr H. unfold simulate_day in H.
  apply bindM_ret_inv in H. destruct H as (n & s1 & Hadd & H).
  apply bindM_ret_inv in H. destruct H as (P & s2 & Hprod & H).
  inversion H. subst. clear H.
  eapply reach_production; [| exact Hprod].
  destruct (fst loc <? Z.of_nat (projects_length self)).
  - apply bindM_ret_inv in Hadd. destruct Hadd as (sequence & s3 & Hseq & Hadd).
    apply read_projects_sequence_state in Hseq. subst s3.
    apply bindM_ret_inv in Hadd. destruct Hadd as (entry & s3 & Hentry & Hadd).
    apply lift_state in Hentry. subst s3.
    apply bindM_ret_inv in Hadd. destruct Hadd as (name & s3 & Hname & Hadd).
    apply lift_state in Hname. subst s3.
    apply bindM_ret_inv in Hadd. destruct Hadd as ([] & s3 & Hadd & Hret).
    inversion Hret. subst.
    eapply reach_add; [exact Hr | exact Hadd].
  - inversion Hadd. subst. exact Hr.
Qed.

Lemma simulate_days_reachable self m : forall first loc s loc' s',
  reachable self first s ->
  for_each (map (fun k => first + Z.of_nat k) (seq 0 m)) (simulate_day self)
    loc s = (Ret loc', s') ->
  reachable self (first + Z.of_nat m) s'.
Proof.
  induction m as [| m IH]; intros first loc s loc' s' Hr H.
  - simpl in H. inversion H. subst. rewrite Z.add_0_r. exact Hr.
  - simpl in H. apply bindM_ret_inv in H.
    destruct H as (loc1 & s1 & Hday & Hrest).
    rewrite Z.add_0_r in Hday.
    apply (simulate_day_reachable _ _ _ _ _ _ Hr) in Hday.
    rewrite <- seq_shift, map_map in Hrest.
    erewrite map_ext in Hrest.
    + apply (IH (first + 1) _ _ _ _ Hday) in Hrest.
      replace (first + Z.of_nat (S m)) with (first + 1 + Z.of_nat m) by lia.
      exact Hrest.
    + intros k. simpl. lia.
Qed.

Lemma tl_arange days :
  tl (Np.arange 0 days) =
    map (fun k => 1 + Z.of_nat k) (seq 0 (Nat.pred (Z.to_nat days))).
Proof.
  unfold Np.arange. rewrite Z.sub_0_r.
  destruct (Z.to_nat days) as [| m]; [reflexivity |].
  cbn [seq map tl]. rewrite <- seq_shift, map_map. apply map_ext.
  intros k. lia.
Qed.

(** The states [__call__] goes through are states of the simulation: started
    with no active project, a run that completes ends in a state of the day
    after its last simulated day. *)
Lemma call_reachable self s out s' :
  active_projects s = [] ->
  projects_first_day s = [] ->
  Projects_Planner_call self s = (Ret out, s') ->
  reachable self (1 + Z.of_nat (Nat.pred (Z.to_nat (period self)))) s'.
Proof.
  intros Ha Hf H. unfold Projects_Planner_call in H.
  apply bindM_ret_inv in H. destruct H as ([] & s1 & Hord & H).
  apply bindM_ret_inv in H. destruct H as (sequence & s2 & Hseq & H).
  apply read_projects_sequence_state in Hseq. subst s2.
  apply bindM_ret_inv in H. destruct H as (n & s3 & Hearly & H).
  apply bindM_ret_inv in H. destruct H as (P & s4 & Hprod & H).
  apply bindM_ret_inv in H. destruct H as (loc & s5 & Hloop & H).
  inversion H. subst. clear H.
  rewrite tl_arange in Hloop.
  apply (simulate_days_reachable self _ 1 _ _ _ _) in Hloop; [exact Hloop |].
  apply (reach_production self 0 s3 P); [| exact Hprod].
  apply (start_early_reachable self sequence 0 s1 n); [| exact Hearly].
  apply (reach_ordering self 0 s); [| exact Hord].
  apply reach_start; assumption.
Qed.

(* ================================================================== *)
(** * The early part of the ordering *)

Lemma getitem_nth {A} (l : list A) i d :
  (i < length l)%nat -> getitem l (Z.of_nat i) = Ret (nth i l d).
Proof.
  intros Hi.
  destruct (nth_error_split l i (nth_error_nth' l d Hi))
    as (pre & rest & Hl & Hlen).
  rewrite Hl at 1. rewrite <- Hlen. apply getitem_middle.
Qed.

Lemma take_nth {A} (a : list A) idx d :
  Forall (fun i => i < length a)%nat idx ->
  Np.take a idx = Ret (map (fun i => nth i a d) idx).
Proof.
  unfold Np.take. induction 1 as [| i idx Hi _ IH]; simpl; [reflexivity |].
  rewrite (getitem_nth a i d Hi), IH. reflexivity.
Qed.

Lemma insert_by_perm key i l : Permutation (Np.insert_by key i l) (i :: l).
Proof.
  induction l as [| j l IH]; simpl; [apply Permutation_refl |].
  destruct (Qle_bool (key i) (key j)); [apply Permutation_refl |].
  etransitivity; [apply perm_skip, IH | apply perm_swap].
Qed.

(** [argsort] returns a permutation of the positions. *)
Lemma argsort_perm a : Permutation (Np.argsort a) (seq 0 (length a)).
Proof.
  unfold Np.argsort. generalize (fun i => nth i a 0%Q) as key. intros key.
  induction (seq 0 (length a)) as [| i l IH]; simpl; [constructor |].
  etransitivity; [apply insert_by_perm | apply perm_skip, IH].
Qed.

Lemma map_nth_seq {A} (l : list A) d :
  map (fun i => nth i l d) (seq 0 (length l)) = l.
Proof.
  induction l as [| x l IH]; simpl; [reflexivity |].
  rewrite <- seq_shift, map_map. simpl. rewrite IH. reflexivity.
Qed.

Lemma where_from_map {A B} (c : B -> bool) (f : A -> B) l : forall i,
  Np.where_from c i (map f l) = Np.where_from (fun x => c (f x)) i l.
Proof.
  induction l as [| x l IH]; intros i; simpl; [reflexivity |].
  rewrite IH. reflexivity.
Qed.

(** Taking the entries at the positions [np.where] reports is filtering. *)
Lemma take_where_from {A} (c : A -> bool) (l : list A) : forall pre,
  mapM (fun i => getitem (pre ++ l) (Z.of_nat i))
    (Np.where_from c (length pre) l) = Ret (filter c l).
Proof.
  induction l as [| x l IH]; intros pre; simpl; [reflexivity |].
  assert (Hrest : mapM (fun i => getitem (pre ++ x :: l) (Z.of_nat i))
                    (Np.where_from c (S (length pre)) l) = Ret (filter c l)).
  { specialize (IH (pre ++ [x])). rewrite <- app_assoc in IH. simpl in IH.
    rewrite length_app in IH. simpl in IH. rewrite Nat.add_1_r in IH. exact IH. }
  destruct (c x); simpl; [| exact Hrest].
  rewrite getitem_middle, Hrest. reflexivity.
Qed.

Lemma take_where {A} (c : A -> bool) (l : list A) :
  Np.take l (Np.where_ c l) = Ret (filter c l).
Proof. apply (take_where_from c l []). Qed.

Lemma insertZ_In x y l : In x (Np.insertZ y l) <-> x = y \/ In x l.
Proof.
  induction l as [| z l IH]; simpl; [intuition |].
  destruct (y <? z); simpl; [intuition |].
  destruct (y =? z) eqn:Heq; simpl.
  - apply Z.eqb_eq in Heq. subst. intuition.
  - rewrite IH. intuition.
Qed.

Lemma unique_In x a : In x (Np.unique a) <-> In x a.
Proof.
  induction a as [| y a IH]; simpl; [reflexivity |].
  rewrite insertZ_In, IH. intuition.
Qed.

Lemma insert_sorted_In x y l : In x (Np.insert_sorted y l) <-> x = y \/ In x l.
Proof.
  induction l as [| z l IH]; simpl; [intuition |].
  destruct (y <=? z); simpl; [intuition |].
  rewrite IH. intuition.
Qed.

Lemma sort_In x a : In x (Np.sort a) <-> In x a.
Proof.
  induction a as [| y a IH]; simpl; [reflexivity |].
  rewrite insert_sorted_In, IH. intuition.
Qed.

Lemma fold_max_upper l : forall x, x <= fold_left Z.max l x
  /\ (forall y, In y l -> y <= fold_left Z.max l x).
Proof.
  induction l as [| z l IH]; intros x; simpl; [split; [lia | intros y []] |].
  destruct (IH (Z.max x z)) as [H1 H2]. split; [lia |].
  intros y [-> | Hy]; [lia | apply H2, Hy].
Qed.

Lemma max_upper l m : Py.max l = Ret m -> forall y, In y l -> y <= m.
Proof.
  destruct l as [| x l]; simpl; [discriminate |].
  intros H. inversion H. subst. intros y [<- | Hy].
  - apply (proj1 (fold_max_upper l x)).
  - apply (proj2 (fold_max_upper l x)), Hy.
Qed.

(** A loop that only appends computes a concatenation. *)
Lemma foldM_append {A B} (l : list A) (h : A -> list B)
    (body : A -> list B -> outcome (list B)) :
  (forall x acc, In x l -> body x acc = Ret (acc ++ h x)) ->
  forall acc, foldM l body acc = Ret (acc ++ flat_map h l).
Proof.
  induction l as [| x l IH]; intros Hb acc; simpl.
  - rewrite app_nil_r. reflexivity.
  - rewrite Hb by (left; reflexivity). simpl.
    rewrite IH by (intros; apply Hb; right; assumption).
    rewrite app_assoc. reflexivity.
Qed.

Lemma mapM_map {A B} (f : A -> outcome B) (g : A -> B) l :
  (forall x, In x l -> f x = Ret (g x)) -> mapM f l = Ret (map g l).
Proof.
  induction l as [| x l IH]; intros H; simpl; [reflexivity |].
  rewrite H by (left; reflexivity). simpl.
  rewrite IH by (intros; apply H; right; assumption). reflexivity.
Qed.

Lemma where_from_NoDup {A} (c : A -> bool) (a : list A) : forall i,
  NoDup (Np.where_from c i a).
Proof.
  induction a as [| x a IH]; intros i; simpl; [constructor |].
  destruct (c x); [| apply IH].
  constructor; [| apply IH].
  intros Hin. pose proof (where_from_bounds c a (S i)) as Hb.
  rewrite Forall_forall in Hb. specialize (Hb i Hin). lia.
Qed.

Lemma filter_none {A} (c : A -> bool) (l : list A) :
  (forall y, In y l -> c y = false) -> filter c l = [].
Proof.
  induction l as [| y l IH]; intros H; simpl; [reflexivity |].
  rewrite (H y (or_introl eq_refl)). apply IH.
  intros z Hz. apply H. right. exact Hz.
Qed.

Lemma filter_singleton {A} (c : A -> bool) (l : list A) x :
  NoDup l -> In x l -> c x = true ->
  (forall y, In y l -> c y = true -> y = x) ->
  filter c l = [x].
Proof.
  induction l as [| z l IH]; intros Hnd Hin Hc Huniq; [destruct Hin |].
  inversion Hnd as [| ? ? Hz Hnd']; subst. simpl.
  destruct (c z) eqn:Hcz.
  - assert (z = x) by (apply Huniq; [left; reflexivity | exact Hcz]). subst z.
    f_equal. apply filter_none. intros y Hy.
    destruct (c y) eqn:Hcy; [| reflexivity].
    exfalso. apply Hz.
    rewrite <- (Huniq y (or_intror Hy) Hcy). exact Hy.
  - apply IH; try assumption.
    + destruct Hin as [-> | Hin]; [congruence | exact Hin].
    + intros y Hy. apply Huniq. right. exact Hy.
Qed.

(** One group is placed on the day that leaves its drilling duration
    before day 0. *)
Lemma place_group_eq drills days_before day ind acc :
  ind <> [] ->
  Forall (fun i => i < length drills)%nat ind ->
  place_group drills days_before day ind acc =
    Ret (acc ++ placed drills days_before day ind).
Proof.
  intros Hne Hin. destruct ind as [| i0 ind]; [contradiction |].
  inversion Hin as [| ? ? Hi0 _]; subst.
  unfold place_group, placed.
  change (getitem (i0 :: ind) 0) with (Ret (A := nat) i0). simpl Py.bind.
  rewrite (getitem_nth drills i0 0 Hi0). simpl Py.bind.
  destruct (days_before - day =? nth i0 drills 0); [reflexivity |].
  rewrite app_nil_r. reflexivity.
Qed.

Lemma nth_map_in_range {A B} (f : A -> B) (l : list A) i d d' :
  (i < length l)%nat -> nth i (map f l) d' = f (nth i l d).
Proof.
  intros Hi. rewrite (nth_indep _ d' (f d)) by (rewrite length_map; exact Hi).
  apply map_nth.
Qed.

(** The early sequence, computed: the early projects are put in the order
    of decreasing total, grouped by drilling duration, and each group is
    placed by the two loops. *)
Lemma sequence_before_eq (self : Projects_Planner) spuds drills totals :
  length spuds = projects_length self ->
  length drills = projects_length self ->
  length totals = projects_length self ->
  early_positions self spuds <> [] ->
  exists indxs_order days_before,
    Permutation indxs_order (early_positions self spuds)
    /\ Py.max (Np.unique (map (drill_at drills) indxs_order)) = Ret days_before
    /\ sequence_before self spuds drills totals =
         Ret (flat_map
                (fun day =>
                   flat_map (placed drills days_before day)
                     (drill_groups drills indxs_order))
                (Py.range days_before)).
Proof.
  intros Hs Hd Ht Hne.
  set (early := early_positions self spuds) in *.
  assert (Hearly : Forall (fun i => i < projects_length self)%nat early).
  { eapply Forall_impl; [| apply (where_from_bounds _ spuds 0)].
    simpl. intros i Hi. lia. }
  unfold sequence_before.
  fold (early_positions self spuds). fold early.
  rewrite (take_nth (seq 0 (projects_length self)) early 0%nat)
    by (rewrite length_seq; exact Hearly).
  rewrite (take_nth drills early 0) by (rewrite Hd; exact Hearly).
  rewrite (take_nth totals early 0%Q) by (rewrite Ht; exact Hearly).
  simpl Py.bind.
  assert (Hid : map (fun i => nth i (seq 0 (projects_length self)) 0%nat) early
                = early).
  { transitivity (map (fun i => i) early); [| apply map_id].
    apply map_ext_in. intros i Hi.
    rewrite Forall_forall in Hearly. rewrite seq_nth by (apply Hearly, Hi).
    reflexivity. }
  rewrite Hid.
  set (order := rev (Np.argsort (map (fun i => nth i totals 0%Q) early))).
  assert (Hperm : Permutation order (seq 0 (length early))).
  { unfold order. etransitivity; [symmetry; apply Permutation_rev |].
    etransitivity; [apply argsort_perm |]. rewrite length_map. reflexivity. }
  assert (Horder : Forall (fun i => i < length early)%nat order).
  { apply Forall_forall. intros i Hi.
    apply (Permutation_in _ Hperm) in Hi. apply in_seq in Hi. lia. }
  rewrite (take_nth early order 0%nat Horder).
  rewrite (take_nth (map (fun i => nth i drills 0) early) order 0)
    by (rewrite length_map; exact Horder).
  simpl Py.bind.
  set (io := map (fun i => nth i early 0%nat) order).
  assert (Hio : Permutation io early).
  { unfold io.
    pose proof (Permutation_map (fun i => nth i early 0%nat) Hperm) as Hm.
    rewrite map_nth_seq in Hm. exact Hm. }
  assert (Hdo : map (fun i => nth i (map (fun i => nth i drills 0) early) 0) order
                = map (drill_at drills) io).
  { unfold io. rewrite map_map. apply map_ext_in. intros i Hi.
    rewrite Forall_forall in Horder.
    apply (nth_map_in_range (fun i => nth i drills 0) early i 0%nat 0).
    apply Horder, Hi. }
  rewrite Hdo.
  assert (Hin_io : forall i, In i io -> (i < length drills)%nat).
  { intros i Hi. apply (Permutation_in _ Hio) in Hi.
    rewrite Forall_forall in Hearly. rewrite Hd. apply Hearly, Hi. }
  destruct (Py.max (Np.unique (map (drill_at drills) io))) as [db | e |] eqn:Hmax.
  2, 3: exfalso; destruct io as [| i0 io'] eqn:Eio;
        [ apply Hne; apply Permutation_nil; exact Hio
        | assert (Hu : In (drill_at drills i0)
                         (Np.unique (map (drill_at drills) (i0 :: io'))))
            by (apply unique_In; left; reflexivity);
          destruct (Np.unique (map (drill_at drills) (i0 :: io')));
          [destruct Hu | discriminate] ].
  exists io, db. split; [exact Hio |]. split; [exact Hmax |].
  simpl Py.bind.
  rewrite (mapM_map _ (fun dr => filter (fun i => drill_at drills i =? dr) io)).
  2: { intros dr _. unfold drill_group, Np.where_.
       rewrite where_from_map. apply take_where. }
  simpl Py.bind. fold (drill_groups drills io).
  apply (foldM_append (Py.range db)
           (fun day => flat_map (placed drills db day) (drill_groups drills io))
           (fun day => foldM (drill_groups drills io) (place_group drills db day))).
  intros day acc _.
  apply foldM_append. intros g acc' Hg.
  unfold drill_groups in Hg. apply in_map_iff in Hg.
  destruct Hg as (dr & <- & Hdr).
  apply in_rev, sort_In, unique_In, in_map_iff in Hdr.
  destruct Hdr as (i & Hi & Hini).
  apply place_group_eq.
  - intros Hnil.
    assert (Hmem : In i (filter (fun i0 => drill_at drills i0 =? dr) io)).
    { apply filter_In. split; [exact Hini | apply Z.eqb_eq, Hi]. }
    rewrite Hnil in Hmem. destruct Hmem.
  - apply Forall_forall. intros j Hj. apply filter_In in Hj.
    apply Hin_io, Hj.
Qed.

Lemma in_range day n : In day (Py.range n) <-> 0 <= day < n.
Proof.
  unfold Py.range. rewrite in_map_iff. split.
  - intros (k & <- & Hk). apply in_seq in Hk. lia.
  - intros H. exists (Z.to_nat day). split; [lia |]. apply in_seq. lia.
Qed.

(** With pairwise distinct drilling durations among the early projects,
    every group of the early sequence is one project. *)
Lemma drill_group_singleton drills io i :
  NoDup io ->
  (forall j k, In j io -> In k io ->
               drill_at drills j = drill_at drills k -> j = k) ->
  In i io ->
  filter (fun j => drill_at drills j =? drill_at drills i) io = [i].
Proof.
  intros Hnd Hdist Hi. apply filter_singleton; try assumption.
  - apply Z.eqb_refl.
  - intros y Hy Heq. apply Z.eqb_eq in Heq. apply Hdist; assumption.
Qed.

(** The early part of the ordering, when the early projects have pairwise
    distinct drilling durations of at least one day: the early sequence is
    computed, and it gives every early project, and nothing else, the offset
    [-(drill_duration)], so that its drilling ends on day 0. (Whether
    [projects_ordering] then returns depends on the late part.) *)
Lemma early_offsets_distinct_drills (self : Projects_Planner) spuds drills totals :
  length spuds = projects_length self ->
  length drills = projects_length self ->
  length totals = projects_length self ->
  early_positions self spuds <> [] ->
  (forall j k, In j (early_positions self spuds) ->
               In k (early_positions self spuds) ->
               drill_at drills j = drill_at drills k -> j = k) ->
  (forall j, In j (early_positions self spuds) -> 1 <= drill_at drills j) ->
  exists sequence,
    sequence_before self spuds drills totals = Ret sequence
    /\ forall off i,
         In (off, i) sequence <->
         In i (early_positions self spuds) /\ off = - drill_at drills i.
Proof.
  intros Hs Hd Ht Hne Hdist Hpos.
  destruct (sequence_before_eq self spuds drills totals Hs Hd Ht Hne)
    as (io & db & Hio & Hmax & Heq).
  eexists. split; [exact Heq |].
  assert (Hnd : NoDup io).
  { apply (Permutation_NoDup (Permutation_sym Hio)).
    apply where_from_NoDup. }
  assert (Hdist' : forall j k, In j io -> In k io ->
                     drill_at drills j = drill_at drills k -> j = k).
  { intros j k Hj Hk. apply Hdist; eapply Permutation_in; eassumption. }
  intros off i. rewrite in_flat_map. split.
  - intros (day & Hday & Hin). apply in_flat_map in Hin.
    destruct Hin as (g & Hg & Hin).
    unfold drill_groups in Hg. apply in_map_iff in Hg.
    destruct Hg as (dr & <- & Hdr).
    apply in_rev, sort_In, unique_In, in_map_iff in Hdr.
    destruct Hdr as (i1 & <- & Hi1).
    rewrite (drill_group_singleton drills io i1 Hnd Hdist' Hi1) in Hin.
    unfold placed in Hin. fold (drill_at drills i1) in Hin.
    destruct (db - day =? drill_at drills i1) eqn:Hd1; [| destruct Hin].
    apply Z.eqb_eq in Hd1. simpl in Hin. destruct Hin as [Hin | []].
    inversion Hin. subst. split; [eapply Permutation_in; eassumption | lia].
  - intros [Hi ->].
    assert (Hi' : In i io) by (eapply Permutation_in; [symmetry |]; eassumption).
    assert (Hle : drill_at drills i <= db).
    { apply (max_upper _ _ Hmax), unique_In, in_map, Hi'. }
    specialize (Hpos i Hi).
    exists (db - drill_at drills i). split; [apply in_range; lia |].
    apply in_flat_map.
    exists [i]. split.
    + unfold drill_groups. apply in_map_iff.
      exists (drill_at drills i). split.
      * apply drill_group_singleton; assumption.
      * apply in_rev. rewrite rev_involutive.
        apply sort_In, unique_In, in_map, Hi'.
    + unfold placed. fold (drill_at drills i).
      replace (db - (db - drill_at drills i) =? drill_at drills i) with true
        by (symmetry; apply Z.eqb_eq; lia).
      simpl. left. f_equal. lia.
Qed.

(** The late part fails when no project is late: [np.hstack] is given an
    empty list. *)
Lemma sequence_after_without_late (self : Projects_Planner) spuds drills totals :
  Np.where_ (fun y => y >=? first_year self) spuds = [] ->
  sequence_after self spuds drills totals = Raise ValueError.
Proof.
  intros H. unfold sequence_after. rewrite H. reflexivity.
Qed.

(** The early offsets on the catalog of the ordering scenario. *)
Lemma early_offsets_distinct_drills_witness :
  exists sequence,
    sequence_before Scenario.ordering_ab [1998; 1998] [2; 1] [200 # 2; 400 # 8]%Q
      = Ret sequence
    /\ forall off i,
         In (off, i) sequence <->
         In i (early_positions Scenario.ordering_ab [1998; 1998])
         /\ off = - drill_at [2; 1] i.
Proof.
  apply (early_offsets_distinct_drills Scenario.ordering_ab
           [1998; 1998] [2; 1] [200 # 2; 400 # 8]%Q).
  - reflexivity.
  - reflexivity.
  - reflexivity.
  - discriminate.
  - intros j k Hj Hk. vm_compute in Hj, Hk.
    destruct Hj as [<- | [<- | []]], Hk as [<- | [<- | []]]; vm_compute;
      intros H; first [reflexivity | discriminate H].
  - intros j Hj. vm_compute in Hj.
    destruct Hj as [<- | [<- | []]]; vm_compute; discriminate.
Defined.

(** The random first-project search does not end when no project of a
    catalog that is not empty may start: whatever the fuel, the outcome is
    [OutOfFuel]. *)
Lemma random_first_search_diverges (self : Projects_Planner) fuel s :
  first_project self = Other ->
  well_formed self ->
  none_may_start self ->
  projects self <> [] ->
  fst (search_first_project self fuel s) = OutOfFuel.
Proof. apply first_random_never_returns. Qed.

Lemma random_first_search_diverges_witness :
  fst (search_first_project Scenario.late_random 1000
         (initial_state Example.zeros)) = OutOfFuel.
Proof.
  apply (random_first_search_diverges Scenario.late_random 1000
           (initial_state Example.zeros)).
  - reflexivity.
  - apply well_formed_late_random.
  - apply none_may_start_late_random.
  - discriminate.
Defined.

Lemma next_random_raises_witness :
  is_raise (fst (search_next_project Scenario.random_next 1 1 0%Q
                   (initial_state Example.zeros)))
  /\ used_projects (snd (search_next_project Scenario.random_next 1 1 0%Q
                           (initial_state Example.zeros)))
     = used_projects (initial_state Example.zeros).
Proof.
  apply (next_random_raises Scenario.random_next 0 1 0%Q
           (initial_state Example.zeros)).
  reflexivity.
Defined.

(** The run of [Example.mixed] for 5 days ends in a state of day 5. *)
Lemma call_reachable_witness :
  reachable Trace.self
    (1 + Z.of_nat (Nat.pred (Z.to_nat (period Trace.self))))
    (snd (Projects_Planner_call Trace.self (initial_state Example.zeros))).
Proof.
  apply (call_reachable Trace.self (initial_state Example.zeros)
           [7 # 1; 17 # 1; 15 # 1; 15 # 1; 15 # 1]%Q).
  - reflexivity.
  - reflexivity.
  - vm_compute. reflexivity.
Defined.

(** The planners of the scenarios are planners the constructor returns. *)
Lemma scenarios_are_built :
  Projects_Planner_init Example.trapz Example.start 3 Example.both_early
    (Example.policies Minmax Mean) = Ret Scenario.minmax_first
  /\ Projects_Planner_init Example.trapz Example.start 3 Example.ordering_scenario
       no_kwargs = Ret Scenario.ordering_ab
  /\ Projects_Planner_init Example.trapz Example.start 3 Example.both_early
       (Example.policies Mean Other) = Ret Scenario.random_next
  /\ Projects_Planner_init Example.trapz Example.start 3 Example.all_late
       (Example.policies Minmax Mean) = Ret Scenario.late_minmax
  /\ Projects_Planner_init Example.trapz Example.start 3 Example.all_late
       (Example.policies Other Mean) = Ret Scenario.late_random
  /\ Projects_Planner_init Example.trapz Example.start 5 Example.mixed
       no_kwargs = Ret Trace.self.
Proof. vm_compute. repeat split. Qed.

(* ================================================================== *)
(** * Invariants of the execution lists *)

Lemma drop_at_Forall {A} (P : A -> Prop) pos (l : list A) : forall i,
  Forall P l -> Forall P (Np.drop_at pos i l).
Proof.
  induction l as [| x l IH]; intros i H; simpl; [constructor |].
  inversion H; subst.
  destruct (existsb (Nat.eqb i) pos); [apply IH; assumption |].
  constructor; [assumption | apply IH; assumption].
Qed.

Lemma drop_at_length {A B} pos (l : list A) (l' : list B) : forall i,
  length l = length l' ->
  length (Np.drop_at pos i l) = length (Np.drop_at pos i l').
Proof.
  revert l'. induction l as [| x l IH]; intros [| y l'] i H; simpl in *;
    try discriminate; [reflexivity |].
  destruct (existsb (Nat.eqb i) pos); simpl; rewrite (IH l') by congruence;
    reflexivity.
Qed.

Lemma drop_at_combine {A B} pos (l : list A) (l' : list B) : forall i,
  combine (Np.drop_at pos i l) (Np.drop_at pos i l') =
    Np.drop_at pos i (combine l l').
Proof.
  revert l'. induction l as [| x l IH]; intros [| y l'] i; simpl;
    try reflexivity.
  - destruct (existsb (Nat.eqb i) pos); [| reflexivity].
    destruct (Np.drop_at pos (S i) l); reflexivity.
  - destruct (existsb (Nat.eqb i) pos); simpl; rewrite IH; reflexivity.
Qed.

(** [remove_projects] from a state whose two lists have the same length:
    the subscripts are wrapped once, and both lists lose the same
    positions; a subscript out of range raises before anything changes. *)
Lemma remove_projects_eq indxs s :
  length (active_projects s) = length (projects_first_day s) ->
  remove_projects indxs s =
    match mapM (Np.normalize (length (active_projects s))) indxs with
    | Ret pos =>
        (Ret tt,
         set_active_projects (Np.drop_at pos 0 (active_projects s))
           (set_projects_first_day (Np.drop_at pos 0 (projects_first_day s)) s))
    | Raise e => (Raise e, s)
    | OutOfFuel => (OutOfFuel, s)
    end.
Proof.
  intros Hlen. unfold remove_projects, bindM, gets, lift, modify, Np.delete.
  simpl. rewrite <- Hlen.
  destruct (mapM (Np.normalize (length (active_projects s))) indxs); reflexivity.
Qed.

(** A property is kept by the methods that plan and simulate when it is
    kept by the three methods that reassign the lists, by one turn of
    [add_projects], and by the updates of the call counter, the planned
    sequence and the random source. *)
Lemma kept_by_planning_intro self (P : State -> Prop) :
  (forall day name, preserves P (add_project self day name)) ->
  preserves P clear_projects ->
  (forall indxs, preserves P (remove_projects indxs)) ->
  (forall v s, P s -> P (set_rng v s)) ->
  (forall v s, P s -> P (set_call v s)) ->
  (forall v s, P s -> P (set_projects_sequence v s)) ->
  kept_by_planning self P.
Proof.
  intros Hadd Hclear Hremove Hrng Hcall Hseq.
  assert (Hadds : forall names day, preserves P (add_projects self names day)).
  { intros names day. unfold add_projects. apply preserves_for_each.
    intros name []. apply Hadd. }
  assert (Hupdate : forall day, preserves P (update_simulatenous_projects self day)).
  { intros day. unfold update_simulatenous_projects.
    preserve_with ltac:(apply Hremove). }
  assert (Hprod : forall day, preserves P (project_production self day)).
  { intros day. unfold project_production.
    preserve_with ltac:(apply Hupdate). }
  assert (Hord : preserves P (projects_ordering self)).
  { unfold projects_ordering. preserve.
    apply preserves_modify. intros s Hs. apply Hseq, Hs. }
  unfold kept_by_planning. repeat split; try assumption.
  - intros fuel. unfold search_first_project.
    preserve_with ltac:(first [apply Hadds | apply Hrng]).
  - intros fuel day last_prod. unfold search_next_project, spud_date_of.
    preserve_with ltac:(first [apply Hadds | apply Hrng]).
    apply preserves_modify. intros s Hs. apply Hcall, Hs.
  - unfold Projects_Planner_call, start_early, simulate_day.
    preserve_with ltac:(first [apply Hadds | apply Hord | apply Hprod]).
Qed.

(** [add_project_sequence] touches the execution log only. *)
Lemma add_project_sequence_frame self (P : State -> Prop) name day :
  (forall v s, P s -> P (set_projects_time_sequence v s)) ->
  preserves P (add_project_sequence self name day).
Proof.
  intros Hlog. unfold add_project_sequence, project_of. preserve.
  apply preserves_modify. intros s Hs. apply Hlog, Hs.
Qed.

(** A property that does not read the log is kept by every method when it
    is kept as [kept_by_planning_intro] asks. *)
Lemma kept_by_methods_intro self (P : State -> Prop) :
  (forall day name, preserves P (add_project self day name)) ->
  preserves P clear_projects ->
  (forall indxs, preserves P (remove_projects indxs)) ->
  (forall v s, P s -> P (set_rng v s)) ->
  (forall v s, P s -> P (set_call v s)) ->
  (forall v s, P s -> P (set_projects_sequence v s)) ->
  (forall v s, P s -> P (set_projects_time_sequence v s)) ->
  kept_by_methods self P.
Proof.
  intros Hadd Hclear Hremove Hrng Hcall Hseq Hlog. split.
  - intros name day. apply add_project_sequence_frame, Hlog.
  - apply kept_by_planning_intro; assumption.
Qed.

Lemma drop_at_incl {A} pos (l : list A) : forall i, incl (Np.drop_at pos i l) l.
Proof.
  induction l as [| x l IH]; intros i y Hy; simpl in *; [exact Hy |].
  destruct (existsb (Nat.eqb i) pos).
  - right. apply (IH _ _ Hy).
  - destruct Hy as [-> | Hy]; [left; reflexivity | right; apply (IH _ _ Hy)].
Qed.

Lemma in_catalog_key (self : Projects_Planner) name :
  in_catalog self name -> In name (map fst (projects self)).
Proof.
  intros [p Hp]. pose proof (lookup_yields (projects self) name) as Hy.
  rewrite Hp in Hy. simpl in Hy.
  apply (in_map fst) in Hy. exact Hy.
Qed.

(** The two parallel lists stay in step. Whatever methods are called, in
    whatever order and whether they return or raise, [active_projects] and
    [projects_first_day] keep the same length, so that a position of one is
    a position of the other, and every active project is a key of the
    catalog. *)
Theorem lists_stay_consistent (self : Projects_Planner) :
  (forall random, consistent self (initial_state random))
  /\ kept_by_methods self (consistent self).
Proof.
  split; [intros random; split; [reflexivity | constructor] |].
  apply kept_by_methods_intro.
  - intros day name s [Hlen Hcat]. rewrite add_project_eq.
    destruct (Np.contains (used_projects s) name); [split; assumption |].
    destruct (lookup (projects self) name) as [p | e |] eqn:Hp;
      try (split; assumption).
    destruct (Mdates.in_calendar (first_day self + day - drill p));
      [| split; assumption].
    unfold consistent. simpl. rewrite !length_app. simpl. split; [lia |].
    apply Forall_app. split; [exact Hcat |].
    constructor; [exists p; exact Hp | constructor].
  - intros s _. split; [reflexivity | constructor].
  - intros indxs s [Hlen Hcat]. rewrite (remove_projects_eq indxs s Hlen).
    destruct (mapM _ indxs) as [pos | e |]; try (split; assumption).
    unfold consistent. simpl. split.
    + apply drop_at_length, Hlen.
    + apply drop_at_Forall, Hcat.
  - intros v s H. exact H.
  - intros v s H. exact H.
  - intros v s H. exact H.
  - intros v s H. exact H.
Qed.

(** Only projects of the catalog are ever used: whatever methods are
    called, every used project is a key of the catalog; with the absence of
    duplicates, the used list is never longer than the catalog. *)
Theorem used_projects_within_catalog (self : Projects_Planner) :
  (forall random, used_in_catalog self (initial_state random))
  /\ kept_by_methods self (used_in_catalog self)
  /\ (forall s, no_dup s -> used_in_catalog self s ->
                (length (used_projects s) <= length (projects self))%nat).
Proof.
  split; [intros random; constructor |]. split.
  - apply kept_by_methods_intro.
    + intros day name s H. rewrite add_project_eq.
      destruct (Np.contains (used_projects s) name); [exact H |].
      destruct (lookup (projects self) name) as [p | e |] eqn:Hp; try exact H.
      destruct (Mdates.in_calendar (first_day self + day - drill p));
        [| exact H].
      unfold used_in_catalog. simpl. apply Forall_app. split; [exact H |].
      constructor; [exists p; exact Hp | constructor].
    + intros s _. constructor.
    + intros indxs. unfold remove_projects. preserve.
      all: apply preserves_modify; intros s H; exact H.
    + intros v s H. exact H.
    + intros v s H. exact H.
    + intros v s H. exact H.
    + intros v s H. exact H.
  - intros s Hnd Hcat. rewrite <- (length_map fst (projects self)).
    apply NoDup_incl_length; [exact Hnd |].
    intros name Hname. apply in_catalog_key.
    unfold used_in_catalog in Hcat. rewrite Forall_forall in Hcat.
    apply Hcat, Hname.
Qed.

(** Every active project is a used one, whatever methods are called. *)
Theorem active_projects_are_used (self : Projects_Planner) :
  (forall random, active_are_used (initial_state random))
  /\ kept_by_methods self active_are_used.
Proof.
  split; [intros random name []|].
  apply kept_by_methods_intro.
  - intros day name s H. rewrite add_project_eq.
    destruct (Np.contains (used_projects s) name); [exact H |].
    destruct (lookup (projects self) name) as [p | e |]; try exact H.
    destruct (Mdates.in_calendar (first_day self + day - drill p));
      [| exact H].
    unfold active_are_used. simpl. intros x Hx.
    apply in_app_or in Hx. apply in_or_app.
    destruct Hx as [Hx | Hx]; [left; apply H, Hx | right; exact Hx].
  - intros s _ name [].
  - intros indxs s H.
    unfold remove_projects, bindM, gets, lift, modify, Np.delete. simpl.
    destruct (mapM (Np.normalize (length (projects_first_day s))) indxs);
      simpl; try exact H.
    destruct (mapM (Np.normalize (length (active_projects s))) indxs);
      simpl; try exact H.
    unfold active_are_used. simpl. intros x Hx.
    apply H. eapply drop_at_incl, Hx.
  - intros v s H. exact H.
  - intros v s H. exact H.
  - intros v s H. exact H.
  - intros v s H. exact H.
Qed.

(** The execution log outlives the used list. The methods that plan and
    simulate keep the names of the log ending with the used list, in the
    same order; what precedes are the projects used before a
    [clear_projects]. [add_project_sequence] called on its own appends to
    the log alone, and breaks this unless the name it is given is the last
    used one; what every method keeps, that one included, is that every used
    project has an entry in the log. *)
Theorem log_names_end_with_used (self : Projects_Planner) :
  (forall random, log_ends_with_used (initial_state random))
  /\ kept_by_planning self log_ends_with_used
  /\ (forall s, log_ends_with_used s -> used_are_logged s)
  /\ kept_by_methods self used_are_logged
  /\ (forall name day s s',
        used_projects s <> [] ->
        last (used_projects s) EmptyString <> name ->
        add_project_sequence self name day s = (Ret tt, s') ->
        ~ log_ends_with_used s').
Proof.
  split; [intros random; exists []; reflexivity |].
  split; [| split; [| split]].
  - apply kept_by_planning_intro.
    + intros day name s [cleared H]. rewrite add_project_eq.
      destruct (Np.contains (used_projects s) name); [exists cleared; exact H |].
      destruct (lookup (projects self) name) as [p | e |];
        try (exists cleared; exact H).
      destruct (Mdates.in_calendar (first_day self + day - drill p));
        [| exists cleared; exact H].
      exists cleared. simpl. rewrite map_app, H, app_assoc. reflexivity.
    + intros s _. exists (map snd (projects_time_sequence s)). simpl.
      rewrite app_nil_r. reflexivity.
    + intros indxs. unfold remove_projects. preserve.
      all: apply preserves_modify; intros s H; exact H.
    + intros v s H. exact H.
    + intros v s H. exact H.
    + intros v s H. exact H.
  - intros s [cleared H] name Hname. unfold used_are_logged.
    rewrite H. apply in_or_app. right. exact Hname.
  - split.
    + intros name day. unfold add_project_sequence, project_of. preserve.
      apply preserves_modify. intros s H x Hx. simpl.
      rewrite map_app. apply in_or_app. left. apply H, Hx.
    + apply kept_by_planning_intro.
      * intros day name s H. rewrite add_project_eq.
        destruct (Np.contains (used_projects s) name); [exact H |].
        destruct (lookup (projects self) name) as [p | e |]; try exact H.
        destruct (Mdates.in_calendar (first_day self + day - drill p));
          [| exact H].
        unfold used_are_logged. simpl. intros x Hx. rewrite map_app.
        apply in_app_or in Hx. apply in_or_app.
        destruct Hx as [Hx | Hx]; [left; apply H, Hx | right; exact Hx].
      * intros s _ name [].
      * intros indxs. unfold remove_projects. preserve.
        all: apply preserves_modify; intros s H; exact H.
      * intros v s H. exact H.
      * intros v s H. exact H.
      * intros v s H. exact H.
  - intros name day s s' Hne Hlast Hadd [cleared H].
    unfold add_project_sequence, project_of, bindM, lift, modify,
      Mdates.num2date in Hadd.
    destruct (lookup (projects self) name) as [p | e |]; try discriminate.
    destruct (Mdates.in_calendar (first_day self + day - drill p));
      [| discriminate].
    inversion Hadd; subst s'; clear Hadd. simpl in H.
    rewrite map_app in H. simpl in H.
    destruct (exists_last Hne) as (used' & x & Hused).
    rewrite Hused in H, Hlast. rewrite last_last in Hlast.
    rewrite app_assoc in H. apply app_inj_tail in H.
    destruct H as [_ H]. congruence.
Qed.

(* ================================================================== *)
(** * When [add_projects] returns *)

Lemma add_projects_ret_inv self day names : forall s s',
  add_projects self names day s = (Ret tt, s') ->
  NoDup names
  /\ (forall q, In q names -> ~ In q (used_projects s))
  /\ Forall (in_catalog self) names
  /\ forallb (dated self day) names = true
  /\ s' = added_all self day names s.
Proof.
  induction names as [| name names IH]; intros s s' H.
  - rewrite add_projects_nil in H. inversion H. subst.
    repeat split; [constructor | intros q [] | constructor].
  - rewrite add_projects_cons, add_project_eq in H.
    destruct (Np.contains (used_projects s) name) eqn:Hc; [discriminate |].
    apply contains_not_In in Hc.
    destruct (lookup (projects self) name) as [p | e |] eqn:Hp;
      try discriminate.
    destruct (Mdates.in_calendar (first_day self + day - drill p)) eqn:Hd;
      [| discriminate].
    apply IH in H. destruct H as (Hnd & Hfresh & Hcat & Hdated & ->).
    simpl in Hfresh. repeat split.
    + constructor; [| exact Hnd].
      intros Hin. apply (Hfresh name Hin), in_or_app. right. left. reflexivity.
    + intros q [<- | Hq]; [exact Hc |].
      intros Hu. apply (Hfresh q Hq), in_or_app. left. exact Hu.
    + constructor; [exists p; exact Hp | exact Hcat].
    + simpl. unfold dated at 1. rewrite Hp, Hd. exact Hdated.
    + simpl. rewrite Hp. reflexivity.
Qed.

(** [add_projects] returns exactly when the names it is given are all
    different, none of them is used, all are keys of the catalog, and the
    execution date of each, [first_day + day - drill], is a date of the
    calendar; the state it leaves is then the one where the names have been
    appended, in their order, to the used and active lists with the start
    day, and their entries to the log. *)
Theorem add_projects_returns_iff self names day s s' :
  add_projects self names day s = (Ret tt, s')
  <-> NoDup names
      /\ (forall q, In q names -> ~ In q (used_projects s))
      /\ Forall (in_catalog self) names
      /\ forallb (dated self day) names = true
      /\ s' = added_all self day names s.
Proof.
  split; [apply add_projects_ret_inv |].
  intros (Hnd & Hfresh & Hcat & Hdated & ->).
  rewrite <- (app_nil_r names) at 1.
  rewrite add_projects_prefix by assumption. rewrite Hdated. reflexivity.
Qed.

(** A name that is not a key of the catalog stops [add_projects] with
    KeyError; as with a used name, the names before it stay added. This is
    so when the execution dates of the names before it are dates of the
    calendar; when one is not, the call stops earlier, at the first such
    name, with ValueError, and the names before that one stay added. *)
Theorem add_projects_unknown_project self day pre p rest s :
  Forall (in_catalog self) pre ->
  NoDup pre ->
  (forall q, In q pre -> ~ In q (used_projects s)) ->
  ~ In p (used_projects s ++ pre) ->
  ~ in_catalog self p ->
  add_projects self (pre ++ p :: rest) day s =
    (Raise (if forallb (dated self day) pre then KeyError else ValueError),
     added_all self day (before_undated self day pre) s)
  /\ used_projects (added_all self day (before_undated self day pre) s)
     = used_projects s ++ before_undated self day pre
  /\ (forallb (dated self day) pre = true ->
      before_undated self day pre = pre).
Proof.
  intros Hcat Hnd Hfresh Hnew Hunknown.
  destruct (used_added_all self day (before_undated self day pre) s
              (before_undated_Forall self day _ pre Hcat)) as (Hu & _).
  split; [| split; [exact Hu | apply before_undated_all]].
  rewrite add_projects_prefix by assumption.
  destruct (forallb (dated self day) pre) eqn:Hdated; [| reflexivity].
  rewrite (before_undated_all self day pre Hdated) in *.
  rewrite add_projects_cons, add_project_eq.
  assert (Hc : Np.contains (used_projects (added_all self day pre s)) p = false)
    by (apply contains_not_In; rewrite Hu; exact Hnew).
  rewrite Hc.
  pose proof (lookup_yields (projects self) p) as Hy.
  destruct (lookup (projects self) p) as [v | e |] eqn:Hl; simpl in Hy.
  - exfalso. apply Hunknown. exists v. exact Hl.
  - subst e. reflexivity.
  - destruct Hy.
Qed.

Lemma add_projects_unknown_project_witness :
  add_projects Trace.self (["A"%string] ++ "Z"%string :: ["B"%string]) 0
    (initial_state Example.zeros) =
    (Raise KeyError,
     added_all Trace.self 0 ["A"%string] (initial_state Example.zeros))
  /\ used_projects
       (added_all Trace.self 0 ["A"%string] (initial_state Example.zeros)) =
     used_projects (initial_state Example.zeros) ++ ["A"%string].
Proof.
  destruct (add_projects_unknown_project Trace.self 0 ["A"%string] "Z"%string
              ["B"%string] (initial_state Example.zeros))
    as (Hraise & Hused & _).
  - repeat constructor. eexists. vm_compute. reflexivity.
  - repeat constructor. intros [].
  - intros q _ [].
  - simpl. intros [H | []]. discriminate H.
  - intros [p Hp]. vm_compute in Hp. discriminate Hp.
  - split; [exact Hraise | exact Hused].
Defined.

(* ================================================================== *)
(** * Removing active projects by position *)

Lemma normalize_eq n i :
  Np.normalize n i =
    if valid_subscript n i then Ret (wrap n i) else Raise IndexError.
Proof.
  unfold Np.normalize, valid_subscript, wrap.
  destruct (i <? 0) eqn:Hneg.
  - apply Z.ltb_lt in Hneg.
    replace (i + Z.of_nat n <? Z.of_nat n) with true
      by (symmetry; apply Z.ltb_lt; lia).
    replace (i <? Z.of_nat n) with true by (symmetry; apply Z.ltb_lt; lia).
    rewrite !andb_true_r.
    destruct (0 <=? i + Z.of_nat n) eqn:H1, (- Z.of_nat n <=? i) eqn:H2;
      try reflexivity;
      [apply Z.leb_le in H1; apply Z.leb_gt in H2
      | apply Z.leb_gt in H1; apply Z.leb_le in H2]; lia.
  - apply Z.ltb_ge in Hneg.
    replace (0 <=? i) with true by (symmetry; apply Z.leb_le; lia).
    replace (- Z.of_nat n <=? i) with true by (symmetry; apply Z.leb_le; lia).
    reflexivity.
Qed.

Lemma mapM_normalize_eq n indxs :
  mapM (Np.normalize n) indxs =
    if forallb (valid_subscript n) indxs then Ret (map (wrap n) indxs)
    else Raise IndexError.
Proof.
  induction indxs as [| i indxs IH]; simpl; [reflexivity |].
  rewrite normalize_eq. destruct (valid_subscript n i); simpl; [| reflexivity].
  rewrite IH. destruct (forallb (valid_subscript n) indxs); reflexivity.
Qed.

Lemma drop_at_without {A} pos (l : list A) : forall i,
  Np.drop_at pos i l =
    map snd
      (filter (fun kp => negb (existsb (Nat.eqb (fst kp)) pos))
         (combine (seq i (length l)) l)).
Proof.
  induction l as [| x l IH]; intros i; simpl; [reflexivity |].
  destruct (existsb (Nat.eqb i) pos); simpl; rewrite IH; reflexivity.
Qed.

(** [remove_projects], from a state whose two lists are in step. When every
    subscript is valid ([-n <= i < n], a negative one counting from the end),
    it returns and the active pairs left are those whose position is not
    named, in their order and still paired with their own start day; the
    used list and the log are untouched. When a subscript is out of range it
    raises IndexError and the state is unchanged. *)
Theorem remove_projects_keeps_pairs indxs s :
  length (active_projects s) = length (projects_first_day s) ->
  if forallb (valid_subscript (length (active_projects s))) indxs
  then
    exists s',
      remove_projects indxs s = (Ret tt, s')
      /\ active_pairs s' =
           without_positions
             (map (wrap (length (active_projects s))) indxs) (active_pairs s)
      /\ length (active_projects s') = length (projects_first_day s')
      /\ used_projects s' = used_projects s
      /\ projects_time_sequence s' = projects_time_sequence s
  else remove_projects indxs s = (Raise IndexError, s).
Proof.
  intros Hlen. rewrite (remove_projects_eq indxs s Hlen), mapM_normalize_eq.
  destruct (forallb _ indxs); [| reflexivity].
  eexists. split; [reflexivity |]. simpl. repeat split.
  - unfold active_pairs. simpl. rewrite drop_at_combine.
    apply drop_at_without.
  - apply drop_at_length, Hlen.
Qed.

(** Removing the last pair by the subscript [-1], in the run [Trace]. *)
Lemma remove_projects_keeps_pairs_witness :
  if forallb (valid_subscript (length (active_projects Trace.day0))) [-1]
  then
    exists s',
      remove_projects [-1] Trace.day0 = (Ret tt, s')
      /\ active_pairs s' =
           without_positions
             (map (wrap (length (active_projects Trace.day0))) [-1])
             (active_pairs Trace.day0)
      /\ length (active_projects s') = length (projects_first_day s')
      /\ used_projects s' = used_projects Trace.day0
      /\ projects_time_sequence s' = projects_time_sequence Trace.day0
  else remove_projects [-1] Trace.day0 = (Raise IndexError, Trace.day0).
Proof.
  apply (remove_projects_keeps_pairs [-1] Trace.day0). reflexivity.
Defined.

(* ================================================================== *)
(** * The production of a day *)

(** The summing loop of [project_production], on pairs that have a sample
    for [day]. *)
Lemma production_loop self day s : forall acts fs pre_f temp,
  projects_first_day s = pre_f ++ fs ->
  length acts = length fs ->
  Forall (in_catalog self) acts ->
  Forall (fun ns => snd ns <= day < snd ns + curve_length self (fst ns))
    (combine acts fs) ->
  for_each (combine (seq (length pre_f) (length acts)) acts)
    (production_step self day) temp s =
  (Ret (fold_left Qplus (map (sample self day) (combine acts fs)) temp), s).
Proof.
  induction acts as [| a acts IH]; intros fs pre_f temp Hf Hlen Hcat Hin.
  - reflexivity.
  - destruct fs as [| d fs]; [discriminate |].
    inversion Hcat as [| ? ? [p Hp] Hcat']; subst.
    simpl combine in *. inversion Hin as [| ? ? Hd Hin']; subst.
    simpl in Hd. unfold curve_length in Hd. rewrite Hp in Hd.
    simpl for_each.
    assert (Hstep : production_step self day (length pre_f, a) temp s =
              (Ret (temp + sample self day (a, d))%Q, s)).
    { unfold production_step, bindM, gets, lift, project_of, ret. simpl.
      rewrite Hf, getitem_middle, Hp.
      replace (day - d) with (Z.of_nat (Z.to_nat (day - d))) at 1 by lia.
      rewrite (getitem_nth (effective p) (Z.to_nat (day - d)) 0%Q) by lia.
      unfold sample. simpl. rewrite Hp. reflexivity. }
    rewrite (bindM_ret _ _ _ _ _ Hstep).
    replace (S (length pre_f)) with (length (pre_f ++ [d]))
      by (rewrite length_app; simpl; lia).
    rewrite (IH fs (pre_f ++ [d])).
    + reflexivity.
    + rewrite <- app_assoc. exact Hf.
    + simpl in Hlen. congruence.
    + exact Hcat'.
    + exact Hin'.
Qed.

(** In every state of the day-by-day simulation [project_production]
    returns: no subscript leaves a curve. It leaves the state of the update
    of the day, and its value is the sum, over the pairs still active, of the
    sample of the project's effective production for the day. *)
Theorem production_in_simulation self day s :
  reachable self day s ->
  project_production self day s =
    (Ret (Np.sum (map (sample self day) (active_pairs (updated self day s)))),
     updated self day s).
Proof.
  intros Hr. pose proof (reachable_due self day s Hr) as Hdue.
  pose proof (producing_updated self day s Hdue) as [[Hlen Hcat] Hprod].
  unfold project_production.
  rewrite (bindM_ret _ _ _ _ _ (update_eq self day s (proj1 Hdue))).
  unfold bindM at 1. unfold gets at 1. unfold enumerate.
  apply (production_loop self day (updated self day s)
           (active_projects (updated self day s))
           (projects_first_day (updated self day s)) [] 0%Q eq_refl Hlen Hcat
           Hprod).
Qed.

(** The production of day 2 of the run [Trace]. *)
Lemma production_in_simulation_witness :
  project_production Trace.self (0 + 1 + 1) Trace.day2 =
    (Ret (Np.sum (map (sample Trace.self (0 + 1 + 1))
                    (active_pairs (updated Trace.self (0 + 1 + 1) Trace.day2)))),
     updated Trace.self (0 + 1 + 1) Trace.day2).
Proof.
  apply (production_in_simulation Trace.self (0 + 1 + 1) Trace.day2).
  apply (reach_production Trace.self (0 + 1) Trace.day1 (7 # 1)%Q);
    [| vm_compute; reflexivity].
  apply (reach_production Trace.self 0 Trace.day0 (7 # 1)%Q);
    [| vm_compute; reflexivity].
  apply (reach_add Trace.self 0 (initial_state Example.zeros) ["C"%string]);
    [| vm_compute; reflexivity].
  apply reach_start; reflexivity.
Defined.

(* ================================================================== *)
(** * What the searches add *)

(** A search loop that returns has accepted its last candidate. *)
Lemma while_found {L} (body : L -> M (bool * L)) fuel : forall l s l' s',
  while_not_found fuel body l s = (Ret l', s') ->
  exists l0 s0, body l0 s0 = (Ret (true, l'), s').
Proof.
  induction fuel as [| fuel IH]; intros l s l' s' H; simpl in H;
    [discriminate |].
  apply bindM_ret_inv in H. destruct H as ([found l1] & s1 & Hb & H).
  simpl in H. destruct found.
  - inversion H. subst. exists l, s. exact Hb.
  - apply IH in H. exact H.
Qed.

Lemma mapM_ret_Forall2 {A B} (f : A -> outcome B) l : forall ys,
  mapM f l = Ret ys -> Forall2 (fun x y => f x = Ret y) l ys.
Proof.
  induction l as [| x l IH]; intros ys H; simpl in H.
  - inversion H. constructor.
  - apply bind_ret_inv in H. destruct H as (y & Hy & H).
    apply bind_ret_inv in H. destruct H as (ys' & Hys & H).
    inversion H. subst. constructor; [exact Hy | apply IH, Hys].
Qed.

Lemma added_all_one (self : Projects_Planner) day name p s :
  lookup (projects self) name = Ret p ->
  added_all self day [name] s = added self day name p s.
Proof. intros H. simpl. rewrite H. reflexivity. Qed.

(** The loops of the ranked and random searches leave the lists alone. *)
Lemma search_loops_frame (self : Projects_Planner) s0 :
  (forall fuel sort loc,
     preserves (same_lists s0)
       (while_not_found fuel (first_minmax_body self sort) loc))
  /\ (forall fuel combs sort loc,
        preserves (same_lists s0)
          (while_not_found fuel (first_mean_body self combs sort) loc))
  /\ (forall fuel loc,
        preserves (same_lists s0)
          (while_not_found fuel (first_random_body self) loc))
  /\ (forall fuel cd cy ord loc,
        preserves (same_lists s0)
          (while_not_found fuel (next_mean_body self cd cy ord) loc)).
Proof.
  split; [| split; [| split]]; intros; apply preserves_while; intros l.
  - unfold first_minmax_body. cbv zeta. preserve.
  - unfold first_mean_body. cbv zeta. preserve.
  - unfold first_random_body. preserve.
  - unfold next_mean_body, spud_date_of. cbv zeta. preserve.
Qed.

Lemma first_random_body_ret self loc s found name s' :
  first_random_body self loc s = (Ret (found, name), s') ->
  exists p, lookup (projects self) name = Ret p
            /\ found = (spud p <? first_year self).
Proof.
  unfold first_random_body, bindM, random_choice, lift, project_of, ret.
  destruct (projects_length self); [discriminate |].
  destruct (getitem _ _) as [nm | e |]; try discriminate.
  destruct (lookup (projects self) nm) as [p | e |] eqn:Hp; try discriminate.
  simpl. intros H. inversion H. subst. exists p. split; [exact Hp | reflexivity].
Qed.

Lemma spud_years_early (self : Projects_Planner) names spud_years :
  mapM (fun name =>
          Py.bind (lookup (projects self) name) (fun p => Ret (spud p))) names
    = Ret spud_years ->
  forallb (fun y => y <? first_year self) spud_years = true ->
  Forall (fun name => exists p, lookup (projects self) name = Ret p
                                /\ spud p < first_year self) names.
Proof.
  intros Hm Hall. apply mapM_ret_Forall2 in Hm.
  rewrite forallb_forall in Hall.
  induction Hm as [| name y names ys Hy _ IH]; [constructor |].
  constructor.
  - apply bind_ret_inv in Hy. destruct Hy as (p & Hp & Hy).
    inversion Hy. subst. exists p. split; [exact Hp |].
    apply Z.ltb_lt, Hall. left. reflexivity.
  - apply IH. intros z Hz. apply Hall. right. exact Hz.
Qed.

(** Whatever the first-project policy, when [search_first_project] returns
    it has added, with start day 0, projects of the catalog that were not
    used and that pass the spud-year test of the policy
    ([spud <= first_year] for ['minmax'], [spud < first_year] for the two
    others) and nothing else has changed but the random source; ['minmax']
    and the random policy add exactly one project. *)
Theorem first_search_adds_feasible (self : Projects_Planner) fuel s s' :
  search_first_project self fuel s = (Ret tt, s') ->
  exists names s1,
    same_lists s s1
    /\ s' = added_all self 0 names s1
    /\ NoDup names
    /\ (forall q, In q names -> ~ In q (used_projects s))
    /\ Forall (fun name => exists p, lookup (projects self) name = Ret p
                                     /\ may_start_first self p) names
    /\ match first_project self with
       | Mean => True
       | _ => length names = 1%nat
       end.
Proof.
  intros H. unfold search_first_project in H. unfold may_start_first.
  destruct (search_loops_frame self s) as (Fminmax & Fmean & Frandom & _).
  destruct (first_project self).
  - (* mean *)
    apply bindM_ret_inv in H. destruct H as ([combs_ind combs_sum] & s1 & Hd & H).
    apply bindM_ret_inv in H. destruct H as (loc & s2 & Hw & H).
    pose proof (draw_loop_frame s self (Py.range (initial_iters self))
                  ([], []) s (same_lists_refl s)) as Hs1.
    rewrite Hd in Hs1. simpl in Hs1.
    match type of Hw with
    | while_not_found _ (first_mean_body _ _ ?srt) _ _ = _ =>
        pose proof (Fmean fuel combs_ind srt (0, []) s1 Hs1) as Hs2
    end.
    rewrite Hw in Hs2. simpl in Hs2.
    apply while_found in Hw. destruct Hw as ([n0 x0] & s0 & Hb).
    rewrite first_mean_body_eq in Hb.
    destruct (getitem _ n0); try discriminate.
    destruct (getitem combs_ind _); try discriminate.
    destruct (mapM _ _) as [names | |]; try discriminate.
    destruct (mapM _ names) as [spud_years | |] eqn:Hy; try discriminate.
    inversion Hb. subst. clear Hb. simpl in H.
    apply add_projects_ret_inv in H.
    destruct H as (Hnd & Hfresh & _ & _ & ->).
    exists names, s2. repeat split; try apply Hs2; try assumption.
    + intros q Hq. destruct Hs2 as (_ & <- & _). apply Hfresh, Hq.
    + eapply spud_years_early; eassumption.
  - (* minmax *)
    apply bindM_ret_inv in H. destruct H as (loc & s1 & Hw & H).
    match type of Hw with
    | while_not_found _ (first_minmax_body _ ?srt) _ _ = _ =>
        pose proof (Fminmax fuel srt (-1, EmptyString) s (same_lists_refl s))
          as Hs1
    end.
    rewrite Hw in Hs1. simpl in Hs1.
    apply while_found in Hw. destruct Hw as ([n0 x0] & s0 & Hb).
    rewrite first_minmax_body_eq in Hb.
    destruct (getitem _ n0); try discriminate.
    destruct (getitem (order_projects_names_abs self) _) as [name | |];
      try discriminate.
    destruct (lookup (projects self) name) as [p | |] eqn:Hp; try discriminate.
    inversion Hb. subst. clear Hb. simpl in H.
    apply add_projects_ret_inv in H.
    destruct H as (Hnd & Hfresh & _ & _ & ->).
    exists [name], s1. repeat split; try apply Hs1; try assumption.
    + intros q Hq. destruct Hs1 as (_ & <- & _). apply Hfresh, Hq.
    + constructor; [| constructor]. exists p. split; [exact Hp |].
      apply Z.leb_le. first [assumption | symmetry; assumption].
  - (* random *)
    apply bindM_ret_inv in H. destruct H as (name & s1 & Hw & H).
    pose proof (Frandom fuel EmptyString s (same_lists_refl s)) as Hs1.
    rewrite Hw in Hs1. simpl in Hs1.
    apply while_found in Hw. destruct Hw as (x0 & s0 & Hb).
    apply first_random_body_ret in Hb. destruct Hb as (p & Hp & Hfound).
    apply add_projects_ret_inv in H.
    destruct H as (Hnd & Hfresh & _ & _ & ->).
    exists [name], s1. repeat split; try apply Hs1; try assumption.
    + intros q Hq. destruct Hs1 as (_ & <- & _). apply Hfresh, Hq.
    + constructor; [| constructor]. exists p. split; [exact Hp |].
      apply Z.ltb_lt. symmetry. exact Hfound.
Qed.

(** The ['minmax'] search of [Scenario.minmax_first], which returns. *)
Lemma first_search_adds_feasible_witness :
  exists names s1,
    same_lists (initial_state Example.zeros) s1
    /\ snd (search_first_project Scenario.minmax_first 3
              (initial_state Example.zeros))
       = added_all Scenario.minmax_first 0 names s1
    /\ NoDup names
    /\ (forall q, In q names ->
                  ~ In q (used_projects (initial_state Example.zeros)))
    /\ Forall (fun name =>
                 exists p, lookup (projects Scenario.minmax_first) name = Ret p
                           /\ may_start_first Scenario.minmax_first p) names
    /\ match first_project Scenario.minmax_first with
       | Mean => True
       | _ => length names = 1%nat
       end.
Proof.
  apply (first_search_adds_feasible Scenario.minmax_first 3
           (initial_state Example.zeros)).
  vm_compute. reflexivity.
Defined.

Lemma next_minmax_body_raises self step cd cy ord loc s :
  is_raise (fst (next_minmax_body self step cd cy ord loc s))
  /\ snd (next_minmax_body self step cd cy ord loc s) = s.
Proof.
  unfold next_minmax_body, spud_date_of, bindM, lift, project_of, raise, ret,
    Mdates.num2date. simpl.
  pose proof (getitem_returns_or_raises ord (fst loc)) as Hg.
  destruct (getitem ord (fst loc)) as [name | e |]; simpl;
    [| split; [exact I | reflexivity] | contradiction].
  pose proof (lookup_returns_or_raises (projects self) name) as Hl.
  destruct (lookup (projects self) name) as [p | e |]; simpl;
    [| split; [exact I | reflexivity] | contradiction].
  destruct (Mdates.in_calendar (cd - drill p)); simpl;
    split; try exact I; reflexivity.
Qed.

Lemma next_random_body_raises self left loc s :
  fst (next_random_body self left loc s) <> Ret (true, loc)
  /\ forall r, fst (next_random_body self left loc s) <> Ret r.
Proof.
  unfold next_random_body, bindM, random_choice, lift, project_of, raise.
  destruct (length left); simpl; [split; [| intros r]; discriminate |].
  destruct (getitem _ _) as [name | e |]; simpl;
    try (split; [| intros r]; discriminate).
  destruct (lookup (projects self) name); simpl;
    split; try intros r; discriminate.
Qed.

(** The ['minmax'] next-project search never selects. With fuel for one
    turn of its loop it raises: IndexError when no project is unused, and
    otherwise ValueError when the drilling date of the candidate is outside
    the calendar, or else on the local name [spud_year], which the branch
    reads and never assigns. The call counter has nevertheless been
    incremented, and nothing else has changed; only when the current day
    itself is outside the calendar does the call fail before the counter,
    and leave the state as it was. *)
Theorem next_minmax_always_fails (self : Projects_Planner) fuel day last_prod s :
  next_project self = Minmax ->
  is_raise (fst (search_next_project self (S fuel) day last_prod s))
  /\ snd (search_next_project self (S fuel) day last_prod s)
     = if Mdates.in_calendar (first_day self + day)
       then set_call (call s + 1) s else s.
Proof.
  intros Hp.
  assert (H : exists e, search_next_project self (S fuel) day last_prod s =
                        (Raise e,
                         if Mdates.in_calendar (first_day self + day)
                         then set_call (call s + 1) s else s)).
  { unfold search_next_project. rewrite Hp.
    unfold bindM at 1. unfold lift at 1. unfold Mdates.num2date.
    destruct (Mdates.in_calendar (first_day self + day));
      [| exists ValueError; reflexivity].
    cbv beta iota.
    erewrite bindM_ret; [| reflexivity].
    erewrite bindM_ret; [| reflexivity].
    pose proof (take_yields
      (Np.compress (map negb (Np.in1d (projects_names self) (used_projects s)))
         (projects_names self))
      (Np.argsort
         (Np.compress
            (map negb (Np.in1d (projects_names self) (used_projects s)))
            (max_project_prod self)))) as Hy.
    destruct (Np.take _ _) as [ord | e |] eqn:Htake; simpl in Hy;
      [| exists e; reflexivity | destruct Hy].
    erewrite bindM_ret; [| reflexivity].
    erewrite bindM_ret; [| reflexivity].
    cbn [call set_call].
    destruct ((call s + 1) mod 2 =? 0); simpl while_not_found;
      match goal with
      | |- context [next_minmax_body ?sf ?st ?cd ?cy ?o ?l] =>
          destruct (next_minmax_body_raises sf st cd cy o l
                      (set_call (call s + 1) s)) as [Hr Hs];
          destruct (next_minmax_body sf st cd cy o l (set_call (call s + 1) s))
            as [[r | e |] s1] eqn:Hb;
          simpl in Hr, Hs; try contradiction; subst s1;
          exists e;
          erewrite bindM_raise; [reflexivity |];
          erewrite bindM_raise; [reflexivity | exact Hb]
      end. }
  destruct H as [e ->]. split; [exact I | reflexivity].
Qed.

Lemma next_mean_loop_frame (self : Projects_Planner) s fuel cd cy ord loc :
  preserves (fun x => x = s)
    (while_not_found fuel (next_mean_body self cd cy ord) loc).
Proof.
  apply preserves_while. intros l.
  unfold next_mean_body, spud_date_of. cbv zeta. preserve.
Qed.

(** [search_next_project] returns only under the ['mean'] policy, and then
    it has added, with the current day as start day and changing nothing
    else, one project of the catalog that was not used and whose drilling
    window contains the current year:
    [spud_year <= current_year <= year(current_day - drill)]. *)
Theorem next_search_adds_feasible (self : Projects_Planner) fuel day last_prod
    s s' :
  search_next_project self fuel day last_prod s = (Ret tt, s') ->
  next_project self = Mean
  /\ exists name p,
       In name (projects_names self)
       /\ ~ In name (used_projects s)
       /\ lookup (projects self) name = Ret p
       /\ within_drilling (first_day self + day)
            (Mdates.year (Mdates.civil (first_day self + day)))
            (spud p) p = true
       /\ s' = added self day name p s.
Proof.
  intros H. unfold search_next_project in H.
  apply bindM_ret_inv in H. destruct H as (today & s0 & Htoday & H).
  unfold lift, Mdates.num2date in Htoday.
  destruct (Mdates.in_calendar (first_day self + day)); [| discriminate].
  inversion Htoday. subst. clear Htoday.
  apply bindM_ret_inv in H. destruct H as (used & s0' & Hused & H).
  inversion Hused. subst. clear Hused. rename s0' into s0.
  destruct (next_project self).
  - split; [reflexivity |].
    apply bindM_ret_inv in H. destruct H as (ord & s1 & Hord & H).
    unfold lift in Hord. inversion Hord as [[Htake Hs]]. subst s1. clear Hord.
    apply bindM_ret_inv in H. destruct H as (loc & s2 & Hw & H).
    pose proof (next_mean_loop_frame self s0 fuel (first_day self + day)
                  (Mdates.year (Mdates.civil (first_day self + day)))
                  ord (0, EmptyString) s0 eq_refl) as Hs2.
    rewrite Hw in Hs2. simpl in Hs2. subst s2.
    apply while_found in Hw. destruct Hw as ([n0 x0] & s1 & Hb).
    rewrite next_mean_body_eq in Hb.
    pose proof (getitem_yields ord n0) as Hg.
    destruct (getitem ord n0) as [name | |]; try discriminate. simpl in Hg.
    destruct (lookup (projects self) name) as [p | |] eqn:Hp; try discriminate.
    destruct (Mdates.in_calendar (first_day self + day - drill p));
      [| discriminate].
    inversion Hb. subst. clear Hb. simpl in H.
    apply add_projects_ret_inv in H. destruct H as (_ & _ & _ & _ & ->).
    match type of Htake with
    | Np.take ?l ?i = _ => pose proof (take_yields l i) as Hy
    end.
    rewrite Htake in Hy. simpl in Hy. destruct Hy as [Hin _].
    rewrite Forall_forall in Hin. apply Hin, compress_unused in Hg.
    exists name, p. repeat split; try apply Hg; try assumption;
      try (symmetry; assumption).
    apply added_all_one, Hp.
  - exfalso.
    apply bindM_ret_inv in H. destruct H as ([] & s1 & _ & H).
    apply bindM_ret_inv in H. destruct H as (ord & s2 & _ & H).
    apply bindM_ret_inv in H. destruct H as (c & s3 & _ & H).
    apply bindM_ret_inv in H. destruct H as (loc & s4 & Hw & _).
    destruct (c mod 2 =? 0); apply while_found in Hw;
      destruct Hw as (l0 & s5 & Hb);
      match type of Hb with
      | next_minmax_body ?sf ?st ?cd ?cy ?o ?l ?x = _ =>
          pose proof (proj1 (next_minmax_body_raises sf st cd cy o l x)) as Hr
      end;
      rewrite Hb in Hr; exact Hr.
  - exfalso.
    apply bindM_ret_inv in H. destruct H as (name & s1 & Hw & _).
    apply while_found in Hw. destruct Hw as (l0 & s2 & Hb).
    match type of Hb with
    | next_random_body ?sf ?lf ?l ?x = _ =>
        pose proof (proj2 (next_random_body_raises sf lf l x)) as Hr
    end.
    apply (Hr (true, name)). rewrite Hb. reflexivity.
Qed.

(** The ['mean'] next-project search on day 1 of [Scenario.minmax_first],
    which returns. *)
Lemma next_search_adds_feasible_witness :
  next_project Scenario.minmax_first = Mean
  /\ exists name p,
       In name (projects_names Scenario.minmax_first)
       /\ ~ In name (used_projects (initial_state Example.zeros))
       /\ lookup (projects Scenario.minmax_first) name = Ret p
       /\ within_drilling (first_day Scenario.minmax_first + 1)
            (Mdates.year
               (Mdates.civil (first_day Scenario.minmax_first + 1)))
            (spud p) p = true
       /\ snd (search_next_project Scenario.minmax_first 3 1 0%Q
                 (initial_state Example.zeros))
          = added Scenario.minmax_first 1 name p (initial_state Example.zeros).
Proof.
  apply (next_search_adds_feasible Scenario.minmax_first 3 1 0%Q
           (initial_state Example.zeros)).
  vm_compute. reflexivity.
Defined.

Lemma next_minmax_always_fails_witness :
  is_raise (fst (search_next_project Cases.minmax_next 1 1 0%Q
                   (initial_state Example.zeros)))
  /\ snd (search_next_project Cases.minmax_next 1 1 0%Q
            (initial_state Example.zeros))
     = set_call (call (initial_state Example.zeros) + 1)
         (initial_state Example.zeros).
Proof.
  exact (next_minmax_always_fails Cases.minmax_next 0 1 0%Q
           (initial_state Example.zeros) eq_refl).
Defined.

(* ================================================================== *)
(** * The late part of the ordering, and when the ordering returns *)

Lemma insertZ_sorted x l :
  StronglySorted Z.lt l -> StronglySorted Z.lt (Np.insertZ x l).
Proof.
  induction 1 as [| y l Hs IH Hy]; simpl; [repeat constructor |].
  destruct (x <? y) eqn:Hlt.
  - apply Z.ltb_lt in Hlt. constructor; [constructor; assumption |].
    constructor; [exact Hlt |].
    eapply Forall_impl; [| exact Hy]. simpl. intros z Hz. lia.
  - destruct (x =? y) eqn:Heq; [constructor; assumption |].
    apply Z.ltb_ge in Hlt. apply Z.eqb_neq in Heq.
    constructor; [exact IH |].
    apply Forall_forall. intros z Hz. apply insertZ_In in Hz.
    destruct Hz as [-> | Hz]; [lia |].
    rewrite Forall_forall in Hy. apply Hy, Hz.
Qed.

Lemma unique_sorted a : StronglySorted Z.lt (Np.unique a).
Proof.
  induction a as [| x a IH]; simpl; [constructor | apply insertZ_sorted, IH].
Qed.

Lemma sorted_lt_NoDup l : StronglySorted Z.lt l -> NoDup l.
Proof.
  induction 1 as [| y l Hs IH Hy]; constructor; [| exact IH].
  intros Hin. rewrite Forall_forall in Hy. specialize (Hy y Hin). lia.
Qed.

Lemma insert_sorted_perm x l : Permutation (Np.insert_sorted x l) (x :: l).
Proof.
  induction l as [| y l IH]; simpl; [apply Permutation_refl |].
  destruct (x <=? y); [apply Permutation_refl |].
  etransitivity; [apply perm_skip, IH | apply perm_swap].
Qed.

Lemma sort_perm a : Permutation (Np.sort a) a.
Proof.
  induction a as [| x a IH]; simpl; [constructor |].
  etransitivity; [apply insert_sorted_perm | apply perm_skip, IH].
Qed.

(** The drilling durations the groups are made for are pairwise
    different. *)
Lemma drill_values_NoDup a : NoDup (rev (Np.sort (Np.unique a))).
Proof.
  apply NoDup_rev.
  apply (Permutation_NoDup (Permutation_sym (sort_perm (Np.unique a)))).
  apply sorted_lt_NoDup, unique_sorted.
Qed.

Lemma filter_groups_cons {A} (f : A -> Z) x l vs :
  NoDup vs ->
  Permutation
    (flat_map (fun v => filter (fun y => f y =? v) (x :: l)) vs)
    (if existsb (Z.eqb (f x)) vs
     then x :: flat_map (fun v => filter (fun y => f y =? v) l) vs
     else flat_map (fun v => filter (fun y => f y =? v) l) vs).
Proof.
  induction 1 as [| v vs Hv Hnd IH]; simpl; [constructor |].
  destruct (f x =? v) eqn:Heq; simpl.
  - apply Z.eqb_eq in Heq. subst v.
    replace (existsb (Z.eqb (f x)) vs) with false in IH.
    + apply perm_skip, Permutation_app_head, IH.
    + symmetry. apply not_true_is_false. intros He.
      apply existsb_exists in He. destruct He as (w & Hw & Hfw).
      apply Z.eqb_eq in Hfw. subst w. contradiction.
  - destruct (existsb (Z.eqb (f x)) vs).
    + etransitivity; [apply Permutation_app_head, IH |].
      symmetry. apply Permutation_middle.
    + apply Permutation_app_head, IH.
Qed.

(** Grouping by the values of [f], for pairwise different values that
    cover the list, rearranges the list. *)
Lemma filter_groups_perm {A} (f : A -> Z) vs : forall l,
  NoDup vs ->
  (forall x, In x l -> In (f x) vs) ->
  Permutation (flat_map (fun v => filter (fun y => f y =? v) l) vs) l.
Proof.
  induction l as [| x l IH]; intros Hnd Hcover.
  - induction vs as [| v vs IHv]; simpl; [constructor |].
    apply IHv; [inversion Hnd; assumption | intros x []].
  - etransitivity; [apply filter_groups_cons, Hnd |].
    replace (existsb (Z.eqb (f x)) vs) with true.
    + apply perm_skip, IH; [exact Hnd |].
      intros y Hy. apply Hcover. right. exact Hy.
    + symmetry. apply existsb_exists. exists (f x).
      split; [apply Hcover; left; reflexivity | apply Z.eqb_refl].
Qed.

Lemma drill_groups_perm drills io :
  Permutation (concat (drill_groups drills io)) io.
Proof.
  unfold drill_groups. rewrite <- flat_map_concat_map.
  apply filter_groups_perm; [apply drill_values_NoDup |].
  intros x Hx. apply in_rev. rewrite rev_involutive.
  apply sort_In, unique_In, in_map, Hx.
Qed.

(** The last loop of the late sequence numbers the projects from 0. *)
Lemma after_loop {A} (rest : list A) : forall pre acc,
  foldM (map Z.of_nat (seq (length pre) (length rest)))
    (fun day (acc : Z * list (Z * A)) =>
       Py.bind (getitem (pre ++ rest) (fst acc))
         (fun ii => Ret (fst acc + 1, snd acc ++ [(day, ii)])))
    (Z.of_nat (length pre), acc) =
  Ret (Z.of_nat (length (pre ++ rest)),
       acc ++ combine (map Z.of_nat (seq (length pre) (length rest))) rest).
Proof.
  induction rest as [| x rest IH]; intros pre acc.
  - simpl. rewrite !app_nil_r. reflexivity.
  - simpl. rewrite getitem_middle. simpl.
    specialize (IH (pre ++ [x]) (acc ++ [(Z.of_nat (length pre), x)])).
    rewrite <- app_assoc in IH. simpl in IH.
    rewrite length_app in IH. simpl in IH. rewrite Nat.add_1_r in IH.
    replace (Z.of_nat (length pre) + 1) with (Z.of_nat (S (length pre))) by lia.
    rewrite IH. rewrite <- app_assoc. reflexivity.
Qed.


(** ** The order of the late sequence *)

Lemma sorted_app {A} (R : A -> A -> Prop) l1 l2 :
  StronglySorted R l1 -> StronglySorted R l2 ->
  (forall x y, In x l1 -> In y l2 -> R x y) ->
  StronglySorted R (l1 ++ l2).
Proof.
  induction 1 as [| x l1 Hs IH Hx]; intros H2 Hcross; simpl; [exact H2 |].
  constructor.
  - apply IH; [exact H2 |]. intros a b Ha Hb. apply Hcross; [right |]; assumption.
  - apply Forall_app. split; [exact Hx |].
    apply Forall_forall. intros y Hy. apply Hcross; [left; reflexivity | exact Hy].
Qed.

Lemma sorted_rev {A} (R : A -> A -> Prop) l :
  StronglySorted R l -> StronglySorted (fun x y => R y x) (rev l).
Proof.
  induction 1 as [| x l Hs IH Hx]; simpl; [constructor |].
  apply sorted_app; [exact IH | repeat constructor |].
  intros a b Ha [<- | []]. apply in_rev in Ha.
  rewrite Forall_forall in Hx. apply Hx, Ha.
Qed.

Lemma sorted_filter {A} (R : A -> A -> Prop) (c : A -> bool) l :
  StronglySorted R l -> StronglySorted R (filter c l).
Proof.
  induction 1 as [| x l Hs IH Hx]; simpl; [constructor |].
  destruct (c x); [| exact IH]. constructor; [exact IH |].
  apply Forall_forall. intros y Hy. apply filter_In in Hy.
  rewrite Forall_forall in Hx. apply Hx, Hy.
Qed.

Lemma sorted_map_in {A B} (R : A -> A -> Prop) (R' : B -> B -> Prop)
    (f : A -> B) l :
  (forall x y, In x l -> In y l -> R x y -> R' (f x) (f y)) ->
  StronglySorted R l -> StronglySorted R' (map f l).
Proof.
  intros Himp Hs. induction Hs as [| x l Hs IH Hx]; simpl; [constructor |].
  constructor.
  - apply IH. intros a b Ha Hb. apply Himp; right; assumption.
  - apply Forall_forall. intros y Hy. apply in_map_iff in Hy.
    destruct Hy as (z & <- & Hz). rewrite Forall_forall in Hx.
    apply Himp; [left; reflexivity | right; exact Hz | apply Hx, Hz].
Qed.

Lemma insert_by_sorted key i l :
  StronglySorted (fun a b => (key a <= key b)%Q) l ->
  StronglySorted (fun a b => (key a <= key b)%Q) (Np.insert_by key i l).
Proof.
  induction 1 as [| j l Hs IH Hj]; simpl; [repeat constructor |].
  destruct (Qle_bool (key i) (key j)) eqn:Hle.
  - apply Qle_bool_iff in Hle. constructor; [constructor; assumption |].
    constructor; [exact Hle |].
    eapply Forall_impl; [| exact Hj]. simpl. intros k Hk.
    eapply Qle_trans; eassumption.
  - assert (Hji : (key j <= key i)%Q).
    { destruct (Qlt_le_dec (key j) (key i)) as [Hlt | Hge];
        [apply Qlt_le_weak, Hlt |].
      apply Qle_bool_iff in Hge. congruence. }
    constructor; [exact IH |].
    apply Forall_forall. intros k Hk.
    apply (Permutation_in _ (insert_by_perm key i l)) in Hk.
    destruct Hk as [<- | Hk]; [exact Hji |].
    rewrite Forall_forall in Hj. apply Hj, Hk.
Qed.

(** [argsort] puts the positions in ascending order of value. *)
Lemma argsort_sorted a :
  StronglySorted (fun i j => (nth i a 0 <= nth j a 0)%Q) (Np.argsort a).
Proof.
  unfold Np.argsort.
  induction (seq 0 (length a)) as [| i l IH]; simpl; [constructor |].
  apply (insert_by_sorted (fun i => nth i a 0%Q)), IH.
Qed.

Lemma sort_sorted_id l : StronglySorted Z.lt l -> Np.sort l = l.
Proof.
  induction 1 as [| x l Hs IH Hx]; simpl; [reflexivity |].
  rewrite IH. destruct l as [| y l]; [reflexivity |]. simpl.
  inversion Hx; subst.
  replace (x <=? y) with true by (symmetry; apply Z.leb_le; lia).
  reflexivity.
Qed.

(** The drilling durations of the groups come in decreasing order. *)
Lemma drill_values_decreasing a :
  StronglySorted Z.gt (rev (Np.sort (Np.unique a))).
Proof.
  rewrite (sort_sorted_id _ (unique_sorted a)).
  pose proof (sorted_rev Z.lt _ (unique_sorted a)) as H.
  eapply (sorted_map_in _ Z.gt (fun x => x)) in H.
  - rewrite map_id in H. exact H.
  - intros x y _ _ Hxy. lia.
Qed.

(** Concatenating the groups of a list that is in the order of decreasing
    total gives the ranking of the ordering. *)
Lemma drill_groups_ranked drills totals io :
  StronglySorted (fun i j => (nth j totals 0 <= nth i totals 0)%Q) io ->
  StronglySorted (ranked_before drills totals)
    (concat (drill_groups drills io)).
Proof.
  intros Hio. unfold drill_groups. rewrite <- flat_map_concat_map.
  pose proof (drill_values_decreasing (map (drill_at drills) io)) as Hvs.
  induction Hvs as [| v vs Hs IH Hv]; simpl; [constructor |].
  apply sorted_app; [| exact IH |].
  - pose proof (sorted_filter _ (fun i => drill_at drills i =? v) io Hio) as Hf.
    eapply (sorted_map_in _ (ranked_before drills totals) (fun x => x)) in Hf.
    + rewrite map_id in Hf. exact Hf.
    + intros x y Hx Hy Hxy. right. split; [| exact Hxy].
      apply filter_In in Hx, Hy. destruct Hx as [_ Hx], Hy as [_ Hy].
      apply Z.eqb_eq in Hx, Hy. congruence.
  - intros x y Hx Hy. left.
    apply filter_In in Hx. destruct Hx as [_ Hx]. apply Z.eqb_eq in Hx.
    apply in_flat_map in Hy. destruct Hy as (w & Hw & Hy).
    apply filter_In in Hy. destruct Hy as [_ Hy]. apply Z.eqb_eq in Hy.
    rewrite Forall_forall in Hv. specialize (Hv w Hw). lia.
Qed.

(** The late sequence, computed: the late projects are put in the order of
    decreasing total, grouped by drilling duration, longest first, and
    numbered in that order. *)
Lemma sequence_after_eq (self : Projects_Planner) spuds drills totals :
  length spuds = projects_length self ->
  length drills = projects_length self ->
  length totals = projects_length self ->
  late_positions self spuds <> [] ->
  exists indxs_order,
    Permutation indxs_order (late_positions self spuds)
    /\ StronglySorted (fun i j => (nth j totals 0 <= nth i totals 0)%Q)
         indxs_order
    /\ sequence_after self spuds drills totals =
         Ret (combine (Py.range (Z.of_nat (length (late_positions self spuds))))
                (concat (drill_groups drills indxs_order))).
Proof.
  intros Hs Hd Ht Hne.
  set (late := late_positions self spuds) in *.
  assert (Hlate : Forall (fun i => i < projects_length self)%nat late).
  { eapply Forall_impl; [| apply (where_from_bounds _ spuds 0)].
    simpl. intros i Hi. lia. }
  unfold sequence_after.
  fold (late_positions self spuds). fold late.
  rewrite (take_nth (seq 0 (projects_length self)) late 0%nat)
    by (rewrite length_seq; exact Hlate).
  rewrite (take_nth drills late 0) by (rewrite Hd; exact Hlate).
  rewrite (take_nth totals late 0%Q) by (rewrite Ht; exact Hlate).
  simpl Py.bind.
  assert (Hid : map (fun i => nth i (seq 0 (projects_length self)) 0%nat) late
                = late).
  { transitivity (map (fun i => i) late); [| apply map_id].
    apply map_ext_in. intros i Hi.
    rewrite Forall_forall in Hlate. rewrite seq_nth by (apply Hlate, Hi).
    reflexivity. }
  rewrite Hid.
  set (order := rev (Np.argsort (map (fun i => nth i totals 0%Q) late))).
  assert (Hperm : Permutation order (seq 0 (length late))).
  { unfold order. etransitivity; [symmetry; apply Permutation_rev |].
    etransitivity; [apply argsort_perm |]. rewrite length_map. reflexivity. }
  assert (Horder : Forall (fun i => i < length late)%nat order).
  { apply Forall_forall. intros i Hi.
    apply (Permutation_in _ Hperm) in Hi. apply in_seq in Hi. lia. }
  rewrite (take_nth late order 0%nat Horder).
  rewrite (take_nth (map (fun i => nth i drills 0) late) order 0)
    by (rewrite length_map; exact Horder).
  simpl Py.bind.
  set (io := map (fun i => nth i late 0%nat) order).
  assert (Hio : Permutation io late).
  { unfold io.
    pose proof (Permutation_map (fun i => nth i late 0%nat) Hperm) as Hm.
    rewrite map_nth_seq in Hm. exact Hm. }
  assert (Hdo : map (fun i => nth i (map (fun i => nth i drills 0) late) 0) order
                = map (drill_at drills) io).
  { unfold io. rewrite map_map. apply map_ext_in. intros i Hi.
    rewrite Forall_forall in Horder.
    apply (nth_map_in_range (fun i => nth i drills 0) late i 0%nat 0).
    apply Horder, Hi. }
  rewrite Hdo.
  assert (Hsorted : StronglySorted
                      (fun i j => (nth j totals 0 <= nth i totals 0)%Q) io).
  { unfold io, order.
    apply (sorted_map_in
             (fun x y => (nth y (map (fun i => nth i totals 0%Q) late) 0
                          <= nth x (map (fun i => nth i totals 0%Q) late) 0)%Q)).
    - intros x y Hx Hy Hxy. rewrite Forall_forall in Horder.
      rewrite <- (nth_map_in_range (fun i => nth i totals 0%Q) late x 0%nat 0%Q)
        by (apply Horder, Hx).
      rewrite <- (nth_map_in_range (fun i => nth i totals 0%Q) late y 0%nat 0%Q)
        by (apply Horder, Hy).
      exact Hxy.
    - apply (sorted_rev
               (fun x y => (nth x (map (fun i => nth i totals 0%Q) late) 0
                            <= nth y (map (fun i => nth i totals 0%Q) late) 0)%Q)).
      apply argsort_sorted. }
  exists io. split; [exact Hio |]. split; [exact Hsorted |].
  rewrite (mapM_map _ (fun dr => filter (fun i => drill_at drills i =? dr) io)).
  2: { intros dr _. unfold drill_group, Np.where_.
       rewrite where_from_map. apply take_where. }
  simpl Py.bind. fold (drill_groups drills io).
  assert (Hcat : Permutation (concat (drill_groups drills io)) io)
    by apply drill_groups_perm.
  assert (Hlen : length (concat (drill_groups drills io)) = length late).
  { rewrite (Permutation_length Hcat). apply (Permutation_length Hio). }
  destruct (drill_groups drills io) as [| g groups] eqn:Hg.
  { exfalso. apply Hne. apply length_zero_iff_nil. rewrite <- Hlen. reflexivity. }
  rewrite <- Hg in *. clear Hg g groups.
  unfold Np.hstack.
  destruct (drill_groups drills io) as [| g groups] eqn:Hg.
  { exfalso. apply Hne. apply length_zero_iff_nil. rewrite <- Hlen. reflexivity. }
  rewrite <- Hg in *. simpl Py.bind.
  rewrite length_map, (Permutation_length Hio), <- Hlen.
  unfold Py.range. rewrite Nat2Z.id.
  pose proof (after_loop (concat (drill_groups drills io)) [] []) as Hloop.
  simpl in Hloop. rewrite Hloop. reflexivity.
Qed.

(** The late part of the ordering, when some project is late: the late
    sequence is computed; its offsets are 0, 1, 2, ... in order, one per late
    project; its projects are the late projects, each once, by decreasing
    drilling duration and, within a duration, by decreasing total. *)
Theorem late_sequence_offsets (self : Projects_Planner) spuds drills totals :
  length spuds = projects_length self ->
  length drills = projects_length self ->
  length totals = projects_length self ->
  late_positions self spuds <> [] ->
  exists sequence,
    sequence_after self spuds drills totals = Ret sequence
    /\ map fst sequence =
         Py.range (Z.of_nat (length (late_positions self spuds)))
    /\ Permutation (map snd sequence) (late_positions self spuds)
    /\ StronglySorted (ranked_before drills totals) (map snd sequence).
Proof.
  intros Hs Hd Ht Hne.
  destruct (sequence_after_eq self spuds drills totals Hs Hd Ht Hne)
    as (io & Hio & Hsorted & Heq).
  pose proof (drill_groups_perm drills io) as Hcat.
  assert (Hlen : length (Py.range (Z.of_nat (length (late_positions self spuds))))
                 = length (concat (drill_groups drills io))).
  { unfold Py.range. rewrite length_map, length_seq, Nat2Z.id.
    rewrite (Permutation_length Hcat). symmetry. apply (Permutation_length Hio). }
  eexists. split; [exact Heq |].
  rewrite (map_fst_combine _ _ Hlen), (map_snd_combine _ _ Hlen).
  split; [reflexivity |]. split.
  - etransitivity; eassumption.
  - apply drill_groups_ranked, Hsorted.
Qed.

Lemma late_sequence_offsets_witness :
  exists sequence,
    sequence_after Cases.mixed (spuds_of Cases.mixed) (drills_of Cases.mixed)
      (totals_of Cases.mixed) = Ret sequence
    /\ map fst sequence =
         Py.range (Z.of_nat (length (late_positions Cases.mixed
                                       (spuds_of Cases.mixed))))
    /\ Permutation (map snd sequence)
         (late_positions Cases.mixed (spuds_of Cases.mixed))
    /\ StronglySorted
         (ranked_before (drills_of Cases.mixed) (totals_of Cases.mixed))
         (map snd sequence).
Proof.
  apply (late_sequence_offsets Cases.mixed (spuds_of Cases.mixed)
           (drills_of Cases.mixed) (totals_of Cases.mixed)).
  - reflexivity.
  - reflexivity.
  - reflexivity.
  - discriminate.
Defined.

Lemma in_enumerate {A} (l : list A) x :
  In x l <-> exists k, In (k, x) (enumerate l).
Proof.
  unfold enumerate. generalize 0%nat as i. induction l as [| y l IH]; intros i.
  - simpl. split; [intros [] | intros [k []]].
  - simpl. split.
    + intros [-> | Hx]; [exists i; left; reflexivity |].
      apply (IH (S i)) in Hx. destruct Hx as [k Hk]. exists k. right. exact Hk.
    + intros [k [Hk | Hk]]; [inversion Hk; left; reflexivity |].
      right. apply (IH (S i)). exists k. exact Hk.
Qed.

(** The early part of the ordering, when some project is early: the early
    sequence is computed, and the projects it holds are the early projects
    with a drilling duration of at least one day. An early project whose
    drilling duration is 0 (or negative) gets no entry. No entry is earlier
    than the drilling duration of its project before day 0. *)
Theorem early_sequence_members (self : Projects_Planner) spuds drills totals :
  length spuds = projects_length self ->
  length drills = projects_length self ->
  length totals = projects_length self ->
  early_positions self spuds <> [] ->
  exists sequence,
    sequence_before self spuds drills totals = Ret sequence
    /\ (forall i, In i (map snd sequence) <->
                  In i (early_positions self spuds) /\ 1 <= drill_at drills i)
    /\ (forall off i, In (off, i) sequence -> - drill_at drills i <= off).
Proof.
  intros Hs Hd Ht Hne.
  destruct (sequence_before_eq self spuds drills totals Hs Hd Ht Hne)
    as (io & db & Hio & Hmax & Heq).
  eexists. split; [exact Heq |].
  assert (Hentry : forall off i,
            In (off, i)
              (flat_map (fun day => flat_map (placed drills db day)
                                      (drill_groups drills io)) (Py.range db))
            <-> exists day dd g,
                  0 <= day < db /\ In g (drill_groups drills io)
                  /\ In (dd, i) (enumerate g)
                  /\ (forall j, In j g -> drill_at drills j = db - day)
                  /\ off = - (db - day - Z.of_nat dd)).
  { intros off i. rewrite in_flat_map. split.
    - intros (day & Hday & Hin). apply in_range in Hday.
      apply in_flat_map in Hin. destruct Hin as (g & Hg & Hin).
      pose proof Hg as Hg'. unfold drill_groups in Hg'.
      apply in_map_iff in Hg'. destruct Hg' as (dr & Hdr & _).
      unfold placed in Hin. destruct g as [| g0 g']; [destruct Hin |].
      fold (drill_at drills g0) in Hin.
      destruct (db - day =? drill_at drills g0) eqn:Hd0; [| destruct Hin].
      apply Z.eqb_eq in Hd0. apply in_map_iff in Hin.
      destruct Hin as ([dd i'] & Hpair & Hin). simpl in Hpair.
      inversion Hpair. subst off i'. clear Hpair.
      exists day, dd, (g0 :: g'). repeat split; try assumption; try lia.
      intros j Hj. rewrite <- Hdr in Hj.
      assert (H0 : In g0 (g0 :: g')) by (left; reflexivity).
      rewrite <- Hdr in H0.
      apply filter_In in Hj, H0. destruct Hj as [_ Hj], H0 as [_ H0].
      apply Z.eqb_eq in Hj, H0. lia.
    - intros (day & dd & g & Hday & Hg & Hin & Hdrill & ->).
      exists day. split; [apply in_range, Hday |].
      apply in_flat_map. exists g. split; [exact Hg |].
      unfold placed. destruct g as [| g0 g']; [destruct Hin |].
      fold (drill_at drills g0).
      rewrite (Hdrill g0 (or_introl eq_refl)), Z.eqb_refl.
      apply in_map_iff. exists (dd, i). split; [reflexivity | exact Hin]. }
  split.
  - intros i. rewrite in_map_iff. split.
    + intros ([off i'] & Hi & Hin). simpl in Hi. subst i'.
      apply Hentry in Hin.
      destruct Hin as (day & dd & g & Hday & Hg & Hin & Hdrill & _).
      assert (Hig : In i g) by (apply in_enumerate; exists dd; exact Hin).
      unfold drill_groups in Hg. apply in_map_iff in Hg.
      destruct Hg as (dr & <- & _).
      rewrite (Hdrill i Hig). split; [| lia].
      apply filter_In in Hig. eapply Permutation_in; [exact Hio | apply Hig].
    + intros [Hi Hpos].
      assert (Hi' : In i io) by (eapply Permutation_in; [symmetry |]; eassumption).
      assert (Hle : drill_at drills i <= db).
      { apply (max_upper _ _ Hmax), unique_In, in_map, Hi'. }
      set (g := filter (fun j => drill_at drills j =? drill_at drills i) io).
      assert (Hig : In i g) by (apply filter_In; split; [exact Hi' | apply Z.eqb_refl]).
      apply in_enumerate in Hig. destruct Hig as [dd Hdd].
      exists (- (db - (db - drill_at drills i) - Z.of_nat dd), i).
      split; [reflexivity |]. apply Hentry.
      exists (db - drill_at drills i), dd, g. repeat split; try lia.
      * unfold drill_groups. apply in_map_iff.
        exists (drill_at drills i). split; [reflexivity |].
        apply in_rev. rewrite rev_involutive.
        apply sort_In, unique_In, in_map, Hi'.
      * exact Hdd.
      * intros j Hj. apply filter_In in Hj. destruct Hj as [_ Hj].
        apply Z.eqb_eq in Hj. lia.
  - intros off i Hin. apply Hentry in Hin.
    destruct Hin as (day & dd & g & Hday & Hg & Hin & Hdrill & ->).
    assert (Hig : In i g) by (apply in_enumerate; exists dd; exact Hin).
    rewrite (Hdrill i Hig). lia.
Qed.

Lemma early_sequence_members_witness :
  exists sequence,
    sequence_before Cases.mixed (spuds_of Cases.mixed) (drills_of Cases.mixed)
      (totals_of Cases.mixed) = Ret sequence
    /\ (forall i, In i (map snd sequence) <->
                  In i (early_positions Cases.mixed (spuds_of Cases.mixed))
                  /\ 1 <= drill_at (drills_of Cases.mixed) i)
    /\ (forall off i, In (off, i) sequence ->
                      - drill_at (drills_of Cases.mixed) i <= off).
Proof.
  apply (early_sequence_members Cases.mixed (spuds_of Cases.mixed)
           (drills_of Cases.mixed) (totals_of Cases.mixed)).
  - reflexivity.
  - reflexivity.
  - reflexivity.
  - discriminate.
Defined.

Lemma sequence_before_without_early (self : Projects_Planner) spuds drills totals :
  early_positions self spuds = [] ->
  sequence_before self spuds drills totals = Raise ValueError.
Proof.
  intros H. unfold sequence_before.
  fold (early_positions self spuds). rewrite H. reflexivity.
Qed.

(** When [projects_ordering] returns. For a planner whose length attribute
    is the size of its catalog, the ordering is computed exactly when the
    catalog has at least one early project and at least one late project,
    and it is then the early sequence followed by the late one. When either
    group is empty the ordering, and with it the full run, fails with
    ValueError, and the run has changed nothing. *)
Theorem ordering_needs_both_groups (self : Projects_Planner) :
  projects_length self = length (projects self) ->
  (early_positions self (spuds_of self) = []
   \/ late_positions self (spuds_of self) = [] ->
   ordering self = Raise ValueError
   /\ forall s, Projects_Planner_call self s = (Raise ValueError, s))
  /\ (early_positions self (spuds_of self) <> [] ->
      late_positions self (spuds_of self) <> [] ->
      exists before after,
        sequence_before self (spuds_of self) (drills_of self) (totals_of self)
          = Ret before
        /\ sequence_after self (spuds_of self) (drills_of self) (totals_of self)
           = Ret after
        /\ ordering self = Ret (before ++ after)).
Proof.
  intros HL.
  assert (Hs : length (spuds_of self) = projects_length self)
    by (unfold spuds_of; rewrite length_map; symmetry; exact HL).
  assert (Hd : length (drills_of self) = projects_length self)
    by (unfold drills_of; rewrite length_map; symmetry; exact HL).
  assert (Ht : length (totals_of self) = projects_length self)
    by (unfold totals_of; rewrite length_map; symmetry; exact HL).
  split.
  - intros Hempty.
    assert (Hord : ordering self = Raise ValueError).
    { unfold ordering.
      fold (spuds_of self) (drills_of self) (totals_of self).
      destruct (list_eq_dec Nat.eq_dec (early_positions self (spuds_of self)) [])
        as [He | He].
      - rewrite (sequence_before_without_early _ _ _ _ He). reflexivity.
      - destruct Hempty as [He' | Hl]; [contradiction |].
        destruct (sequence_before_eq self _ _ _ Hs Hd Ht He)
          as (io & db & _ & _ & ->).
        simpl Py.bind.
        rewrite (sequence_after_without_late _ _ _ _ Hl). reflexivity. }
    split; [exact Hord |].
    intros s. unfold Projects_Planner_call, projects_ordering.
    unfold bindM at 1. unfold bindM at 1. unfold lift. rewrite Hord.
    reflexivity.
  - intros He Hl.
    destruct (sequence_before_eq self _ _ _ Hs Hd Ht He)
      as (io & db & _ & _ & Hb).
    destruct (sequence_after_eq self _ _ _ Hs Hd Ht Hl)
      as (io' & _ & _ & Ha).
    eexists. eexists. split; [exact Hb |]. split; [exact Ha |].
    unfold ordering.
    fold (spuds_of self) (drills_of self) (totals_of self).
    rewrite Hb, Ha. reflexivity.
Qed.

(** On the ordering scenario, where no project is late. *)
Lemma ordering_needs_both_groups_witness :
  (early_positions Scenario.ordering_ab (spuds_of Scenario.ordering_ab) = []
   \/ late_positions Scenario.ordering_ab (spuds_of Scenario.ordering_ab) = [] ->
   ordering Scenario.ordering_ab = Raise ValueError
   /\ forall s, Projects_Planner_call Scenario.ordering_ab s
                = (Raise ValueError, s))
  /\ (early_positions Scenario.ordering_ab (spuds_of Scenario.ordering_ab) <> [] ->
      late_positions Scenario.ordering_ab (spuds_of Scenario.ordering_ab) <> [] ->
      exists before after,
        sequence_before Scenario.ordering_ab (spuds_of Scenario.ordering_ab)
          (drills_of Scenario.ordering_ab) (totals_of Scenario.ordering_ab)
          = Ret before
        /\ sequence_after Scenario.ordering_ab (spuds_of Scenario.ordering_ab)
             (drills_of Scenario.ordering_ab) (totals_of Scenario.ordering_ab)
           = Ret after
        /\ ordering Scenario.ordering_ab = Ret (before ++ after)).
Proof.
  apply (ordering_needs_both_groups Scenario.ordering_ab). reflexivity.
Defined.

(* ================================================================== *)
(** * What the constructor returns and when it fails *)

Lemma getitem_eq {A} (l : list A) i d :
  getitem l i =
    if valid_subscript (length l) i then Ret (nth (wrap (length l) i) l d)
    else Raise IndexError.
Proof.
  pose proof (normalize_eq (length l) i) as Hn.
  unfold Np.normalize in Hn. unfold getitem.
  fold (wrap (length l) i).
  destruct (valid_subscript (length l) i) eqn:Hv.
  - destruct ((0 <=? _) && _) eqn:Hb; [| discriminate].
    apply andb_prop in Hb. destruct Hb as [_ Hb]. apply Z.ltb_lt in Hb.
    unfold wrap.
    rewrite (nth_error_nth' l d); [reflexivity |].
    apply andb_prop in Hv. destruct Hv as [Hv1 Hv2].
    apply Z.leb_le in Hv1. apply Z.ltb_lt in Hv2.
    destruct (i <? 0) eqn:Hneg; lia.
  - destruct ((0 <=? _) && _); [discriminate | reflexivity].
Qed.

Lemma operation_period_eq lo hi p :
  operation_period lo hi p =
    if valid_subscript (length (Raw.years p)) lo
       && valid_subscript (length (Raw.years p)) hi
    then Ret (nth (wrap (length (Raw.years p)) lo) (Raw.years p) 0,
              nth (wrap (length (Raw.years p)) hi) (Raw.years p) 0)
    else Raise IndexError.
Proof.
  unfold operation_period.
  rewrite (getitem_eq (Raw.years p) lo 0), (getitem_eq (Raw.years p) hi 0).
  destruct (valid_subscript _ lo); simpl; [| reflexivity].
  destruct (valid_subscript _ hi); reflexivity.
Qed.

(** A comprehension whose body raises at most [IndexError]: it returns when
    the body returns on every element, and raises IndexError otherwise. *)
Lemma mapM_index_error {A B} (f : A -> outcome B) (ok : A -> bool) l :
  (forall x, if ok x then exists y, f x = Ret y else f x = Raise IndexError) ->
  if forallb ok l then exists ys, mapM f l = Ret ys
  else mapM f l = Raise IndexError.
Proof.
  intros Hf. induction l as [| x l IH]; simpl; [exists []; reflexivity |].
  specialize (Hf x). destruct (ok x); simpl.
  - destruct Hf as [y ->]. simpl.
    destruct (forallb ok l).
    + destruct IH as [ys ->]. exists (y :: ys). reflexivity.
    + rewrite IH. reflexivity.
  - rewrite Hf. reflexivity.
Qed.

Lemma prod_diff_returns names maxs gm :
  length maxs = length names ->
  exists rel abs, projects_prod_diff names maxs gm = Ret (rel, abs).
Proof.
  intros Hlen. unfold projects_prod_diff.
  assert (Hin : forall xs, length xs = length names ->
            Forall (fun i => i < length names)%nat (Np.argsort xs)).
  { intros xs Hxs. apply Forall_forall. intros i Hi.
    apply (Permutation_in _ (argsort_perm xs)) in Hi.
    apply in_seq in Hi. lia. }
  rewrite (take_nth names _ EmptyString)
    by (apply Hin; rewrite length_map; exact Hlen).
  rewrite (take_nth names _ EmptyString) by (apply Hin; exact Hlen).
  eexists. eexists. reflexivity.
Qed.

Lemma forallb_andb {A} (a b : A -> bool) l :
  forallb (fun x => a x && b x) l = forallb a l && forallb b l.
Proof.
  induction l as [| x l IH]; simpl; [reflexivity |].
  rewrite IH. destruct (a x), (b x), (forallb a l); reflexivity.
Qed.

(** The outcome of the constructor. It returns a planner exactly when the
    window can be read on every project (a profile with a first value, both
    window subscripts valid on the time axis), the period is not 0 and the
    first day is a date of the calendar. It raises IndexError when some
    project cannot be read; otherwise ZeroDivisionError for the period 0;
    otherwise ValueError, from the conversion of the first day, the last
    statement of [__init__], when the first day is outside the years 1 to
    9999. *)
Theorem constructor_outcome quad start days ps kw :
  match Projects_Planner_init quad start days ps kw with
  | Ret self =>
      forallb (readable (fst (window kw)) (snd (window kw))) ps = true
      /\ days <> 0
      /\ Mdates.in_calendar start = true
      /\ period self = days
      /\ projects_names self = map fst ps
      /\ first_day self = start
      /\ first_year self = Mdates.year (Mdates.civil start)
      /\ projects_length self = length ps
  | Raise e =>
      (forallb (readable (fst (window kw)) (snd (window kw))) ps = false
       /\ e = IndexError)
      \/ (forallb (readable (fst (window kw)) (snd (window kw))) ps = true
          /\ days = 0 /\ e = ZeroDivisionError)
      \/ (forallb (readable (fst (window kw)) (snd (window kw))) ps = true
          /\ days <> 0
          /\ Mdates.in_calendar start = false /\ e = ValueError)
  | OutOfFuel => False
  end.
Proof.
  change (fst (window kw)) with (get_default (kw_min_year kw) 0).
  change (snd (window kw)) with (get_default (kw_max_year kw) (-1)).
  set (lo := get_default (kw_min_year kw) 0).
  set (hi := get_default (kw_max_year kw) (-1)).
  set (ok1 := fun np : string * Raw.project =>
                negb (Nat.eqb (length (Raw.profile (snd np))) 0)).
  set (ok2 := fun np : string * Raw.project =>
                valid_subscript (length (Raw.years (snd np))) lo
                && valid_subscript (length (Raw.years (snd np))) hi).
  assert (Hreadable : forallb (readable lo hi) ps
                      = forallb ok1 ps && forallb ok2 ps).
  { rewrite <- forallb_andb. clear. induction ps as [| np ps IH]; simpl;
      [reflexivity |].
    rewrite IH. unfold readable, ok1, ok2. rewrite andb_assoc.
    reflexivity. }
  assert (H1 := mapM_index_error
                  (fun np => getitem (Raw.profile (snd np)) 0) ok1 ps).
  assert (H2 := mapM_index_error
                  (fun np => project_total_prod quad lo hi (snd np)) ok2 ps).
  assert (H3 := mapM_index_error
                  (fun np => project_effective_prod lo hi (snd np)) ok2 ps).
  lapply H1; [clear H1; intros H1 |].
  2:{ intros np. unfold ok1. rewrite (getitem_eq _ 0 0%Q).
      replace (valid_subscript (length (Raw.profile (snd np))) 0)
        with (negb (Nat.eqb (length (Raw.profile (snd np))) 0)).
      - destruct (negb _); [eexists |]; reflexivity.
      - unfold valid_subscript.
        destruct (length (Raw.profile (snd np))) as [| n]; [reflexivity |].
        replace (- Z.of_nat (S n) <=? 0) with true
          by (symmetry; apply Z.leb_le; lia).
        replace (0 <? Z.of_nat (S n)) with true
          by (symmetry; apply Z.ltb_lt; lia).
        reflexivity. }
  lapply H2; [clear H2; intros H2 |].
  2:{ intros np. unfold ok2, project_total_prod.
      rewrite operation_period_eq. match goal with |- if ?b then _ else _ => destruct b end; simpl;
        [eexists |]; reflexivity. }
  lapply H3; [clear H3; intros H3 |].
  2:{ intros np. unfold ok2, project_effective_prod.
      rewrite operation_period_eq. match goal with |- if ?b then _ else _ => destruct b end; simpl;
        [eexists |]; reflexivity. }
  rewrite Hreadable.
  unfold Projects_Planner_init, Projects_init, projects_max_prod,
    projects_total_prod, projects_effective_prod.
  cbv zeta. fold lo hi.
  destruct (forallb ok1 ps).
  - destruct H1 as [maxs Hmaxs]. rewrite Hmaxs. simpl Py.bind.
    destruct (forallb ok2 ps).
    + destruct H2 as [totals Htotals]. destruct H3 as [effs Heffs].
      rewrite Htotals, Heffs. simpl Py.bind.
      destruct (days =? 0) eqn:Hdays; simpl Py.bind.
      * apply Z.eqb_eq in Hdays. right. auto.
      * apply Z.eqb_neq in Hdays.
        destruct (prod_diff_returns (map fst ps) maxs
                    (fold_left Qplus totals 0 / inject_Z days)%Q)
          as (rel & abs & Hdiff).
        { rewrite (mapM_length _ _ _ Hmaxs), length_map. reflexivity. }
        rewrite Hdiff. simpl Py.bind. unfold Mdates.num2date.
        destruct (Mdates.in_calendar start); simpl; auto 12.
    + rewrite H2. simpl. left. auto.
  - rewrite H1. simpl. left. auto.
Qed.

Lemma enrich_Forall2 (R1 R2 : string * Raw.project -> Q -> Prop)
    (R3 : string * Raw.project -> list Q -> Prop) ps :
  forall maxs totals effs,
  Forall2 R1 ps maxs -> Forall2 R2 ps totals -> Forall2 R3 ps effs ->
  Forall2 (fun np q => fst q = fst np /\ raw (snd q) = snd np
                       /\ R1 np (max_prod (snd q))
                       /\ R2 np (total (snd q))
                       /\ R3 np (effective (snd q)))
    ps (enrich ps maxs totals effs)
  /\ map (fun q => max_prod (snd q)) (enrich ps maxs totals effs) = maxs
  /\ map (fun q => total (snd q)) (enrich ps maxs totals effs) = totals.
Proof.
  induction ps as [| [name p] ps IH]; intros maxs totals effs H1 H2 H3;
    inversion H1; inversion H2; inversion H3; subst; simpl.
  - repeat split; constructor.
  - match goal with
    | Ha : Forall2 R1 ps ?a, Hb : Forall2 R2 ps ?b, Hc : Forall2 R3 ps ?c |- _ =>
        destruct (IH a b c Ha Hb Hc) as (IHa & IHb & IHc)
    end.
    split; [| split].
    + constructor; [| exact IHa]. simpl. auto.
    + f_equal. exact IHb.
    + f_equal. exact IHc.
Qed.

Lemma nth_map_seq {A} (g : nat -> A) n k d :
  (k < n)%nat -> nth k (map g (seq 0 n)) d = g k.
Proof.
  intros Hk. rewrite (nth_indep _ d (g 0%nat)) by
    (rewrite length_map, length_seq; exact Hk).
  rewrite map_nth, seq_nth by exact Hk. reflexivity.
Qed.

Lemma getitem_head {A} (l : list A) x :
  getitem l 0 = Ret x -> hd_error l = Some x.
Proof.
  destruct l as [| y l]; [discriminate |].
  rewrite (getitem_eq _ 0 y). unfold valid_subscript, wrap.
  destruct (_ && _); [| discriminate].
  simpl. intros H. inversion H. reflexivity.
Qed.

(** The metrics of a planner the constructor returns. Every project keeps
    its name and raw keys and gets its peak (the first value of its
    profile), its total (the integral of its curve over the window) and its
    effective profile, which has [fyear - iyear] samples, none when the
    window is empty or reversed. The catalog total is the sum of the
    projects' totals and the global mean that total over the period. *)
Theorem constructor_metrics quad start days ps kw self :
  Projects_Planner_init quad start days ps kw = Ret self ->
  Forall2 (enriched quad (fst (window kw)) (snd (window kw))) ps (projects self)
  /\ max_project_prod self = map (fun q => max_prod (snd q)) (projects self)
  /\ total_prod self
     = fold_left Qplus (map (fun q => total (snd q)) (projects self)) 0%Q
  /\ global_mean self = (total_prod self / inject_Z days)%Q
  /\ min_year self = fst (window kw)
  /\ max_year self = snd (window kw)
  /\ projects_length self = length (projects self).
Proof.
  intros H. apply Projects_Planner_init_inv in H.
  destruct H as (base & Hbase & _ & ->). cbn [super projects_length].
  unfold Projects_init in Hbase. cbv zeta in Hbase.
  change (get_default (kw_min_year kw) 0) with (fst (window kw)) in Hbase.
  change (get_default (kw_max_year kw) (-1)) with (snd (window kw)) in Hbase.
  set (lo := fst (window kw)) in *. set (hi := snd (window kw)) in *.
  apply bind_ret_inv in Hbase. destruct Hbase as (maxs & Hmaxs & Hbase).
  apply bind_ret_inv in Hbase. destruct Hbase as ([totals T] & Htot & Hbase).
  apply bind_ret_inv in Hbase. destruct Hbase as (effs & Heffs & Hbase).
  apply bind_ret_inv in Hbase. destruct Hbase as (gm & Hgm & Hbase).
  apply bind_ret_inv in Hbase. destruct Hbase as ([rel abs] & _ & Hbase).
  inversion Hbase; subst base; clear Hbase.
  cbn [projects max_project_prod total_prod global_mean min_year max_year].
  unfold projects_total_prod in Htot.
  apply bind_ret_inv in Htot. destruct Htot as (totals' & Htotals & Htot).
  inversion Htot; subst totals' T; clear Htot.
  destruct (days =? 0); [discriminate |]. inversion Hgm; subst gm; clear Hgm.
  apply mapM_ret_Forall2 in Hmaxs as Fmaxs.
  apply mapM_ret_Forall2 in Htotals as Ftotals.
  apply mapM_ret_Forall2 in Heffs as Feffs.
  destruct (enrich_Forall2 _ _ _ ps maxs totals effs Fmaxs Ftotals Feffs)
    as (Hall & Hm & Ht).
  rewrite Hm, Ht.
  split; [| repeat split].
  - revert Hall. apply Forall2_impl. intros np q (Hn & Hr & H1 & H2 & H3).
    unfold enriched. split; [exact Hn |]. split; [exact Hr |].
    split; [apply getitem_head, H1 |].
    unfold project_total_prod in H2.
    apply bind_ret_inv in H2. destruct H2 as ([iyear fyear] & Hop & H2).
    unfold project_effective_prod in H3. rewrite Hop in H3. simpl in H3.
    inversion H2 as [Htotal]. inversion H3 as [Heff].
    unfold operation_period in Hop.
    apply bind_ret_inv in Hop. destruct Hop as (iy & Hiy & Hop).
    apply bind_ret_inv in Hop. destruct Hop as (fy & Hfy & Hop).
    inversion Hop; subst iy fy.
    exists iyear, fyear.
    split; [exact Hiy |]. split; [exact Hfy |]. split; [reflexivity |].
    split.
    + rewrite length_map. apply arange_length.
    + intros k Hk. unfold Np.arange. rewrite map_map.
      apply (nth_map_seq
               (fun j => Raw.curve (snd np) (inject_Z (iyear + Z.of_nat j)))).
      exact Hk.
  - rewrite <- (length_map (fun q : string * project => max_prod (snd q))), Hm.
    symmetry. apply (mapM_length _ _ _ Hmaxs).
Qed.

(** On a catalog of three projects read on the default window. *)
Lemma constructor_metrics_witness :
  Forall2 (enriched Example.trapz 0 (-1)) Example.mixed
    (projects (Example.planner Example.mixed 5 no_kwargs))
  /\ projects_length (Example.planner Example.mixed 5 no_kwargs) = 3%nat.
Proof.
  destruct (constructor_metrics Example.trapz Example.start 5 Example.mixed
              no_kwargs (Example.planner Example.mixed 5 no_kwargs) eq_refl)
    as (Hall & _ & _ & _ & _ & _ & Hlen).
  split; [exact Hall | exact Hlen].
Defined.

Lemma take_argsort_arranged names key order :
  length key = length names ->
  Np.take names (Np.argsort key) = Ret order ->
  arranged_by key names order /\ Permutation order names.
Proof.
  intros Hlen Htake.
  pose proof (argsort_perm key) as Hperm. rewrite Hlen in Hperm.
  assert (Hin : Forall (fun i => i < length names)%nat (Np.argsort key)).
  { apply Forall_forall. intros i Hi.
    apply (Permutation_in _ Hperm) in Hi. apply in_seq in Hi. lia. }
  rewrite (take_nth names _ EmptyString Hin) in Htake.
  inversion Htake; subst order; clear Htake.
  split.
  - exists (Np.argsort key).
    split; [exact Hperm |]. split; [apply argsort_sorted | reflexivity].
  - apply (Permutation_map (fun i => nth i names EmptyString)) in Hperm.
    rewrite (map_nth_seq names EmptyString) in Hperm. exact Hperm.
Qed.

(** The two orderings of a planner the constructor returns. Each lists the
    project names by positions in ascending order, of the peaks for the
    absolute ordering and of the distances of the peaks to the global mean
    for the relative one; each is a rearrangement of the project names. *)
Theorem constructor_orderings quad start days ps kw self :
  Projects_Planner_init quad start days ps kw = Ret self ->
  arranged_by (max_project_prod self) (projects_names self)
    (order_projects_names_abs self)
  /\ arranged_by
       (map (fun m => Qabs (m - global_mean self)) (max_project_prod self))
       (projects_names self) (order_projects_names_rel self)
  /\ Permutation (order_projects_names_abs self) (projects_names self)
  /\ Permutation (order_projects_names_rel self) (projects_names self).
Proof.
  intros H. apply Projects_Planner_init_inv in H.
  destruct H as (base & Hbase & _ & ->). cbn [super].
  unfold Projects_init in Hbase. cbv zeta in Hbase.
  apply bind_ret_inv in Hbase. destruct Hbase as (maxs & Hmaxs & Hbase).
  apply bind_ret_inv in Hbase. destruct Hbase as ([totals T] & _ & Hbase).
  apply bind_ret_inv in Hbase. destruct Hbase as (effs & _ & Hbase).
  apply bind_ret_inv in Hbase. destruct Hbase as (gm & _ & Hbase).
  apply bind_ret_inv in Hbase. destruct Hbase as ([rel abs] & Hdiff & Hbase).
  inversion Hbase; subst base; clear Hbase.
  cbn [max_project_prod projects_names order_projects_names_abs
       order_projects_names_rel global_mean].
  assert (Hlen : length maxs = length (map fst ps)).
  { rewrite (mapM_length _ _ _ Hmaxs), length_map. reflexivity. }
  unfold projects_prod_diff in Hdiff.
  apply bind_ret_inv in Hdiff. destruct Hdiff as (rel' & Hrel & Hdiff).
  apply bind_ret_inv in Hdiff. destruct Hdiff as (abs' & Habs & Hdiff).
  inversion Hdiff; subst rel' abs'; clear Hdiff.
  apply take_argsort_arranged in Habs; [| exact Hlen].
  apply take_argsort_arranged in Hrel; [| rewrite length_map; exact Hlen].
  destruct Habs as [Ha Pa]. destruct Hrel as [Hr Pr]. auto.
Qed.

(** On a catalog of three projects with the peaks 10, 5 and 7. *)
Lemma constructor_orderings_witness :
  Permutation
    (order_projects_names_abs (Example.planner Example.mixed 5 no_kwargs))
    (projects_names (Example.planner Example.mixed 5 no_kwargs)).
Proof.
  apply (constructor_orderings Example.trapz Example.start 5 Example.mixed
           no_kwargs (Example.planner Example.mixed 5 no_kwargs) eq_refl).
Defined.

(* ================================================================== *)
(** * The production of a day outside the simulation *)

(** The summing loop of [project_production] on any pairs of catalog
    projects. *)
Lemma production_loop_any self day s : forall acts fs pre_f temp,
  projects_first_day s = pre_f ++ fs ->
  length acts = length fs ->
  Forall (in_catalog self) acts ->
  for_each (combine (seq (length pre_f) (length acts)) acts)
    (production_step self day) temp s =
  if forallb (in_curve self day) (combine acts fs)
  then (Ret (fold_left Qplus (map (read_curve self day) (combine acts fs)) temp),
        s)
  else (Raise IndexError, s).
Proof.
  induction acts as [| a acts IH]; intros fs pre_f temp Hf Hlen Hcat.
  - reflexivity.
  - destruct fs as [| d fs]; [discriminate |].
    inversion Hcat as [| ? ? [p Hp] Hcat']; subst.
    simpl combine. simpl forallb. simpl map. simpl fold_left. simpl for_each.
    assert (Hstep : production_step self day (length pre_f, a) temp s =
              if in_curve self day (a, d)
              then (Ret (temp + read_curve self day (a, d))%Q, s)
              else (Raise IndexError, s)).
    { unfold production_step, bindM, gets, lift, project_of, ret. simpl.
      rewrite Hf, getitem_middle, Hp.
      unfold in_curve, read_curve. simpl. rewrite Hp.
      rewrite (getitem_eq (effective p) (day - d) 0%Q).
      destruct (valid_subscript _ _); reflexivity. }
    destruct (in_curve self day (a, d)).
    + rewrite (bindM_ret _ _ _ _ _ Hstep).
      replace (S (length pre_f)) with (length (pre_f ++ [d]))
        by (rewrite length_app; simpl; lia).
      rewrite (IH fs (pre_f ++ [d])).
      * reflexivity.
      * rewrite <- app_assoc. exact Hf.
      * simpl in Hlen. congruence.
      * exact Hcat'.
    + apply (bindM_raise _ _ _ _ _ Hstep).
Qed.

(** [project_production] on any state whose two parallel lists are
    aligned and hold catalog projects, whatever the day. It first removes
    the exhausted pairs. If the subscript [day - start] of every pair left
    is valid on its curve, the value is the sum of the curves read there, a
    negative subscript reading from the end of the curve: a project added
    with a start day after [day] contributes a sample of the end of its
    curve. Otherwise it raises IndexError, the exhausted pairs being
    removed all the same. *)
Theorem production_on_any_day self day s :
  consistent self s ->
  project_production self day s =
    if forallb (in_curve self day) (active_pairs (updated self day s))
    then (Ret (Np.sum (map (read_curve self day)
                         (active_pairs (updated self day s)))),
          updated self day s)
    else (Raise IndexError, updated self day s).
Proof.
  intros Hc.
  assert (Hc' : consistent self (updated self day s)).
  { destruct Hc as [Hlen Hcat]. split.
    - unfold updated. simpl. rewrite !length_map. reflexivity.
    - unfold updated. simpl. apply Forall_forall. intros name Hin.
      apply in_map_iff in Hin. destruct Hin as [[n d] [Heq Hin]].
      simpl in Heq. subst. apply filter_In in Hin. destruct Hin as [Hin _].
      apply in_combine_l in Hin.
      rewrite Forall_forall in Hcat. apply Hcat, Hin. }
  destruct Hc' as [Hlen Hcat].
  unfold project_production.
  rewrite (bindM_ret _ _ _ _ _ (update_eq self day s Hc)).
  unfold bindM at 1. unfold gets at 1. unfold enumerate.
  apply (production_loop_any self day (updated self day s)
           (active_projects (updated self day s))
           (projects_first_day (updated self day s)) [] 0%Q eq_refl Hlen Hcat).
Qed.

(** C is added with the start day 3 and the production of day 1 is asked:
    the subscript is -2 and the value is the first sample of its curve. *)
Lemma production_on_any_day_witness :
  project_production Trace.self 1
    (snd (add_projects Trace.self ["C"%string] 3 (initial_state Example.zeros)))
  = (Ret (7 # 1)%Q,
     snd (add_projects Trace.self ["C"%string] 3 (initial_state Example.zeros))).
Proof.
  rewrite (production_on_any_day Trace.self 1
             (snd (add_projects Trace.self ["C"%string] 3
                     (initial_state Example.zeros)))).
  - vm_compute. reflexivity.
  - split; [reflexivity |].
    repeat constructor. vm_compute. eexists. reflexivity.
Defined.
